(** * A shallow embedding of the chess engine core (lib/engine-core.js)

    The engine is a single JavaScript file: a FEN codec ([fenToState],
    [generateFEN]), an attack detector ([isSquareAttacked]), a move
    generator ([generateMoves]), make/unmake ([makeMove], [undoMove]), a
    static evaluator, an alpha-beta [search] and the [analyzePosition]
    facade, wrapped by the [ChessEngine] class.

    Conventions of the embedding.
    - JavaScript numbers that the engine stores in a position are integers
      or [NaN]; they are modelled by [jsnum].  The model is exact for
      integers of magnitude below 2^53 (the range in which JavaScript
      arithmetic on integers is exact); statements that depend on
      arithmetic carry that bound.  Negative zero is identified with zero.
    - Text is [string]; characters are the 7-bit ASCII range, for which
      [toUpperCase] and [toLowerCase] are the letter-case maps below.
    - The board is a JavaScript array: a finite map from integer keys to
      slots together with its [length].  A slot holds [null] ([None]) or a
      one-character string; an absent key reads as [undefined].  Writing at
      an index at or past [length] grows the array; writing at a negative
      index creates a property and leaves [length] alone.
    - A thrown [TypeError] is [None] in an [option] result.
    - The pure functions thread the one state object they mutate; the
      object store at the end of the definitions says which objects hold
      it, for the statements about clones. *)

From Stdlib Require Import ZArith Ascii String List Bool Lia QArith.
From stdpp Require Import base option list strings gmap fin_maps.

Open Scope Z_scope.

(* ===================================================================== *)
(** ** JavaScript numbers and characters *)
(* ===================================================================== *)

Module JS.

Inductive jsnum : Type :=
| Num (z : Z)
| NaN.

Definition jsnum_eqb (a b : jsnum) : bool :=
  match a, b with
  | Num x, Num y => x =? y
  | _, _ => false          (* NaN === anything is false *)
  end.

Definition add (a b : jsnum) : jsnum :=
  match a, b with
  | Num x, Num y => Num (x + y)
  | _, _ => NaN
  end.

Definition sub (a b : jsnum) : jsnum :=
  match a, b with
  | Num x, Num y => Num (x - y)
  | _, _ => NaN
  end.

Definition mul (a b : jsnum) : jsnum :=
  match a, b with
  | Num x, Num y => Num (x * y)
  | _, _ => NaN
  end.

(** Truthiness of a number: [0] and [NaN] are falsy. *)
Definition truthy (a : jsnum) : bool :=
  match a with
  | Num z => negb (z =? 0)
  | NaN => false
  end.

Definition code (c : ascii) : Z := Z.of_nat (nat_of_ascii c).

Definition is_digit (c : ascii) : bool := (48 <=? code c) && (code c <=? 57).

(** The white space and line terminator characters of the ASCII range:
    TAB, LF, VT, FF, CR and SPACE. *)
Definition is_space (c : ascii) : bool :=
  ((9 <=? code c) && (code c <=? 13)) || (code c =? 32).

Definition digit_val (c : ascii) : Z := code c - 48.

Definition digit_char (d : Z) : ascii := ascii_of_nat (Z.to_nat (48 + d)).

Definition is_upper (c : ascii) : bool := (65 <=? code c) && (code c <=? 90).
Definition is_lower (c : ascii) : bool := (97 <=? code c) && (code c <=? 122).

Definition toUpperCase (c : ascii) : ascii :=
  if is_lower c then ascii_of_nat (Z.to_nat (code c - 32)) else c.

Definition toLowerCase (c : ascii) : ascii :=
  if is_upper c then ascii_of_nat (Z.to_nat (code c + 32)) else c.

Definition ascii_eqb (a b : ascii) : bool := Ascii.eqb a b.

(** [isNaN(char)] for a one-character string: [Number(char)] is a number
    exactly for a digit and for white space (which converts to [0]). *)
Definition isNaN_char (c : ascii) : bool := negb (is_digit c || is_space c).

(** *** [parseInt(text, 10)] *)

Fixpoint skip_space (s : string) : string :=
  match s with
  | String c r => if is_space c then skip_space r else s
  | EmptyString => s
  end.

(** Longest prefix of decimal digits, accumulated from the left; [seen]
    records whether a digit was read. *)
Fixpoint parse_digits (acc : Z) (seen : bool) (s : string) : option Z :=
  match s with
  | String c r =>
      if is_digit c then parse_digits (acc * 10 + digit_val c) true r
      else if seen then Some acc else None
  | EmptyString => if seen then Some acc else None
  end.

Definition parseInt (s : string) : jsnum :=
  let t := skip_space s in
  let '(neg, body) :=
    match t with
    | String c r =>
        if ascii_eqb c "-" then (true, r)
        else if ascii_eqb c "+" then (false, r)
        else (false, t)
    | EmptyString => (false, t)
    end in
  match parse_digits 0 false body with
  | Some v => Num (if neg then - v else v)
  | None => NaN
  end.

(** [parseInt(x, 10)] where [x] may be [undefined]: the text "undefined"
    has no digits. *)
Definition parseInt_opt (x : option string) : jsnum :=
  match x with
  | Some s => parseInt s
  | None => NaN
  end.

(** *** Number to text, as in a template literal or [text += number] *)

Fixpoint digits_of (fuel : nat) (n : Z) (tail : string) : string :=
  let tail' := String (digit_char (n mod 10)) tail in
  match fuel with
  | O => tail'
  | S k => if n <? 10 then tail' else digits_of k (n / 10) tail'
  end.

Definition nat_to_string (n : Z) : string :=
  digits_of (Z.to_nat (Z.log2 n)) n EmptyString.

Definition toString (a : jsnum) : string :=
  match a with
  | Num z => if z <? 0 then String "-" (nat_to_string (- z)) else nat_to_string z
  | NaN => "NaN"
  end.

End JS.

Import JS.

(* ===================================================================== *)
(** ** Data model: board, position, move, undo record *)
(* ===================================================================== *)

(** A slot of the board array: [null] or a one-character string. *)
Definition Slot : Type := option ascii.

(** The board array.  [cells] are the integer-keyed properties (array
    elements and, for negative keys, plain properties), [blen] is the
    array's [length], and [nan_cell] is the property named "NaN", which a
    write through a [NaN] index creates. *)
Record Board : Type := mkBoard {
  cells : gmap Z Slot;
  blen : Z;
  nan_cell : option Slot
}.

(** [board[i]]: [None] is [undefined]. *)
Definition bget (b : Board) (i : Z) : option Slot := cells b !! i.

(** The value of [board[i]] when it is truthy (a piece letter). *)
Definition bpiece (b : Board) (i : Z) : option ascii :=
  match bget b i with
  | Some (Some c) => Some c
  | _ => None
  end.

(** [board[i] = v]. *)
Definition bset (b : Board) (i : Z) (v : Slot) : Board :=
  {| cells := <[i := v]> (cells b);
     blen := if blen b <=? i then i + 1 else blen b;
     nan_cell := nan_cell b |}.

(** [board[idx] = v] where [idx] was computed and may be [NaN]. *)
Definition bset_num (b : Board) (idx : jsnum) (v : Slot) : Board :=
  match idx with
  | Num i => bset b i v
  | NaN => {| cells := cells b; blen := blen b; nan_cell := Some v |}
  end.

(** [new Array(n).fill(null)]. *)
Definition filled_null (n : nat) : Board :=
  {| cells := list_to_map (map (fun i => (Z.of_nat i, None)) (seq 0 n));
     blen := Z.of_nat n;
     nan_cell := None |}.

(** [board.slice()]: a new array with the elements at [0 .. length-1];
    holes stay holes and non-index properties are not copied. *)
Definition slice (b : Board) : Board :=
  {| cells := filter (fun kv => 0 <= kv.1 < blen b) (cells b);
     blen := blen b;
     nan_cell := None |}.

(** The castling object [{K, Q, k, q}]; [cK] is its field [K], and so on. *)
Record Castling : Type := mkCastling {
  cK : bool;
  cQ : bool;
  ck : bool;
  cq : bool
}.

Record State : Type := mkState {
  board : Board;
  whiteToMove : bool;
  castling : Castling;
  enPassant : jsnum;
  halfmove : jsnum;
  fullmove : jsnum
}.

(** The [flag] property of a move: ['double'], ['enpassant'],
    ['promotion'] or ['castle']. *)
Inductive Flag : Type := FDouble | FEnpassant | FPromotion | FCastle.

(** The [castle] property of a castle move: ['K'], ['Q'], ['k'], ['q']. *)
Inductive CastleSide : Type := CastleK | CastleQ | Castlek | Castleq.

Record Move : Type := mkMove {
  from : Z;
  to : Z;
  piece : ascii;
  capture : option ascii;      (* [null] or absent is [None] *)
  promotion : option ascii;
  flag : option Flag;
  castle : option CastleSide
}.

(** The undo record; [u_move] is its field [move], [u_captured] its field
    [captured], and so on. *)
Record Undo : Type := mkUndo {
  u_move : Move;
  u_captured : option ascii;
  u_enPassant : jsnum;
  u_castling : Castling;
  u_halfmove : jsnum;
  u_fullmove : jsnum
}.

Definition flag_eqb (a b : Flag) : bool :=
  match a, b with
  | FDouble, FDouble | FEnpassant, FEnpassant
  | FPromotion, FPromotion | FCastle, FCastle => true
  | _, _ => false
  end.

(** [move.flag === f]. *)
Definition has_flag (m : Move) (f : Flag) : bool :=
  match flag m with
  | Some g => flag_eqb g f
  | None => false
  end.

Definition side_eqb (a b : CastleSide) : bool :=
  match a, b with
  | CastleK, CastleK | CastleQ, CastleQ
  | Castlek, Castlek | Castleq, Castleq => true
  | _, _ => false
  end.

(** [move.castle === c]. *)
Definition has_castle (m : Move) (c : CastleSide) : bool :=
  match castle m with
  | Some d => side_eqb d c
  | None => false
  end.

(* ===================================================================== *)
(** ** StateCodec: [cloneState], [fenToState], [generateFEN] *)
(* ===================================================================== *)

Definition cloneState (state : State) : State :=
  {| board := slice (board state);
     whiteToMove := whiteToMove state;
     castling := {| cK := cK (castling state); cQ := cQ (castling state);
                    ck := ck (castling state); cq := cq (castling state) |};
     enPassant := enPassant state;
     halfmove := halfmove state;
     fullmove := fullmove state |}.

Definition FILES : list ascii :=
  ["a"; "b"; "c"; "d"; "e"; "f"; "g"; "h"]%char.

(** [FILES.indexOf(c)], [-1] when absent. *)
Fixpoint index_of (c : ascii) (l : list ascii) (i : Z) : Z :=
  match l with
  | [] => -1
  | x :: r => if ascii_eqb x c then i else index_of c r (i + 1)
  end.

(** [indexToSquare(idx)] as it is used, converted to text.  When
    [FILES[file]] is [undefined] the sum [undefined + (rank + 1)] is the
    number [NaN], which prints as "NaN". *)
Definition indexToSquare (idx : jsnum) : string :=
  match idx with
  | Num i =>
      let file := Z.rem i 8 in
      let rank := i / 8 in
      if (0 <=? file) && (file <=? 7)
      then match FILES !! Z.to_nat file with
           | Some c => String c (toString (Num (rank + 1)))
           | None => "NaN"
           end
      else "NaN"
  | NaN => "NaN"
  end.

Definition char_at (s : string) (n : nat) : option ascii := String.get n s.

(** [squareToIndex(square)]. *)
Definition squareToIndex (square : string) : jsnum :=
  let file :=
    match char_at square 0 with
    | Some c => index_of c FILES 0
    | None => -1
    end in
  let rank :=
    sub (parseInt_opt (option_map (fun c => String c EmptyString) (char_at square 1)))
        (Num 1) in
  add (mul rank (Num 8)) (Num file).

(** The square constants the engine names, e.g. [squareToIndex('e1')]. *)
Definition a1 : Z := 0.
Definition b1 : Z := 1.
Definition c1 : Z := 2.
Definition d1 : Z := 3.
Definition e1 : Z := 4.
Definition f1 : Z := 5.
Definition g1 : Z := 6.
Definition h1 : Z := 7.
Definition a8 : Z := 56.
Definition b8 : Z := 57.
Definition c8 : Z := 58.
Definition d8 : Z := 59.
Definition e8 : Z := 60.
Definition f8 : Z := 61.
Definition g8 : Z := 62.
Definition h8 : Z := 63.

(** [text.split(sep)] for a one-character separator: never empty. *)
Fixpoint split_aux (sep : ascii) (s : string) (cur : string -> string) : list string :=
  match s with
  | EmptyString => [cur EmptyString]
  | String c r =>
      if ascii_eqb c sep then cur EmptyString :: split_aux sep r (fun x => x)
      else split_aux sep r (fun x => cur (String c x))
  end.

Definition split (sep : ascii) (s : string) : list string :=
  split_aux sep s (fun x => x).

(** One rank of the placement field: the body of the inner [for ... of]
    loop, threading [file] and the board. *)
Fixpoint parse_rank (r : Z) (s : string) (file : jsnum) (b : Board) : Board :=
  match s with
  | EmptyString => b
  | String char rest =>
      if negb (isNaN_char char)
      then parse_rank r rest (add file (parseInt (String char EmptyString))) b
      else
        let idx := add (Num (r * 8)) file in
        parse_rank r rest (add file (Num 1)) (bset_num b idx (Some char))
  end.

(** The outer loop [for (r = 0; r < 8; r++)], iterating on [ranks[7 - r]];
    an absent rank makes [for ... of] throw. *)
Fixpoint parse_ranks (ranks : list string) (n : nat) (r : Z) (b : Board) : option Board :=
  match n with
  | O => Some b
  | S n' =>
      match ranks !! Z.to_nat (7 - r) with
      | Some s => parse_ranks ranks n' (r + 1) (parse_rank r s (Num 0) b)
      | None => None
      end
  end.

(** [for (const c of castlingPart) if (castling[c] !== undefined) castling[c] = true]. *)
Fixpoint parse_castling (s : string) (c : Castling) : Castling :=
  match s with
  | EmptyString => c
  | String x rest =>
      parse_castling rest
        (if ascii_eqb x "K" then {| cK := true; cQ := cQ c; ck := ck c; cq := cq c |}
         else if ascii_eqb x "Q" then {| cK := cK c; cQ := true; ck := ck c; cq := cq c |}
         else if ascii_eqb x "k" then {| cK := cK c; cQ := cQ c; ck := true; cq := cq c |}
         else if ascii_eqb x "q" then {| cK := cK c; cQ := cQ c; ck := ck c; cq := true |}
         else c)
  end.

(** [x || dflt] for a text that may be [undefined]: the empty text is falsy. *)
Definition or_default (x : option string) (dflt : string) : string :=
  match x with
  | Some EmptyString | None => dflt
  | Some s => s
  end.

Definition fenToState (fen : string) : option State :=
  let parts := split " " fen in
  let boardPart := parts !! 0%nat in
  let turn := parts !! 1%nat in
  let castlingPart := parts !! 2%nat in
  let epPart := parts !! 3%nat in
  let halfmove := parts !! 4%nat in
  let fullmove := parts !! 5%nat in
  match boardPart with
  | None => None                       (* unreachable: split is never empty *)
  | Some bp =>
      match parse_ranks (split "/" bp) 8 0 (filled_null 64) with
      | None => None
      | Some board =>
          let castling0 := {| cK := false; cQ := false; ck := false; cq := false |} in
          let castling :=
            match castlingPart with
            | Some cp =>
                if negb (String.eqb cp "") && negb (String.eqb cp "-")
                then parse_castling cp castling0
                else castling0
            | None => castling0
            end in
          match epPart with
          | None => None               (* squareToIndex(undefined) throws *)
          | Some ep =>
              let enPassant := if String.eqb ep "-" then Num (-1) else squareToIndex ep in
              Some {| board := board;
                      whiteToMove := match turn with
                                     | Some t => String.eqb t "w"
                                     | None => false
                                     end;
                      castling := castling;
                      enPassant := enPassant;
                      halfmove := parseInt (or_default halfmove "0");
                      fullmove := parseInt (or_default fullmove "1") |}
          end
      end
  end.

(** One rank of [generateFEN]: the inner loop over the files. *)
Fixpoint fen_rank (b : Board) (r : Z) (n : nat) (f : Z) (empty : Z) (acc : string) : string :=
  match n with
  | O => if 0 <? empty then acc +:+ toString (Num empty) else acc
  | S n' =>
      match bpiece b (r * 8 + f) with
      | Some p =>
          let acc1 := if 0 <? empty then acc +:+ toString (Num empty) else acc in
          fen_rank b r n' (f + 1) 0 (acc1 +:+ String p EmptyString)
      | None => fen_rank b r n' (f + 1) (empty + 1) acc
      end
  end.

(** The outer loop [for (r = 7; r >= 0; r--)]. *)
Fixpoint fen_ranks (b : Board) (n : nat) (r : Z) (acc : string) : string :=
  match n with
  | O => acc
  | S n' =>
      let acc1 := fen_rank b r 8 0 0 acc in
      let acc2 := if negb (r =? 0) then acc1 +:+ "/" else acc1 in
      fen_ranks b n' (r - 1) acc2
  end.

Definition castlingRights (c : Castling) : string :=
  let s := ((if cK c then "K" else "") +:+ (if cQ c then "Q" else "")
            +:+ (if ck c then "k" else "") +:+ (if cq c then "q" else ""))%string in
  if String.eqb s "" then "-" else s.

Definition generateFEN (state : State) : string :=
  let boardPart := fen_ranks (board state) 8 7 "" in
  let turn := if whiteToMove state then "w" else "b" in
  let ep := if jsnum_eqb (enPassant state) (Num (-1)) then "-"
            else indexToSquare (enPassant state) in
  (boardPart +:+ " " +:+ turn +:+ " " +:+ castlingRights (castling state) +:+ " " +:+ ep
   +:+ " " +:+ toString (halfmove state) +:+ " " +:+ toString (fullmove state))%string.

(* ===================================================================== *)
(** ** AttackDetector *)
(* ===================================================================== *)

Inductive Color : Type := White | Black.   (* the texts ['w'] and ['b'] *)

Definition color_eqb (a b : Color) : bool :=
  match a, b with
  | White, White | Black, Black => true
  | _, _ => false
  end.

(** [pieceColor(piece)] for a truthy [piece]. *)
Definition pieceColor (p : ascii) : Color :=
  if ascii_eqb p (toUpperCase p) then White else Black.

Definition inBounds (idx : Z) : bool := (0 <=? idx) && (idx <? 64).

Definition KNIGHT_DELTAS : list Z := [-17; -15; -10; -6; 6; 10; 15; 17].
Definition BISHOP_DELTAS : list Z := [-9; -7; 7; 9].
Definition ROOK_DELTAS : list Z := [-8; -1; 1; 8].
Definition QUEEN_DELTAS : list Z := BISHOP_DELTAS ++ ROOK_DELTAS.

(** [state.board[i] === c] *)
Definition slot_is (b : Board) (i : Z) (c : ascii) : bool :=
  match bget b i with
  | Some (Some p) => ascii_eqb p c
  | _ => false
  end.

Definition on_board (f r : Z) : bool :=
  (0 <=? f) && (f <? 8) && (0 <=? r) && (r <? 8).

(** The [while] loop of a ray in [isSquareAttacked]: walk from [(f, r)] by
    [(stepFile, stepRank)] to the first occupied square.  A ray leaves the
    board within eight steps, which bounds the recursion. *)
Fixpoint attack_ray (fuel : nat) (b : Board) (f r stepFile stepRank : Z)
    (a1 a2 : ascii) : bool :=
  match fuel with
  | O => false
  | S k =>
      if on_board f r then
        match bpiece b (r * 8 + f) with
        | Some p => ascii_eqb p a1 || ascii_eqb p a2
        | None => attack_ray k b (f + stepFile) (r + stepRank) stepFile stepRank a1 a2
        end
      else false
  end.

Definition isSquareAttacked (state : State) (squareIdx : Z) (byWhite : bool) : bool :=
  let b := board state in
  let dir := if byWhite then 1 else -1 in
  let file := Z.rem squareIdx 8 in
  let rank := squareIdx / 8 in
  (* pawns *)
  existsb (fun df =>
    let tFile := file + df in
    let tRank := rank - dir in
    if (tFile <? 0) || (7 <? tFile) || (tRank <? 0) || (7 <? tRank) then false
    else
      let target := tRank * 8 + tFile in
      if byWhite then slot_is b target "P" else slot_is b target "p") [-1; 1]
  (* knights *)
  || existsb (fun delta =>
    let target := squareIdx + delta in
    if negb (inBounds target) then false
    else
      let fileDiff := Z.abs (Z.rem target 8 - file) in
      if 2 <? fileDiff then false
      else if byWhite then slot_is b target "N" else slot_is b target "n")
    KNIGHT_DELTAS
  (* bishops/queens *)
  || existsb (fun delta =>
    let stepFile := if (delta =? 9) || (delta =? -7) then 1 else -1 in
    let stepRank := if 0 <? delta then 1 else -1 in
    if byWhite
    then attack_ray 8 b (file + stepFile) (rank + stepRank) stepFile stepRank "B" "Q"
    else attack_ray 8 b (file + stepFile) (rank + stepRank) stepFile stepRank "b" "q")
    BISHOP_DELTAS
  (* rooks/queens *)
  || existsb (fun delta =>
    let stepFile := if delta =? 1 then 1 else if delta =? -1 then -1 else 0 in
    let stepRank := if delta =? 8 then 1 else if delta =? -8 then -1 else 0 in
    if byWhite
    then attack_ray 8 b (file + stepFile) (rank + stepRank) stepFile stepRank "R" "Q"
    else attack_ray 8 b (file + stepFile) (rank + stepRank) stepFile stepRank "r" "q")
    ROOK_DELTAS
  (* kings *)
  || existsb (fun dr =>
       existsb (fun df =>
         if (dr =? 0) && (df =? 0) then false
         else
           let tFile := file + df in
           let tRank := rank + dr in
           if (tFile <? 0) || (7 <? tFile) || (tRank <? 0) || (7 <? tRank) then false
           else
             let target := tRank * 8 + tFile in
             if byWhite then slot_is b target "K" else slot_is b target "k")
         [-1; 0; 1]) [-1; 0; 1].

(** The indices [0 .. 63], in the order of [for (let i = 0; i < 64; i++)]. *)
Definition squares : list Z := map Z.of_nat (seq 0 64).

(** The loop of [findKing] over the remaining indices. *)
Fixpoint find_first (b : Board) (target : ascii) (l : list Z) : Z :=
  match l with
  | [] => -1
  | i :: rest => if slot_is b i target then i else find_first b target rest
  end.

Definition findKing (state : State) (white : bool) : Z :=
  let target := if white then "K"%char else "k"%char in
  find_first (board state) target squares.

(* ===================================================================== *)
(** ** MoveGenerator *)
(* ===================================================================== *)

(** [!state.board[i]] *)
Definition empty_at (b : Board) (i : Z) : bool :=
  match bpiece b i with
  | Some _ => false
  | None => true
  end.

(** A move literal without the optional [promotion], [flag], [castle]. *)
Definition plain_move (from to : Z) (piece : ascii) (capture : option ascii) : Move :=
  {| from := from; to := to; piece := piece; capture := capture;
     promotion := None; flag := None; castle := None |}.

(** [addPawnMove(from, to, piece, moves, promotion, capture)]: the moves it
    pushes, in order. *)
Definition addPawnMove (from to : Z) (piece : ascii) (promotion : bool)
    (capture : option ascii) : list Move :=
  if promotion then
    map (fun promo =>
           let promoPiece := if ascii_eqb piece "P" then toUpperCase promo else promo in
           {| from := from; to := to; piece := piece; capture := capture;
              promotion := Some promoPiece; flag := Some FPromotion; castle := None |})
        ["q"; "r"; "b"; "n"]%char
  else [plain_move from to piece capture].

Definition generatePawnMoves (state : State) (idx : Z) (piece : ascii) : list Move :=
  let b := board state in
  let white := ascii_eqb piece "P" in
  let dir := if white then 8 else -8 in
  let startRank := if white then 1 else 6 in
  let promotionRank := if white then 7 else 0 in
  let rank := idx / 8 in
  let forward := idx + dir in
  (if inBounds forward && empty_at b forward then
     addPawnMove idx forward piece (rank + 1 =? promotionRank) None
     ++ (let doubleForward := idx + dir * 2 in
         if (rank =? startRank) && empty_at b doubleForward
         then [{| from := idx; to := doubleForward; piece := piece; capture := None;
                  promotion := None; flag := Some FDouble; castle := None |}]
         else [])
   else [])
  ++ flat_map (fun df =>
       let file := Z.rem idx 8 + df in
       if (file <? 0) || (7 <? file) then []
       else
         let target := idx + dir + df in
         let targetPiece := bpiece b target in
         (match targetPiece with
          | Some tp =>
              if negb (color_eqb (pieceColor tp) (pieceColor piece))
              then addPawnMove idx target piece (rank + 1 =? promotionRank) (Some tp)
              else []
          | None => []
          end)
         ++ (if jsnum_eqb (Num target) (enPassant state)
             then [{| from := idx; to := target; piece := piece;
                      capture := Some (if white then "p" else "P")%char;
                      promotion := None; flag := Some FEnpassant; castle := None |}]
             else [])) [-1; 1].

(** [!targetPiece || pieceColor(targetPiece) !== pieceColor(piece)] *)
Definition free_or_enemy (targetPiece : option ascii) (piece : ascii) : bool :=
  match targetPiece with
  | Some tp => negb (color_eqb (pieceColor tp) (pieceColor piece))
  | None => true
  end.

Definition generateJumpMoves (state : State) (idx : Z) (piece : ascii)
    (deltas : list Z) : list Move :=
  flat_map (fun delta =>
    let target := idx + delta in
    if negb (inBounds target) then []
    else
      let fileDiff := Z.abs (Z.rem target 8 - Z.rem idx 8) in
      if 2 <? fileDiff then []
      else
        let targetPiece := bpiece (board state) target in
        if free_or_enemy targetPiece piece
        then [plain_move idx target piece targetPiece]
        else []) deltas.

(** The [while] loop of [generateSlideMoves] along one direction. *)
Fixpoint slide_ray (fuel : nat) (b : Board) (idx : Z) (piece : ascii)
    (f r stepFile stepRank : Z) : list Move :=
  match fuel with
  | O => []
  | S k =>
      if on_board f r then
        let target := r * 8 + f in
        match bpiece b target with
        | None =>
            plain_move idx target piece None
            :: slide_ray k b idx piece (f + stepFile) (r + stepRank) stepFile stepRank
        | Some tp =>
            if negb (color_eqb (pieceColor tp) (pieceColor piece))
            then [plain_move idx target piece (Some tp)]
            else []
        end
      else []
  end.

Definition generateSlideMoves (state : State) (idx : Z) (piece : ascii)
    (deltas : list Z) : list Move :=
  let startFile := Z.rem idx 8 in
  let startRank := idx / 8 in
  flat_map (fun delta =>
    let stepFile :=
      if delta =? 1 then 1 else if delta =? -1 then -1
      else if (delta =? 9) || (delta =? -7) then 1
      else if (delta =? -9) || (delta =? 7) then -1 else 0 in
    let stepRank :=
      if (delta =? 8) || (delta =? 9) || (delta =? 7) then 1
      else if (delta =? -8) || (delta =? -9) || (delta =? -7) then -1 else 0 in
    slide_ray 8 (board state) idx piece (startFile + stepFile) (startRank + stepRank)
      stepFile stepRank) deltas.

Definition castle_move (idx to : Z) (piece : ascii) (side : CastleSide) : Move :=
  {| from := idx; to := to; piece := piece; capture := None;
     promotion := None; flag := Some FCastle; castle := Some side |}.

Definition generateKingMoves (state : State) (idx : Z) (piece : ascii) : list Move :=
  let b := board state in
  flat_map (fun dr =>
    flat_map (fun df =>
      if (dr =? 0) && (df =? 0) then []
      else
        let file := Z.rem idx 8 + df in
        let rank := idx / 8 + dr in
        if (file <? 0) || (7 <? file) || (rank <? 0) || (7 <? rank) then []
        else
          let target := rank * 8 + file in
          let targetPiece := bpiece b target in
          if free_or_enemy targetPiece piece
          then [plain_move idx target piece targetPiece]
          else []) [-1; 0; 1]) [-1; 0; 1]
  (* castling *)
  ++ (let white := ascii_eqb piece "K" in
      (if white && (idx =? e1) then
         (if cK (castling state) && empty_at b f1 && empty_at b g1 then
            if negb (isSquareAttacked state idx false)
               && negb (isSquareAttacked state f1 false)
               && negb (isSquareAttacked state g1 false)
            then [castle_move idx g1 piece CastleK] else []
          else [])
         ++ (if cQ (castling state) && empty_at b d1 && empty_at b c1 && empty_at b b1 then
               if negb (isSquareAttacked state idx false)
                  && negb (isSquareAttacked state d1 false)
                  && negb (isSquareAttacked state c1 false)
               then [castle_move idx c1 piece CastleQ] else []
             else [])
       else [])
      ++ (if negb white && (idx =? e8) then
            (if ck (castling state) && empty_at b f8 && empty_at b g8 then
               if negb (isSquareAttacked state idx true)
                  && negb (isSquareAttacked state f8 true)
                  && negb (isSquareAttacked state g8 true)
               then [castle_move idx g8 piece Castlek] else []
             else [])
            ++ (if cq (castling state) && empty_at b d8 && empty_at b c8 && empty_at b b8 then
                  if negb (isSquareAttacked state idx true)
                     && negb (isSquareAttacked state d8 true)
                     && negb (isSquareAttacked state c8 true)
                  then [castle_move idx c8 piece Castleq] else []
                else [])
          else [])).

(* ===================================================================== *)
(** ** MoveApplier: [makeMove], [undoMove] *)
(* ===================================================================== *)

(** The rook relocation of a castle-tagged move. *)
Definition castle_rook (b : Board) (m : Move) : Board :=
  let b := if has_castle m CastleK then bset (bset b f1 (Some "R"%char)) h1 None else b in
  let b := if has_castle m CastleQ then bset (bset b d1 (Some "R"%char)) a1 None else b in
  let b := if has_castle m Castlek then bset (bset b f8 (Some "r"%char)) h8 None else b in
  let b := if has_castle m Castleq then bset (bset b d8 (Some "r"%char)) a8 None else b in
  b.

(** The castling-rights updates of [makeMove]. *)
Definition update_castling (c : Castling) (m : Move) : Castling :=
  let c := if ascii_eqb (piece m) "K"
           then {| cK := false; cQ := false; ck := ck c; cq := cq c |} else c in
  let c := if ascii_eqb (piece m) "k"
           then {| cK := cK c; cQ := cQ c; ck := false; cq := false |} else c in
  let c := if (from m =? a1) || (to m =? a1)
           then {| cK := cK c; cQ := false; ck := ck c; cq := cq c |} else c in
  let c := if (from m =? h1) || (to m =? h1)
           then {| cK := false; cQ := cQ c; ck := ck c; cq := cq c |} else c in
  let c := if (from m =? a8) || (to m =? a8)
           then {| cK := cK c; cQ := cQ c; ck := ck c; cq := false |} else c in
  let c := if (from m =? h8) || (to m =? h8)
           then {| cK := cK c; cQ := cQ c; ck := false; cq := cq c |} else c in
  c.

(** [movingPiece]: the promotion piece when there is one. *)
Definition movingPiece (m : Move) : ascii :=
  match promotion m with
  | Some p => p
  | None => piece m
  end.

(** [makeMove(state, move)]: the mutated state and the undo record. *)
Definition makeMove (state : State) (move : Move) : State * Undo :=
  let undo :=
    {| u_move := move;
       u_captured := capture move;
       u_enPassant := enPassant state;
       u_castling := castling state;
       u_halfmove := halfmove state;
       u_fullmove := fullmove state |} in
  let wtm := whiteToMove state in
  let enPassant1 := Num (-1) in
  let halfmove1 := add (halfmove state) (Num 1) in
  let b1 :=
    if has_flag move FEnpassant
    then bset (board state) (if wtm then to move - 8 else to move + 8) None
    else board state in
  let b2 := bset b1 (to move) (Some (movingPiece move)) in
  let b3 := bset b2 (from move) None in
  let halfmove2 :=
    if ascii_eqb (toLowerCase (movingPiece move)) "p" then Num 0 else halfmove1 in
  let halfmove3 :=
    match capture move with
    | Some _ => Num 0
    | None => halfmove2
    end in
  let enPassant2 :=
    if has_flag move FDouble
    then Num (if wtm then to move - 8 else to move + 8)
    else enPassant1 in
  let castling1 := update_castling (castling state) move in
  let b4 := if has_flag move FCastle then castle_rook b3 move else b3 in
  let wtm1 := negb wtm in
  let fullmove1 := if negb wtm1 then add (fullmove state) (Num 1) else fullmove state in
  ({| board := b4; whiteToMove := wtm1; castling := castling1;
      enPassant := enPassant2; halfmove := halfmove3; fullmove := fullmove1 |},
   undo).

(** The rook relocation undone. *)
Definition uncastle_rook (b : Board) (m : Move) : Board :=
  let b := if has_castle m CastleK then bset (bset b h1 (Some "R"%char)) f1 None else b in
  let b := if has_castle m CastleQ then bset (bset b a1 (Some "R"%char)) d1 None else b in
  let b := if has_castle m Castlek then bset (bset b h8 (Some "r"%char)) f8 None else b in
  let b := if has_castle m Castleq then bset (bset b a8 (Some "r"%char)) d8 None else b in
  b.

Definition undoMove (state : State) (undo : Undo) : State :=
  let move := u_move undo in
  let wtm := negb (whiteToMove state) in
  let fullmove1 := if wtm then sub (fullmove state) (Num 1) else fullmove state in
  let b1 := bset (board state) (from move) (Some (piece move)) in
  let b2 := bset b1 (to move) None in
  let b3 :=
    match promotion move with
    | Some _ => bset b2 (from move) (Some (piece move))
    | None => b2
    end in
  let b4 :=
    if has_flag move FEnpassant
    then bset b3 (if wtm then to move + 8 else to move - 8) (u_captured undo)
    else if has_flag move FCastle then uncastle_rook b3 move
    else b3 in
  let b5 :=
    match capture move with
    | Some _ => if negb (has_flag move FEnpassant)
                then bset b4 (to move) (u_captured undo) else b4
    | None => b4
    end in
  {| board := b5; whiteToMove := wtm; castling := u_castling undo;
     enPassant := u_enPassant undo; halfmove := u_halfmove undo;
     fullmove := fullmove1 |}.

(* ===================================================================== *)
(** ** [generateMoves]: candidates, then the legality filter *)
(* ===================================================================== *)

(** The moves pushed for the piece on square [i]. *)
Definition piece_moves (state : State) (side : Color) (i : Z) : list Move :=
  match bpiece (board state) i with
  | None => []
  | Some piece =>
      if negb (color_eqb (pieceColor piece) side) then []
      else
        let kind := toLowerCase piece in
        if ascii_eqb kind "p" then generatePawnMoves state i piece
        else if ascii_eqb kind "n" then generateJumpMoves state i piece KNIGHT_DELTAS
        else if ascii_eqb kind "b" then generateSlideMoves state i piece BISHOP_DELTAS
        else if ascii_eqb kind "r" then generateSlideMoves state i piece ROOK_DELTAS
        else if ascii_eqb kind "q" then generateSlideMoves state i piece QUEEN_DELTAS
        else if ascii_eqb kind "k" then generateKingMoves state i piece
        else []
  end.

Definition side_of (state : State) : Color :=
  if whiteToMove state then White else Black.

(** The candidate list [moves] built by the first loop of [generateMoves]. *)
Definition candidateMoves (state : State) : list Move :=
  flat_map (piece_moves state (side_of state)) squares.

(** The filter loop: each candidate is made, tested and unmade on the one
    state object, which is threaded through. *)
Fixpoint filter_loop (side : Color) (moves : list Move) (state : State)
    : list Move * State :=
  match moves with
  | [] => ([], state)
  | move :: rest =>
      let '(s1, undo) := makeMove state move in
      let kingIdx := findKing s1 (color_eqb side White) in
      let inCheck := isSquareAttacked s1 kingIdx (negb (whiteToMove s1)) in
      let s2 := undoMove s1 undo in
      let '(legal, s3) := filter_loop side rest s2 in
      (if negb inCheck then move :: legal else legal, s3)
  end.

(** [generateMoves(state)]: the returned list and the state object as the
    call leaves it. *)
Definition generateMoves (state : State) : list Move * State :=
  filter_loop (side_of state) (candidateMoves state) state.

(* ===================================================================== *)
(** ** Evaluator *)
(* ===================================================================== *)

(** [PIECE_VALUES[kind] || 0] *)
Definition PIECE_VALUES (kind : ascii) : Z :=
  if ascii_eqb kind "p" then 100
  else if ascii_eqb kind "n" then 320
  else if ascii_eqb kind "b" then 330
  else if ascii_eqb kind "r" then 500
  else if ascii_eqb kind "q" then 900
  else if ascii_eqb kind "k" then 20000
  else 0.

Definition positionalBonus (piece : ascii) (idx : Z) : Z :=
  let rank := idx / 8 in
  let file := Z.rem idx 8 in
  let kind := toLowerCase piece in
  let bonus := 0 in
  let bonus :=
    if ascii_eqb kind "p" then
      let bonus := bonus + (if ascii_eqb piece "P" then rank * 2 else (7 - rank) * 2) in
      if (file =? 3) || (file =? 4) then bonus + 2 else bonus
    else bonus in
  let bonus :=
    if ascii_eqb kind "n" then
      if (2 <=? file) && (file <=? 5) && (2 <=? rank) && (rank <=? 5)
      then bonus + 10 else bonus
    else bonus in
  let bonus :=
    if ascii_eqb kind "b" then
      if Z.rem (file + rank) 2 =? 0 then bonus + 1 else bonus
    else bonus in
  bonus.

Definition evaluate (state : State) : Z :=
  fold_left (fun score i =>
    match bpiece (board state) i with
    | None => score
    | Some piece =>
        let value := PIECE_VALUES (toLowerCase piece) in
        let positional := positionalBonus piece i in
        score + (if ascii_eqb piece (toUpperCase piece) then 1 else -1)
                * (value + positional)
    end) squares 0.

(* ===================================================================== *)
(** ** SearchEngine *)
(* ===================================================================== *)

(** Scores and window bounds: integers with the two infinities. *)
Inductive ext : Type := MInf | Fin (z : Z) | PInf.

Definition ext_ltb (a b : ext) : bool :=
  match a, b with
  | MInf, MInf => false
  | MInf, _ => true
  | Fin _, MInf => false
  | Fin x, Fin y => x <? y
  | Fin _, PInf => true
  | PInf, _ => false
  end.

Definition ext_leb (a b : ext) : bool := negb (ext_ltb b a).
Definition ext_max (a b : ext) : ext := if ext_ltb a b then b else a.
Definition ext_min (a b : ext) : ext := if ext_ltb b a then b else a.

(** What [search] returns: [{score}] or [{score, move}]. *)
Record SearchResult : Type := mkResult {
  score : ext;
  move : option Move
}.

Section SearchLoops.

(** The recursive call [search(state, depth - 1, alpha, beta)]; [None]
    when the step budget of the model is exhausted. *)
Variable rec : State -> ext -> ext -> option (SearchResult * State).

(** White's loop over the moves. *)
Fixpoint max_loop (moves : list Move) (state : State) (alpha beta : ext)
    (bestScore : ext) (bestMove : option Move) : option (SearchResult * State) :=
  match moves with
  | [] => Some ({| score := bestScore; move := bestMove |}, state)
  | mv :: rest =>
      let '(s1, undo) := makeMove state mv in
      match rec s1 alpha beta with
      | None => None
      | Some (res, s1') =>
          let s2 := undoMove s1' undo in
          let better := ext_ltb bestScore (score res) in
          let bestScore' := if better then score res else bestScore in
          let bestMove' := if better then Some mv else bestMove in
          let alpha' := ext_max alpha (score res) in
          if ext_leb beta alpha'
          then Some ({| score := bestScore'; move := bestMove' |}, s2)
          else max_loop rest s2 alpha' beta bestScore' bestMove'
      end
  end.

(** Black's loop over the moves. *)
Fixpoint min_loop (moves : list Move) (state : State) (alpha beta : ext)
    (bestScore : ext) (bestMove : option Move) : option (SearchResult * State) :=
  match moves with
  | [] => Some ({| score := bestScore; move := bestMove |}, state)
  | mv :: rest =>
      let '(s1, undo) := makeMove state mv in
      match rec s1 alpha beta with
      | None => None
      | Some (res, s1') =>
          let s2 := undoMove s1' undo in
          let better := ext_ltb (score res) bestScore in
          let bestScore' := if better then score res else bestScore in
          let bestMove' := if better then Some mv else bestMove in
          let beta' := ext_min beta (score res) in
          if ext_leb beta' alpha
          then Some ({| score := bestScore'; move := bestMove' |}, s2)
          else min_loop rest s2 alpha beta' bestScore' bestMove'
      end
  end.

End SearchLoops.

(** [search(state, depth, alpha, beta)] for an integer [depth].  The call
    recurses on [depth - 1] until [depth === 0]; [fuel] bounds the nesting
    of calls, and [None] means that bound was reached (for a negative
    depth the JavaScript recursion has no base case). *)
Fixpoint search (fuel : nat) (state : State) (depth : Z) (alpha beta : ext)
    : option (SearchResult * State) :=
  match fuel with
  | O => None
  | S k =>
      if depth =? 0 then Some ({| score := Fin (evaluate state); move := None |}, state)
      else
        let '(moves, st) := generateMoves state in
        match moves with
        | [] =>
            let kingIdx := findKing st (whiteToMove st) in
            let inCheck := isSquareAttacked st kingIdx (negb (whiteToMove st)) in
            if inCheck
            then Some ({| score := Fin (if whiteToMove st then -100000 + depth
                                        else 100000 - depth);
                          move := None |}, st)
            else Some ({| score := Fin 0; move := None |}, st)
        | _ =>
            if whiteToMove st
            then max_loop (fun s a b => search k s (depth - 1) a b)
                   moves st alpha beta MInf None
            else min_loop (fun s a b => search k s (depth - 1) a b)
                   moves st alpha beta PInf None
        end
  end.

(* ===================================================================== *)
(** ** EngineFacade: [analyzePosition], [moveToAlgebraic], [ChessEngine] *)
(* ===================================================================== *)

(** The options object: [depth] is absent or a number. *)
Record Options : Type := mkOptions { opt_depth : option jsnum }.

(** [options.depth || dflt] *)
Definition depth_or (o : Options) (dflt : jsnum) : jsnum :=
  match opt_depth o with
  | Some d => if truthy d then d else dflt
  | None => dflt
  end.

Definition moveToAlgebraic (m : Move) : string :=
  let from := indexToSquare (Num (from m)) in
  let to := indexToSquare (Num (to m)) in
  let promotion :=
    match promotion m with
    | Some p => String "=" (String (toUpperCase p) EmptyString)
    | None => EmptyString
    end in
  from +:+ to +:+ promotion.

(** The quotient [score / 100]: an exact rational here, a double there. *)
Inductive jsquot : Type := QInf (negative : bool) | QFin (q : Q).

Definition div100 (s : ext) : jsquot :=
  match s with
  | MInf => QInf true
  | PInf => QInf false
  | Fin z => QFin (z # 100)
  end.

Record Analysis : Type := mkAnalysis {
  bestMove : option string;
  evaluation : jsquot;
  depth : jsnum;
  moveObject : option Move
}.

(** How a call ends: it returns, it throws, or the model's step bound was
    reached. *)
Inductive outcome (A : Type) : Type :=
| Returns (a : A)
| Throws
| OutOfFuel.
Arguments Returns {A} a.
Arguments Throws {A}.
Arguments OutOfFuel {A}.

(** [search] as the facade calls it: the depth is a truthy number. *)
Definition run_search (fuel : nat) (state : State) (d : jsnum)
    : option (SearchResult * State) :=
  match d with
  | Num z => search fuel state z MInf PInf
  | NaN => None            (* [NaN === 0] is false at every level *)
  end.

Definition analyzePosition (fuel : nat) (fen : string) (options : Options)
    : outcome Analysis :=
  let depth := depth_or options (Num 3) in
  match fenToState fen with
  | None => Throws
  | Some state =>
      let cloned := cloneState state in
      match run_search fuel cloned depth with
      | None => OutOfFuel
      | Some (result, _) =>
          let bestMove := move result in
          Returns {| bestMove := option_map moveToAlgebraic bestMove;
                     evaluation := div100 (score result);
                     depth := depth;
                     moveObject := bestMove |}
      end
  end.

Module ChessEngine.

(** An instance holds [this.depth]. *)
Record t : Type := mk { this_depth : jsnum }.

Definition constructor (options : Options) : t :=
  {| this_depth := depth_or options (Num 3) |}.

Definition analyzePosition (this : t) (fuel : nat) (fen : string)
    (options : Options) : outcome Analysis :=
  let depth := depth_or options (this_depth this) in
  match analyzePosition fuel fen {| opt_depth := Some depth |} with
  | Returns (mkAnalysis bestMove evaluation depth moveObject) =>
      Returns {| bestMove := bestMove;
                 evaluation := evaluation;
                 depth := depth;
                 moveObject := moveObject |}
  | Throws => Throws
  | OutOfFuel => OutOfFuel
  end.

End ChessEngine.

(* ===================================================================== *)
(** ** Positions used in the statements below *)
(* ===================================================================== *)

(** The position a text parses to; a text that makes the parser throw
    yields the empty placeholder, which none of the texts below does. *)
Definition position_of (fen : string) : State :=
  match fenToState fen with
  | Some p => p
  | None => {| board := filled_null 0; whiteToMove := false;
               castling := {| cK := false; cQ := false; ck := false; cq := false |};
               enPassant := NaN; halfmove := NaN; fullmove := NaN |}
  end.

Definition start_fen : string :=
  "rnbqkbnr/pppppppp/8/8/8/8/PPPPPPPP/RNBQKBNR w KQkq - 0 1".

(** Black to move, king on h8, no legal move in chess, king not attacked. *)
Definition stalemate_fen : string := "7k/5Q2/6K1/8/8/8/8/8 b - - 0 1".

(** Black to move and checkmated by the knight on g6. *)
Definition mate_fen : string := "6rk/6br/6N1/8/8/8/8/K7 b - - 0 1".

(** White to move; Black has just played d7-d5, so e5xd6 en passant is on. *)
Definition enpassant_fen : string := "4k3/8/8/3pP3/8/8/8/4K3 w - d6 0 1".

(** White to move with a pawn on a7 and the halfmove clock at 5. *)
Definition promotion_fen : string := "4k3/P7/8/8/8/8/8/4K3 w - - 5 40".

(** After 1. e4: Black to move. *)
Definition after_e4_fen : string :=
  "rnbqkbnr/pppppppp/8/8/4P3/8/PPPP1PPP/RNBQKBNR b KQkq e3 0 1".

(** The property the legality filter is meant to enforce, as a test: after
    [m] is made on [p], is the mover's king attacked by the other colour? *)
Definition leaves_own_king_attacked (p : State) (m : Move) : bool :=
  let s' := fst (makeMove p m) in
  isSquareAttacked s' (findKing s' (whiteToMove p)) (negb (whiteToMove p)).

(** The state after a move is made and unmade. *)
Definition make_then_undo (p : State) (m : Move) : State :=
  let '(s, u) := makeMove p m in undoMove s u.

(** The score [search] returns, when it returns. *)
Definition score_of (r : option (SearchResult * State)) : option ext :=
  option_map (fun x => score (fst x)) r.


(** The double push e2-e4 and its reply e7-e5. *)
Definition e2e4 : Move :=
  {| from := 12; to := 28; piece := "P"; capture := None;
     promotion := None; flag := Some FDouble; castle := None |}.

Definition e7e5 : Move :=
  {| from := 52; to := 36; piece := "p"; capture := None;
     promotion := None; flag := Some FDouble; castle := None |}.

(** The promotion a7-a8=Q. *)
Definition a7a8Q : Move :=
  {| from := 48; to := 56; piece := "P"; capture := None;
     promotion := Some "Q"%char; flag := Some FPromotion; castle := None |}.

(** The capture e5xd6 en passant. *)
Definition e5d6ep : Move :=
  {| from := 36; to := 43; piece := "P"; capture := Some "p"%char;
     promotion := None; flag := Some FEnpassant; castle := None |}.


(** Whether [options.depth] is falsy: absent, [0] or [NaN]. *)
Definition falsy_depth (o : Options) : bool :=
  match opt_depth o with
  | Some d => negb (truthy d)
  | None => true
  end.

(** The first field of a position text, [fen.split(' ')[0]]. *)
Definition boardPart_of (fen : string) : string :=
  match split " " fen with
  | bp :: _ => bp
  | [] => EmptyString
  end.

(* ===================================================================== *)
(** ** Vocabulary for the codec round trip *)
(* ===================================================================== *)

(** Whether a character occurs in a text. *)
Fixpoint has_char (c : ascii) (s : string) : bool :=
  match s with
  | EmptyString => false
  | String x r => ascii_eqb x c || has_char c r
  end.

(** The en-passant targets that print as a file letter and one rank digit,
    and [-1], which prints as "-". *)
Definition ep_ok (e : jsnum) : bool :=
  match e with
  | Num i => (-1 <=? i) && (i <? 72)
  | NaN => false
  end.

(** Clock values in the range where JavaScript integers are exact. *)
Definition clock_ok (n : jsnum) : bool :=
  match n with
  | Num z => (- 2 ^ 53 <? z) && (z <? 2 ^ 53)
  | NaN => false
  end.

(** [parse_rank] with the running [file] returned as well. *)
Fixpoint parse_rank_st (r : Z) (s : string) (file : jsnum) (b : Board) : jsnum * Board :=
  match s with
  | EmptyString => (file, b)
  | String char rest =>
      if negb (isNaN_char char)
      then parse_rank_st r rest (add file (parseInt (String char EmptyString))) b
      else
        let idx := add (Num (r * 8)) file in
        parse_rank_st r rest (add file (Num 1)) (bset_num b idx (Some char))
  end.

(** The pieces of files [f .. f+n-1] of rank [r] of [b], written into
    [b1]. *)
Fixpoint write_rank (b : Board) (r : Z) (n : nat) (f : Z) (b1 : Board) : Board :=
  match n with
  | O => b1
  | S n' =>
      write_rank b r n' (f + 1)
        (match bpiece b (r * 8 + f) with
         | Some c => bset b1 (r * 8 + f) (Some c)
         | None => b1
         end)
  end.

(** The text of rank [r] as [generateFEN] prints it. *)
Definition rank_text (b : Board) (r : Z) : string := fen_rank b r 8 0 0 EmptyString.

(** The ranks [r .. r+n-1] of [b] written into [b0], lowest rank first. *)
Fixpoint write_ranks (b : Board) (n : nat) (r : Z) (b0 : Board) : Board :=
  match n with
  | O => b0
  | S n' => write_ranks b n' (r + 1) (write_rank b r 8 0 b0)
  end.

(** A board as the parser leaves it when nothing went past the 64 slots:
    length 64, no "NaN" property, a value in each of the slots 0..63 and
    nowhere else, and piece characters that the parser stores (neither a
    digit nor white space) and that the rank separator cannot be. *)
Definition board_shape (b : Board) : Prop :=
  blen b = 64
  /\ nan_cell b = None
  /\ (forall i, 0 <= i < 64 -> is_Some (cells b !! i))
  /\ (forall i, is_Some (cells b !! i) -> 0 <= i < 64)
  /\ (forall i c, cells b !! i = Some (Some c) ->
        isNaN_char c = true /\ ascii_eqb c "/" = false).

(** The en-passant field for the targets 0..71, checked on each. *)
Definition ep_field_check (i : Z) : bool :=
  let s := indexToSquare (Num i) in
  negb (has_char " " s) && negb (String.eqb s "-")
  && jsnum_eqb (squareToIndex s) (Num i).

(** What the parser guarantees of a board whatever the text: a value in
    each of the slots 0..63, no key at or past [length] or below 0, and
    only characters that are neither digits, white space nor the rank
    separator. *)
Definition parser_inv (b : Board) : Prop :=
  (forall i, 0 <= i < 64 -> is_Some (cells b !! i))
  /\ (forall i, is_Some (cells b !! i) -> 0 <= i < blen b)
  /\ (forall i c, cells b !! i = Some (Some c) ->
         isNaN_char c = true /\ ascii_eqb c "/" = false).

(** The running [file] of the parser is never negative. *)
Definition file_ok (file : jsnum) : Prop :=
  match file with
  | Num f => 0 <= f
  | NaN => True
  end.

(** A placement whose first rank runs one square past the h-file. *)
Definition overlong_fen : string := "8p/8/8/8/8/8/8/8 w - - 0 1".

(* ===================================================================== *)
(** ** The object store: which objects a call mutates *)
(* ===================================================================== *)

(** A state object holds references to its board array and its castling
    object, and its scalar fields. *)
Record StateObj : Type := mkStateObj {
  o_board : positive;
  o_whiteToMove : bool;
  o_castling : positive;
  o_enPassant : jsnum;
  o_halfmove : jsnum;
  o_fullmove : jsnum
}.

Inductive Obj : Type :=
| OBoard (b : Board)
| OCastling (c : Castling)
| OState (o : StateObj).

Abbreviation Heap := (gmap positive Obj).

(** A new object at an unused address. *)
Definition alloc (h : Heap) (o : Obj) : positive * Heap :=
  let l := fresh (dom h) in (l, <[l := o]> h).

(** The position a state object denotes: its scalars, and the contents of
    the array and the castling object it refers to. *)
Definition read_state (h : Heap) (s : positive) : option State :=
  match h !! s with
  | Some (OState o) =>
      match h !! o_board o, h !! o_castling o with
      | Some (OBoard b), Some (OCastling c) =>
          Some {| board := b; whiteToMove := o_whiteToMove o; castling := c;
                  enPassant := o_enPassant o; halfmove := o_halfmove o;
                  fullmove := o_fullmove o |}
      | _, _ => None
      end
  | _ => None
  end.

(** The state object [o] with the scalar fields of [st] assigned and the
    references [lb], [lc]. *)
Definition with_fields (lb lc : positive) (st : State) : StateObj :=
  {| o_board := lb; o_whiteToMove := whiteToMove st; o_castling := lc;
     o_enPassant := enPassant st; o_halfmove := halfmove st;
     o_fullmove := fullmove st |}.

(** A position created as new objects, as the object literal returned by
    [fenToState] is. *)
Definition new_state (h : Heap) (st : State) : positive * Heap :=
  let '(lb, h1) := alloc h (OBoard (board st)) in
  let '(lc, h2) := alloc h1 (OCastling (castling st)) in
  alloc h2 (OState (with_fields lb lc st)).

(** [cloneState(state)] on the store: [state.board.slice()] is a new
    array, [{ ...state.castling }] a new object, and the result a new
    state object referring to them. *)
Definition cloneStateH (h : Heap) (s : positive) : option (positive * Heap) :=
  match read_state h s with
  | Some st => Some (new_state h (cloneState st))
  | None => None
  end.

(** [makeMove(state, move)] on the store.  Every assignment of the body is
    to a field of [state], to an element of the array [state.board] or to
    a field of the object [state.castling]: the three objects are mutated
    in place, with the values [makeMove] computes. *)
Definition makeMoveH (h : Heap) (s : positive) (m : Move) : option (Undo * Heap) :=
  match h !! s, read_state h s with
  | Some (OState o), Some st =>
      let '(st', undo) := makeMove st m in
      let h1 := <[o_board o := OBoard (board st')]> h in
      let h2 := <[o_castling o := OCastling (castling st')]> h1 in
      let h3 := <[s := OState (with_fields (o_board o) (o_castling o) st')]> h2 in
      Some (undo, h3)
  | _, _ => None
  end.

(** [undoMove(state, undo)] on the store.  The board array is mutated in
    place; [state.castling = { ...undo.castling }] makes the state refer
    to a new castling object and leaves the old one as it was. *)
Definition undoMoveH (h : Heap) (s : positive) (u : Undo) : option Heap :=
  match h !! s, read_state h s with
  | Some (OState o), Some st =>
      let st' := undoMove st u in
      let h1 := <[o_board o := OBoard (board st')]> h in
      let '(lc, h2) := alloc h1 (OCastling (castling st')) in
      Some (<[s := OState (with_fields (o_board o) lc st')]> h2)
  | _, _ => None
  end.

(** A call applied to a state: [makeMove] with a move or [undoMove] with
    an undo record. *)
Inductive Op : Type :=
| OpMake (m : Move)
| OpUndo (u : Undo).

Definition run_op (h : Heap) (s : positive) (op : Op) : option Heap :=
  match op with
  | OpMake m => option_map snd (makeMoveH h s m)
  | OpUndo u => undoMoveH h s u
  end.

Fixpoint run_ops (h : Heap) (s : positive) (ops : list Op) : option Heap :=
  match ops with
  | [] => Some h
  | op :: rest =>
      match run_op h s op with
      | Some h' => run_ops h' s rest
      | None => None
      end
  end.

(** The same calls on a position value. *)
Definition apply_op (st : State) (op : Op) : State :=
  match op with
  | OpMake m => fst (makeMove st m)
  | OpUndo u => undoMove st u
  end.

Definition apply_ops (st : State) (ops : list Op) : State := fold_left apply_op ops st.

(** A state object whose references lead to a board array and a castling
    object. *)
Definition valid_state (h : Heap) (s : positive) (o : StateObj) : Prop :=
  h !! s = Some (OState o)
  /\ (exists b, h !! o_board o = Some (OBoard b))
  /\ (exists c, h !! o_castling o = Some (OCastling c)).

(** Two state objects that share neither themselves, their board array
    nor their castling object. *)
Definition separate (h : Heap) (s c : positive) : Prop :=
  exists os oc,
    valid_state h s os /\ valid_state h c oc
    /\ s <> c /\ o_board os <> o_board oc /\ o_castling os <> o_castling oc.

(** A store holding the parsed starting position, and the store after it
    has been cloned. *)
Definition parsed_store : positive * Heap :=
  new_state ∅ (position_of start_fen).

Definition cloned_store : positive * Heap :=
  new_state (snd parsed_store) (cloneState (position_of start_fen)).

(** A line of play: the position after the moves are made in turn. *)
Definition play (p : State) (ms : list Move) : State :=
  fold_left (fun s m => fst (makeMove s m)) ms p.

(** Every move of the line is generated as a candidate in the position in
    which it is played. *)
Fixpoint played_from (p : State) (ms : list Move) : Prop :=
  match ms with
  | [] => True
  | m :: rest => In m (candidateMoves p) /\ played_from (fst (makeMove p m)) rest
  end.

(** 1. f3 e5 2. Kf2 Qh4+, four legal moves from the starting position. *)
Definition check_line : list Move :=
  [ plain_move 13 21 "P" None;
    e7e5;
    plain_move 4 13 "K" None;
    plain_move 59 31 "q" None ].

(** The pawn move a2-a3. *)
Definition a2a3 : Move := plain_move 8 16 "P" None.

(** The squares a ray can still visit from [(f, r)] before leaving the
    board. *)
Definition ray_room (f r stepFile stepRank : Z) : Z :=
  if stepFile =? 1 then 8 - f
  else if stepFile =? -1 then f + 1
  else if stepRank =? 1 then 8 - r
  else r + 1.

(** The steps of the rays: one square along a file, a rank or a
    diagonal. *)
Definition ray_step (stepFile stepRank : Z) : Prop :=
  stepFile = 1 \/ stepFile = -1 \/ (stepFile = 0 /\ (stepRank = 1 \/ stepRank = -1)).

(** The board squares a castle-tagged move relies on: the king on its
    start square, the squares it and the rook land on empty, and the rook
    on its corner. *)
Definition castle_ready (b : Board) (m : Move) : Prop :=
  bget b (from m) = Some (Some (piece m))
  /\ bget b (to m) = Some None
  /\ match castle m with
     | Some CastleK =>
         from m = e1 /\ to m = g1 /\ bget b f1 = Some None
         /\ bget b h1 = Some (Some "R"%char)
     | Some CastleQ =>
         from m = e1 /\ to m = c1 /\ bget b d1 = Some None
         /\ bget b a1 = Some (Some "R"%char)
     | Some Castlek =>
         from m = e8 /\ to m = g8 /\ bget b f8 = Some None
         /\ bget b h8 = Some (Some "r"%char)
     | Some Castleq =>
         from m = e8 /\ to m = c8 /\ bget b d8 = Some None
         /\ bget b a8 = Some (Some "r"%char)
     | None => False
     end.

(** The test the filter loop of [generateMoves] evaluates for a candidate:
    with the move made, [isSquareAttacked(state, kingIdx, !state.whiteToMove)]. *)
Definition filter_test (p : State) (m : Move) : bool :=
  let s1 := fst (makeMove p m) in
  isSquareAttacked s1 (findKing s1 (whiteToMove p)) (negb (whiteToMove s1)).

(* ===================================================================== *)
(** ** Vocabulary for the shape of generated moves *)
(* ===================================================================== *)

(** A move without the en-passant or castle tag, generated for the piece
    [pc] on square [idx]: it leaves [idx], records as captured what stands
    on the target, lands on the board when it captures nothing, and never
    captures a piece of the mover's colour. *)
Definition plain_like (b : Board) (idx : Z) (pc : ascii) (m : Move) : Prop :=
  from m = idx /\ piece m = pc /\ castle m = None
  /\ has_flag m FEnpassant = false /\ has_flag m FCastle = false
  /\ to m <> idx
  /\ capture m = bpiece b (to m)
  /\ (capture m = None -> 0 <= to m < 64)
  /\ (forall c, capture m = Some c -> pieceColor c <> pieceColor pc).

(** An en-passant move generated for the pawn [pc] on [idx]: it goes one
    rank forward to a neighbouring file of the board. *)
Definition enpassant_like (s : State) (idx : Z) (pc : ascii) (m : Move) : Prop :=
  from m = idx /\ piece m = pc
  /\ flag m = Some FEnpassant /\ castle m = None /\ promotion m = None
  /\ enPassant s = Num (to m)
  /\ capture m = Some (if ascii_eqb pc "P" then "p" else "P")%char
  /\ (let dir := if ascii_eqb pc "P" then 8 else -8 in
      exists df, (df = -1 \/ df = 1)
                 /\ 0 <= Z.rem idx 8 + df <= 7
                 /\ to m = idx + dir + df).

(** The three squares a castle needs unattacked by the colour [by]. *)
Definition unattacked3 (s : State) (x y z : Z) (by_white : bool) : Prop :=
  isSquareAttacked s x by_white = false
  /\ isSquareAttacked s y by_white = false
  /\ isSquareAttacked s z by_white = false.

(** A castle move generated for the king [pc] on [idx]. *)
Definition castle_like (s : State) (idx : Z) (pc : ascii) (m : Move) : Prop :=
  from m = idx /\ piece m = pc
  /\ flag m = Some FCastle /\ capture m = None /\ promotion m = None
  /\ match castle m with
     | Some CastleK =>
         pc = "K"%char /\ idx = e1 /\ to m = g1 /\ cK (castling s) = true
         /\ empty_at (board s) f1 = true /\ empty_at (board s) g1 = true
         /\ unattacked3 s e1 f1 g1 false
     | Some CastleQ =>
         pc = "K"%char /\ idx = e1 /\ to m = c1 /\ cQ (castling s) = true
         /\ empty_at (board s) d1 = true /\ empty_at (board s) c1 = true
         /\ empty_at (board s) b1 = true
         /\ unattacked3 s e1 d1 c1 false
     | Some Castlek =>
         pc <> "K"%char /\ idx = e8 /\ to m = g8 /\ ck (castling s) = true
         /\ empty_at (board s) f8 = true /\ empty_at (board s) g8 = true
         /\ unattacked3 s e8 f8 g8 true
     | Some Castleq =>
         pc <> "K"%char /\ idx = e8 /\ to m = c8 /\ cq (castling s) = true
         /\ empty_at (board s) d8 = true /\ empty_at (board s) c8 = true
         /\ empty_at (board s) b8 = true
         /\ unattacked3 s e8 d8 c8 true
     | None => False
     end.

(** White to move with a pawn on e4 that can take the pawn on d5. *)
Definition capture_fen : string := "4k3/8/8/3p4/4P3/8/8/4K3 w - - 0 1".

(** The capture e4xd5. *)
Definition e4d5 : Move := plain_move 28 35 "P" (Some "p"%char).

(** White to move with king and rook on their home squares and the
    king-side right. *)
Definition castle_fen : string := "4k3/8/8/8/8/8/8/4K2R w K - 0 1".

(** The king-side castle e1-g1. *)
Definition castle_e1g1 : Move := castle_move e1 g1 "K" CastleK.

(** Black to move with a pawn on a2. *)
Definition black_pawn_fen : string := "4k3/8/8/8/8/8/p7/4K3 b - - 0 1".

(** The castling right of one side, as [state.castling] holds it. *)
Definition has_right (c : Castling) (side : CastleSide) : bool :=
  match side with
  | CastleK => cK c
  | CastleQ => cQ c
  | Castlek => ck c
  | Castleq => cq c
  end.

(** The moves on which [makeMove] clears the right of [side]: a move of
    that colour's king, or a move from or to the rook's corner. *)
Definition revokes (m : Move) (side : CastleSide) : Prop :=
  match side with
  | CastleK => piece m = "K"%char \/ from m = h1 \/ to m = h1
  | CastleQ => piece m = "K"%char \/ from m = a1 \/ to m = a1
  | Castlek => piece m = "k"%char \/ from m = h8 \/ to m = h8
  | Castleq => piece m = "k"%char \/ from m = a8 \/ to m = a8
  end.

(** White's king steps from e1 to e2. *)
Definition e1e2 : Move := plain_move 4 12 "K" None.

(** Black's king steps from e8 to e7. *)
Definition e8e7 : Move := plain_move 60 52 "k" None.

(** A square name made of exactly two characters. *)
Definition two_chars (s : string) : bool :=
  match s with
  | String _ (String _ EmptyString) => true
  | _ => false
  end.

(** [moveToAlgebraic]'s suffix for the promotion field. *)
Definition promotion_suffix (m : Move) : option ascii :=
  option_map toUpperCase (promotion m).

(** A finite best score together with a best move taken from [all]. *)
Definition fin_best (all : list Move) (bs : ext) (bm : option Move) : Prop :=
  exists z m, bs = Fin z /\ bm = Some m /\ In m all.

(** Every call of [rec] that returns gives a finite score. *)
Definition finite_scores (rec : State -> ext -> ext -> option (SearchResult * State))
    : Prop :=
  forall s a b res s', rec s a b = Some (res, s') -> exists z, score res = Fin z.

(** The knight's jump between two squares of the board: one file and two
    ranks apart, or two files and one rank. *)
Definition knight_jump (a b : Z) : bool :=
  let df := Z.abs (Z.rem b 8 - Z.rem a 8) in
  let dr := Z.abs (b / 8 - a / 8) in
  ((df =? 1) && (dr =? 2)) || ((df =? 2) && (dr =? 1)).

(** The test the code makes for a jump from [a] to [b]: one of the eight
    deltas leads there and the files are at most two apart. *)
Definition knight_delta_test (a b : Z) : bool :=
  existsb (fun delta => (b =? a + delta)
                        && negb (2 <? Z.abs (Z.rem b 8 - Z.rem a 8)))
          KNIGHT_DELTAS.

(** The piece letters of one colour. *)
Definition attackers (byWhite : bool) : list ascii :=
  if byWhite then ["P"; "N"; "B"; "R"; "Q"; "K"]%char
  else ["p"; "n"; "b"; "r"; "q"; "k"]%char.

(** What one square adds to the score of [evaluate]. *)
Definition contribution (piece : option ascii) (i : Z) : Z :=
  match piece with
  | None => 0
  | Some piece =>
      (if ascii_eqb piece (toUpperCase piece) then 1 else -1)
      * (PIECE_VALUES (toLowerCase piece) + positionalBonus piece i)
  end.

Definition sumZ (l : list Z) : Z := fold_right Z.add 0 l.

(** A letter with its case exchanged; other characters stay. *)
Definition swap_case (c : ascii) : ascii :=
  if ascii_eqb c (toUpperCase c) then toLowerCase c else toUpperCase c.

(** [s'] is [s] turned by half a turn with the colours exchanged: what
    stands on square [i] of [s'] is the piece of the other colour that
    stands on square [63 - i] of [s]. *)
Definition rotated (s s' : State) : Prop :=
  forall i, 0 <= i < 64 ->
    bpiece (board s') i = option_map swap_case (bpiece (board s) (63 - i)).

Definition slot_eqb (x y : option ascii) : bool :=
  match x, y with
  | Some a, Some b => ascii_eqb a b
  | None, None => true
  | _, _ => false
  end.

Definition rotated_check (s s' : State) : bool :=
  forallb (fun i => slot_eqb (bpiece (board s') i)
                      (option_map swap_case (bpiece (board s) (63 - i)))) squares.

(** Every character, listed. *)
Definition all_chars : list ascii := map ascii_of_nat (seq 0 256).

(** A white king and pawn against a bare king, and the same turned round
    with the colours exchanged. *)
Definition pawn_up_fen : string := "4k3/8/8/8/8/8/4P3/4K3 w - - 0 1".
Definition pawn_down_fen : string := "3k4/3p4/8/8/8/8/8/3K4 b - - 0 1".

(* ===================================================================== *)
(** ** The content script: [buildFEN] and the grid it reads *)
(* ===================================================================== *)

(** [boardGrid]: an array of rows, each an array of texts, [''] for an
    empty square and a one-character piece code otherwise ([readPiece]
    builds the code from one character).  A cell is [None] for [''], and a
    missing cell reads as [undefined], which is falsy as well. *)
Definition Grid : Type := list (list (option ascii)).

(** [row[f]] when it is truthy. *)
Definition grid_cell (row : list (option ascii)) (f : Z) : option ascii :=
  match row !! Z.to_nat f with
  | Some (Some c) => Some c
  | _ => None
  end.

(** [boardGrid[r][f]] when the row exists and the cell is truthy. *)
Definition grid_at (g : Grid) (r f : Z) : option ascii :=
  match g !! Z.to_nat r with
  | Some row => grid_cell row f
  | None => None
  end.

(** [grid[r][f] === c] *)
Definition grid_is (g : Grid) (r f : Z) (c : ascii) : bool :=
  match grid_at g r f with
  | Some x => ascii_eqb x c
  | None => false
  end.

(** The inner loop of [buildFEN] over the files of one row. *)
Fixpoint grid_rank (row : list (option ascii)) (n : nat) (f : Z) (empty : Z)
    (acc : string) : string :=
  match n with
  | O => if 0 <? empty then acc +:+ toString (Num empty) else acc
  | S n' =>
      match grid_cell row f with
      | Some p =>
          let acc1 := if 0 <? empty then acc +:+ toString (Num empty) else acc in
          grid_rank row n' (f + 1) 0 (acc1 +:+ String p EmptyString)
      | None => grid_rank row n' (f + 1) (empty + 1) acc
      end
  end.

(** The outer loop [for (let r = 7; r >= 0; r--)]; reading a cell of a
    missing row throws. *)
Fixpoint grid_ranks (g : Grid) (n : nat) (r : Z) (acc : string) : option string :=
  match n with
  | O => Some acc
  | S n' =>
      match g !! Z.to_nat r with
      | None => None
      | Some row =>
          let acc1 := grid_rank row 8 0 0 acc in
          let acc2 := if negb (r =? 0) then acc1 +:+ "/" else acc1 in
          grid_ranks g n' (r - 1) acc2
      end
  end.

Module ContentScript.

(** The object [extractPosition] returns, without its [orientation]. *)
Record Position : Type := mkPosition {
  boardGrid : Grid;
  turn : string;
  castling : string;
  enPassant : string
}.

(** [buildFEN(position)]; [moveCount] is the number of entries of the
    page's move list, and [Math.ceil(moveCount / 2)] is
    [(moveCount + 1) / 2] rounded down. *)
Definition buildFEN (position : Position) (moveCount : nat) : option string :=
  match grid_ranks (boardGrid position) 8 7 EmptyString with
  | None => None
  | Some fenBoard =>
      let ep := or_default (Some (enPassant position)) "-" in
      let halfmove := "0"%string in
      let fullmove := toString (Num (Z.max 1 ((Z.of_nat moveCount + 1) / 2))) in
      Some (fenBoard +:+ " " +:+ turn position +:+ " " +:+ castling position
            +:+ " " +:+ ep +:+ " " +:+ halfmove +:+ " " +:+ fullmove)%string
  end.

(** The grid part of [detectCastling], used when the board element has no
    usable [data-fen]: a right for each king and rook found at home. *)
Definition detectCastling (grid : Grid) : string :=
  let castling :=
    ((if grid_is grid 0 4 "K" && grid_is grid 0 7 "R" then "K" else "")
     +:+ (if grid_is grid 0 4 "K" && grid_is grid 0 0 "R" then "Q" else "")
     +:+ (if grid_is grid 7 4 "k" && grid_is grid 7 7 "r" then "k" else "")
     +:+ (if grid_is grid 7 4 "k" && grid_is grid 7 0 "r" then "q" else ""))%string in
  if String.eqb castling "" then "-"%string else castling.

End ContentScript.

(** The board that holds on square [r * 8 + f] what the grid holds in row
    [r], column [f]. *)
Definition board_of_grid (g : Grid) : Board :=
  {| cells := list_to_map
                (map (fun i : nat =>
                        (Z.of_nat i,
                         grid_at g (Z.of_nat i / 8) (Z.of_nat i mod 8)))
                     (seq 0 64));
     blen := 64;
     nan_cell := None |}.

(** A grid with its eight rows whose piece codes are neither digits, white
    space nor the rank separator. *)
Definition grid_ok (g : Grid) : Prop :=
  (8 <= length g)%nat
  /\ forall r f c, grid_at g r f = Some c ->
       isNaN_char c = true /\ ascii_eqb c "/" = false.

(** The grid of the starting position, first rank first. *)
Definition start_grid : Grid :=
  [ map Some ["R"; "N"; "B"; "Q"; "K"; "B"; "N"; "R"]%char;
    map Some ["P"; "P"; "P"; "P"; "P"; "P"; "P"; "P"]%char;
    [None; None; None; None; None; None; None; None];
    [None; None; None; None; None; None; None; None];
    [None; None; None; None; None; None; None; None];
    [None; None; None; None; None; None; None; None];
    map Some ["p"; "p"; "p"; "p"; "p"; "p"; "p"; "p"]%char;
    map Some ["r"; "n"; "b"; "q"; "k"; "b"; "n"; "r"]%char ].

(** [grid_ok], computed. *)
Definition grid_check (g : Grid) : bool :=
  (8 <=? Z.of_nat (length g))
  && forallb (fun row =>
       forallb (fun cell =>
         match cell with
         | Some c => isNaN_char c && negb (ascii_eqb c "/")
         | None => true
         end) row) g.

(** The position [extractPosition] reads off the starting position. *)
Definition start_position : ContentScript.Position :=
  {| ContentScript.boardGrid := start_grid;
     ContentScript.turn := "w";
     ContentScript.castling := ContentScript.detectCastling start_grid;
     ContentScript.enPassant := "-" |}.

(** The static evaluation of the position a move leads to. *)
Definition eval_after (p : State) (m : Move) : Z := evaluate (fst (makeMove p m)).

(** The running best of a move loop at depth 1 after the moves [seen]:
    nothing yet, or a move of [seen] whose evaluation no move of [seen]
    beats; on equal evaluations the earlier move is kept. *)
Definition best_so_far (white : bool) (p : State) (seen : list Move) (bs : ext)
    (bm : option Move) : Prop :=
  (seen = [] /\ bs = (if white then MInf else PInf) /\ bm = None)
  \/ (exists v m,
        bs = Fin v /\ bm = Some m /\ In m seen /\ v = eval_after p m
        /\ forall m', In m' seen ->
             if white then eval_after p m' <= v else v <= eval_after p m').

(* ===================================================================== *)
(** * Properties *)
(* ===================================================================== *)

(** Splitting a conjunction without unfolding its last component, and
    deciding a closed goal by evaluation. *)
Ltac conjs := repeat lazymatch goal with |- _ /\ _ => split end.
Ltac by_eval := vm_compute; first [reflexivity | tauto].

(** ** The named squares *)

(** The square constants are what [squareToIndex] computes for the names
    the engine writes. *)
Lemma squareToIndex_names :
  squareToIndex "a1" = Num a1 /\ squareToIndex "b1" = Num b1
  /\ squareToIndex "c1" = Num c1 /\ squareToIndex "d1" = Num d1
  /\ squareToIndex "e1" = Num e1 /\ squareToIndex "f1" = Num f1
  /\ squareToIndex "g1" = Num g1 /\ squareToIndex "h1" = Num h1
  /\ squareToIndex "a8" = Num a8 /\ squareToIndex "b8" = Num b8
  /\ squareToIndex "c8" = Num c8 /\ squareToIndex "d8" = Num d8
  /\ squareToIndex "e8" = Num e8 /\ squareToIndex "f8" = Num f8
  /\ squareToIndex "g8" = Num g8 /\ squareToIndex "h8" = Num h8.
Proof. conjs; by_eval. Qed.

(** ** The rays stay within their step bound *)

Lemma on_board_room (f r stepFile stepRank : Z) :
  on_board f r = true -> 1 <= ray_room f r stepFile stepRank <= 8.
Proof.
  unfold on_board, ray_room. intros H.
  repeat (apply andb_true_iff in H as [H ?]).
  destruct (stepFile =? 1), (stepFile =? -1), (stepRank =? 1); lia.
Qed.

Lemma ray_room_step (f r stepFile stepRank : Z) :
  ray_step stepFile stepRank ->
  ray_room (f + stepFile) (r + stepRank) stepFile stepRank
  = ray_room f r stepFile stepRank - 1.
Proof.
  unfold ray_step, ray_room.
  intros [-> | [-> | [-> [-> | ->]]]]; cbn; lia.
Qed.

(** More steps than the room left on the board change nothing: the eight
    steps the model allows are as good as the unbounded [while] loop. *)
Lemma attack_ray_fuel (b : Board) (stepFile stepRank : Z) (a1 a2 : ascii) (k : nat) :
  ray_step stepFile stepRank ->
  forall fuel f r,
    (on_board f r = true -> ray_room f r stepFile stepRank <= Z.of_nat fuel) ->
    attack_ray (fuel + k) b f r stepFile stepRank a1 a2
    = attack_ray fuel b f r stepFile stepRank a1 a2.
Proof.
  intros Hstep. induction fuel as [|n IH]; intros f r Hroom.
  - cbn [attack_ray Nat.add]. destruct (on_board f r) eqn:E.
    + pose proof (on_board_room f r stepFile stepRank E). specialize (Hroom eq_refl). lia.
    + destruct k; cbn [attack_ray]; [reflexivity | now rewrite E].
  - cbn [attack_ray Nat.add]. destruct (on_board f r) eqn:E; [|reflexivity].
    destruct (bpiece b (r * 8 + f)); [reflexivity|].
    apply IH. intros _. rewrite ray_room_step by exact Hstep.
    specialize (Hroom eq_refl). lia.
Qed.

Lemma slide_ray_fuel (b : Board) (idx : Z) (piece : ascii) (stepFile stepRank : Z)
    (k : nat) :
  ray_step stepFile stepRank ->
  forall fuel f r,
    (on_board f r = true -> ray_room f r stepFile stepRank <= Z.of_nat fuel) ->
    slide_ray (fuel + k) b idx piece f r stepFile stepRank
    = slide_ray fuel b idx piece f r stepFile stepRank.
Proof.
  intros Hstep. induction fuel as [|n IH]; intros f r Hroom.
  - cbn [slide_ray Nat.add]. destruct (on_board f r) eqn:E.
    + pose proof (on_board_room f r stepFile stepRank E). specialize (Hroom eq_refl). lia.
    + destruct k; cbn [slide_ray]; [reflexivity | now rewrite E].
  - cbn [slide_ray Nat.add]. destruct (on_board f r) eqn:E; [|reflexivity].
    destruct (bpiece b (r * 8 + f)); [reflexivity|].
    f_equal. apply IH. intros _. rewrite ray_room_step by exact Hstep.
    specialize (Hroom eq_refl). lia.
Qed.

(** From any start, eight steps suffice. *)
Lemma attack_ray_eight (b : Board) (f r stepFile stepRank : Z) (a1 a2 : ascii) (k : nat) :
  ray_step stepFile stepRank ->
  attack_ray (8 + k) b f r stepFile stepRank a1 a2
  = attack_ray 8 b f r stepFile stepRank a1 a2.
Proof.
  intros Hstep. apply attack_ray_fuel; [exact Hstep|].
  intros E. pose proof (on_board_room f r stepFile stepRank E). lia.
Qed.

Lemma slide_ray_eight (b : Board) (idx : Z) (piece : ascii) (f r stepFile stepRank : Z)
    (k : nat) :
  ray_step stepFile stepRank ->
  slide_ray (8 + k) b idx piece f r stepFile stepRank
  = slide_ray 8 b idx piece f r stepFile stepRank.
Proof.
  intros Hstep. apply slide_ray_fuel; [exact Hstep|].
  intros E. pose proof (on_board_room f r stepFile stepRank E). lia.
Qed.

(** ** Make and unmake: the clocks *)

(** What [makeMove] does to the fullmove counter, for every position and
    move: the increment follows a move by White. *)
Lemma makeMove_fullmove (p : State) (m : Move) :
  fullmove (fst (makeMove p m))
  = if whiteToMove p then add (fullmove p) (Num 1) else fullmove p.
Proof.
  unfold makeMove; cbn [fst fullmove].
  now destruct (whiteToMove p).
Qed.

(** What [makeMove] does to the halfmove clock, for every position and
    move: the pawn test looks at the piece that lands, which for a
    promotion is the promoted piece. *)
Lemma makeMove_halfmove (p : State) (m : Move) :
  halfmove (fst (makeMove p m))
  = match capture m with
    | Some _ => Num 0
    | None => if ascii_eqb (toLowerCase (movingPiece m)) "p" then Num 0
              else add (halfmove p) (Num 1)
    end.
Proof. reflexivity. Qed.

(** C6, evaluated on the code.  From the starting position White's e2-e4
    takes the fullmove counter from 1 to 2, and in the position after it
    Black's e7-e5 leaves the counter at 1: the counter moves after White's
    move, not after Black's. *)
Theorem fullmove_counts_white_moves :
  fenToState start_fen = Some (position_of start_fen)
  /\ fenToState after_e4_fen = Some (position_of after_e4_fen)
  /\ In e2e4 (candidateMoves (position_of start_fen))
  /\ whiteToMove (position_of start_fen) = true
  /\ fullmove (position_of start_fen) = Num 1
  /\ fullmove (fst (makeMove (position_of start_fen) e2e4)) = Num 2
  /\ In e7e5 (candidateMoves (position_of after_e4_fen))
  /\ whiteToMove (position_of after_e4_fen) = false
  /\ fullmove (position_of after_e4_fen) = Num 1
  /\ fullmove (fst (makeMove (position_of after_e4_fen) e7e5)) = Num 1.
Proof. conjs; by_eval. Qed.

(** C7, evaluated on the code.  With the clock at 5, the pawn move
    a7-a8=Q, which [generateMoves] returns and which captures nothing,
    leaves the clock at 6 instead of 0. *)
Theorem promotion_keeps_halfmove_running :
  fenToState promotion_fen = Some (position_of promotion_fen)
  /\ In a7a8Q (fst (generateMoves (position_of promotion_fen)))
  /\ toLowerCase (piece a7a8Q) = "p"%char
  /\ halfmove (position_of promotion_fen) = Num 5
  /\ halfmove (fst (makeMove (position_of promotion_fen) a7a8Q)) = Num 6.
Proof. conjs; by_eval. Qed.

(** ** The legality filter *)

(** C1, evaluated on the code.  After 1. f3 e5 2. Kf2 Qh4+, a position
    reached from the starting position by four legal moves, the white king
    on f2 is attacked by the queen on h4; [generateMoves] returns a2-a3,
    which leaves the king attacked, and so do fifteen of the sixteen moves
    it returns.  In the position K g6, Q f7 against k h8 with Black to
    move it returns the three king moves to g7, h7 and g8, each into
    attack. *)
Theorem generateMoves_returns_moves_into_check :
  fenToState start_fen = Some (position_of start_fen)
  /\ played_from (position_of start_fen) check_line
  /\ generateFEN (play (position_of start_fen) check_line)
     = "rnb1kbnr/pppp1ppp/8/4p3/7q/5P2/PPPPPKPP/RNBQ1BNR w kq - 2 3"%string
  /\ In a2a3 (fst (generateMoves (play (position_of start_fen) check_line)))
  /\ leaves_own_king_attacked (play (position_of start_fen) check_line) a2a3 = true
  /\ length (filter (fun m => leaves_own_king_attacked
                                (play (position_of start_fen) check_line) m = true)
               (fst (generateMoves (play (position_of start_fen) check_line))))
     = 15%nat
  /\ fenToState stalemate_fen = Some (position_of stalemate_fen)
  /\ map moveToAlgebraic (fst (generateMoves (position_of stalemate_fen)))
     = ["h8g7"; "h8h7"; "h8g8"]%string
  /\ forallb (leaves_own_king_attacked (position_of stalemate_fen))
       (fst (generateMoves (position_of stalemate_fen))) = true.
Proof. conjs; by_eval. Qed.

(** The test the filter applies after [makeMove] has flipped the side to
    move: [!state.whiteToMove] is then the mover's own colour. *)
Lemma filter_tests_own_colour (p : State) (m : Move) :
  negb (whiteToMove (fst (makeMove p m))) = whiteToMove p.
Proof. unfold makeMove; cbn [fst whiteToMove]. apply negb_involutive. Qed.

(** ** Make and unmake: en passant *)

(** C2, evaluated on the code.  With a white pawn on e5 and a black pawn
    that has just reached d5, [generateMoves] returns e5xd6 en passant;
    making and unmaking it leaves d5 (index 35) empty and puts the black
    pawn on d7 (index 51), so the position is not restored. *)
Theorem undo_enpassant_misplaces_pawn :
  fenToState enpassant_fen = Some (position_of enpassant_fen)
  /\ In e5d6ep (fst (generateMoves (position_of enpassant_fen)))
  /\ bget (board (position_of enpassant_fen)) 35 = Some (Some "p"%char)
  /\ bget (board (position_of enpassant_fen)) 51 = Some None
  /\ bget (board (make_then_undo (position_of enpassant_fen) e5d6ep)) 35 = Some None
  /\ bget (board (make_then_undo (position_of enpassant_fen) e5d6ep)) 51
     = Some (Some "p"%char)
  /\ make_then_undo (position_of enpassant_fen) e5d6ep <> position_of enpassant_fen.
Proof.
  assert (H35 : bget (board (position_of enpassant_fen)) 35 = Some (Some "p"%char))
    by (vm_compute; reflexivity).
  assert (H35' : bget (board (make_then_undo (position_of enpassant_fen) e5d6ep)) 35
                 = Some None) by (vm_compute; reflexivity).
  conjs; try assumption; try by_eval.
  intros E. rewrite E in H35'. congruence.
Qed.

(** ** Search: terminal positions *)

(** With a non-negative depth below the step bound, [search] returns. *)
Lemma max_loop_returns rec moves :
  (forall s a b, is_Some (rec s a b)) ->
  forall state alpha beta bs bm, is_Some (max_loop rec moves state alpha beta bs bm).
Proof.
  intros Hrec. induction moves as [|mv rest IH]; intros; cbn [max_loop].
  - eauto.
  - destruct (makeMove state mv) as [s1 undo].
    destruct (Hrec s1 alpha beta) as [[res s1'] ->].
    destruct (ext_leb _ _); eauto.
Qed.

Lemma min_loop_returns rec moves :
  (forall s a b, is_Some (rec s a b)) ->
  forall state alpha beta bs bm, is_Some (min_loop rec moves state alpha beta bs bm).
Proof.
  intros Hrec. induction moves as [|mv rest IH]; intros; cbn [min_loop].
  - eauto.
  - destruct (makeMove state mv) as [s1 undo].
    destruct (Hrec s1 alpha beta) as [[res s1'] ->].
    destruct (ext_leb _ _); eauto.
Qed.

Lemma search_returns (fuel : nat) :
  forall state depth alpha beta,
    0 <= depth < Z.of_nat fuel -> is_Some (search fuel state depth alpha beta).
Proof.
  induction fuel as [|k IH]; intros state depth alpha beta Hd; [lia|].
  cbn [search]. destruct (depth =? 0) eqn:E0; [eauto|].
  apply Z.eqb_neq in E0.
  destruct (generateMoves state) as [moves st].
  assert (Hrec : forall s a b, is_Some (search k s (depth - 1) a b))
    by (intros; apply IH; lia).
  destruct moves as [|mv rest].
  - destruct (isSquareAttacked _ _ _); eauto.
  - destruct (whiteToMove st);
      [apply max_loop_returns | apply min_loop_returns]; exact Hrec.
Qed.


(** At depth 0 [search] returns the static evaluation and examines no
    move. *)
Lemma search_depth0 (fuel : nat) (state : State) (alpha beta : ext) :
  search (S fuel) state 0 alpha beta
  = Some ({| score := Fin (evaluate state); move := None |}, state).
Proof. reflexivity. Qed.

(** C5, evaluated on the code.  In the position K g6, Q f7 against k h8
    with Black to move the black king is not attacked and each of its
    three moves leaves it attacked by White, so the position is a
    stalemate.  [generateMoves] nevertheless returns the three king moves
    (its filter tests the mover's own colour), and [search] over the full
    window scores the position 900 at depth 1 and at depth 2, as it does
    at depth 0, where the score is the static evaluation: not 0. *)
Theorem search_scores_stalemate_by_material :
  fenToState stalemate_fen = Some (position_of stalemate_fen)
  /\ isSquareAttacked (position_of stalemate_fen)
       (findKing (position_of stalemate_fen) (whiteToMove (position_of stalemate_fen)))
       (negb (whiteToMove (position_of stalemate_fen))) = false
  /\ map moveToAlgebraic (candidateMoves (position_of stalemate_fen))
     = ["h8g7"; "h8h7"; "h8g8"]%string
  /\ forallb (leaves_own_king_attacked (position_of stalemate_fen))
       (candidateMoves (position_of stalemate_fen)) = true
  /\ map moveToAlgebraic (fst (generateMoves (position_of stalemate_fen)))
     = ["h8g7"; "h8h7"; "h8g8"]%string
  /\ score_of (search 1 (position_of stalemate_fen) 0 MInf PInf) = Some (Fin 900)
  /\ score_of (search 2 (position_of stalemate_fen) 1 MInf PInf) = Some (Fin 900)
  /\ score_of (search 3 (position_of stalemate_fen) 2 MInf PInf) = Some (Fin 900).
Proof. conjs; by_eval. Qed.




(** ** The facade and the depth option *)

Lemma depth_or_falsy (o : Options) (dflt : jsnum) :
  falsy_depth o = true -> depth_or o dflt = dflt.
Proof.
  unfold falsy_depth, depth_or. destruct (opt_depth o) as [d|]; [|reflexivity].
  now destruct (truthy d).
Qed.

Lemma depth_or_truthy (o : Options) (dflt : jsnum) :
  truthy dflt = true -> truthy (depth_or o dflt) = true.
Proof.
  unfold depth_or. destruct (opt_depth o) as [d|]; [|easy].
  now destruct (truthy d) eqn:E.
Qed.

Lemma truthy_not_zero (d : jsnum) : truthy d = true -> d <> Num 0.
Proof. intros H ->. discriminate H. Qed.

(** The wrapper hands the core its own choice of depth and copies the
    answer field by field. *)
Lemma ChessEngine_analyzePosition_core (this : ChessEngine.t) (fuel : nat)
    (fen : string) (o : Options) :
  ChessEngine.analyzePosition this fuel fen o
  = analyzePosition fuel fen {| opt_depth := Some (depth_or o (ChessEngine.this_depth this)) |}.
Proof.
  unfold ChessEngine.analyzePosition.
  destruct (analyzePosition _ _ _) as [[bm ev dp mo]| |]; reflexivity.
Qed.

(** C10 as stated fails for the wrapper class: an engine constructed with
    depth 5 and asked with depth 0 searches at depth 5 and reports 5. *)
Lemma instance_depth_replaces_falsy_depth :
  exists a,
    ChessEngine.analyzePosition (ChessEngine.constructor {| opt_depth := Some (Num 5) |})
      6 start_fen {| opt_depth := Some (Num 0) |} = Returns a
    /\ depth a = Num 5
    /\ depth a <> Num 3.
Proof.
  eexists. split; [vm_compute; reflexivity|].
  split; [reflexivity | discriminate].
Qed.

(** C10, amended.  With a falsy depth option, [analyzePosition] runs
    [search] on the clone at depth 3 and reports depth 3; the wrapper
    [ChessEngine.analyzePosition] runs it at the instance's depth, which
    is the constructor's depth option, or 3 when that was falsy, and
    reports that depth.  Neither ever searches at depth 0. *)
Theorem falsy_depth_uses_default (fuel : nat) (fen : string) (o co : Options) :
  falsy_depth o = true ->
  analyzePosition fuel fen o
  = match fenToState fen with
    | None => Throws
    | Some state =>
        match search fuel (cloneState state) 3 MInf PInf with
        | None => OutOfFuel
        | Some (result, _) =>
            Returns {| bestMove := option_map moveToAlgebraic (move result);
                       evaluation := div100 (score result);
                       depth := Num 3;
                       moveObject := move result |}
        end
    end
  /\ ChessEngine.analyzePosition (ChessEngine.constructor co) fuel fen o
     = analyzePosition fuel fen {| opt_depth := Some (depth_or co (Num 3)) |}
  /\ (forall a, ChessEngine.analyzePosition (ChessEngine.constructor co) fuel fen o
                = Returns a -> depth a = depth_or co (Num 3))
  /\ depth_or o (Num 3) <> Num 0
  /\ depth_or {| opt_depth := Some (depth_or o (depth_or co (Num 3))) |} (Num 3) <> Num 0.
Proof.
  intros Hf. conjs.
  - unfold analyzePosition. rewrite (depth_or_falsy o (Num 3) Hf). reflexivity.
  - rewrite ChessEngine_analyzePosition_core. cbn [ChessEngine.constructor ChessEngine.this_depth].
    now rewrite (depth_or_falsy o _ Hf).
  - intros a. rewrite ChessEngine_analyzePosition_core.
    cbn [ChessEngine.constructor ChessEngine.this_depth].
    rewrite (depth_or_falsy o _ Hf).
    unfold analyzePosition.
    assert (Hd : depth_or {| opt_depth := Some (depth_or co (Num 3)) |} (Num 3)
                 = depth_or co (Num 3)).
    { unfold depth_or at 1. cbn [opt_depth].
      now rewrite (depth_or_truthy co (Num 3) eq_refl). }
    rewrite Hd.
    destruct (fenToState fen) as [state|]; [|discriminate].
    destruct (run_search _ _ _) as [[result ?]|]; [|discriminate].
    intros [= <-]. reflexivity.
  - apply truthy_not_zero, depth_or_truthy. reflexivity.
  - apply truthy_not_zero, depth_or_truthy. reflexivity.
Qed.

Lemma falsy_depth_uses_default_witness :
  analyzePosition 4 stalemate_fen {| opt_depth := Some (Num 0) |}
  = match fenToState stalemate_fen with
    | None => Throws
    | Some state =>
        match search 4 (cloneState state) 3 MInf PInf with
        | None => OutOfFuel
        | Some (result, _) =>
            Returns {| bestMove := option_map moveToAlgebraic (move result);
                       evaluation := div100 (score result);
                       depth := Num 3;
                       moveObject := move result |}
        end
    end
  /\ ChessEngine.analyzePosition (ChessEngine.constructor {| opt_depth := None |})
       4 stalemate_fen {| opt_depth := Some (Num 0) |}
     = analyzePosition 4 stalemate_fen
         {| opt_depth := Some (depth_or {| opt_depth := None |} (Num 3)) |}
  /\ (forall a, ChessEngine.analyzePosition
                  (ChessEngine.constructor {| opt_depth := None |})
                  4 stalemate_fen {| opt_depth := Some (Num 0) |}
                = Returns a -> depth a = depth_or {| opt_depth := None |} (Num 3))
  /\ depth_or {| opt_depth := Some (Num 0) |} (Num 3) <> Num 0
  /\ depth_or {| opt_depth := Some (depth_or {| opt_depth := Some (Num 0) |}
                                      (depth_or {| opt_depth := None |} (Num 3))) |}
       (Num 3) <> Num 0.
Proof.
  apply (falsy_depth_uses_default 4 stalemate_fen {| opt_depth := Some (Num 0) |}
           {| opt_depth := None |}).
  reflexivity.
Defined.

(** ** The parser: when it throws *)

Lemma split_aux_not_nil sep s cur : split_aux sep s cur <> [].
Proof.
  revert cur. induction s as [|c r IH]; intros cur; cbn [split_aux]; [discriminate|].
  destruct (ascii_eqb c sep); [discriminate | apply IH].
Qed.

Lemma split_head sep s : exists x rest, split sep s = x :: rest.
Proof.
  destruct (split sep s) as [|x rest] eqn:E; [|eauto].
  now apply split_aux_not_nil in E.
Qed.

(** The rank loop throws exactly when one of the ranks it indexes is
    absent. *)
Lemma parse_ranks_None (ranks : list string) (n : nat) :
  forall r b,
    parse_ranks ranks n r b = None
    <-> exists j, (j < n)%nat /\ ranks !! Z.to_nat (7 - (r + Z.of_nat j)) = None.
Proof.
  induction n as [|n IH]; intros r b; cbn [parse_ranks].
  - split; [discriminate | intros (j & Hj & _); lia].
  - destruct (ranks !! Z.to_nat (7 - r)) as [s|] eqn:E.
    + rewrite IH. split.
      * intros (j & Hj & Hn). exists (S j). split; [lia|].
        now replace (r + Z.of_nat (S j)) with (r + 1 + Z.of_nat j) by lia.
      * intros (j & Hj & Hn). destruct j as [|j].
        -- replace (r + Z.of_nat 0) with r in Hn by lia. congruence.
        -- exists j. split; [lia|].
           now replace (r + 1 + Z.of_nat j) with (r + Z.of_nat (S j)) by lia.
    + split; [|reflexivity]. intros _. exists 0%nat. split; [lia|].
      now replace (r + Z.of_nat 0) with r by lia.
Qed.

Lemma parse_ranks_8_None (ranks : list string) (b : Board) :
  parse_ranks ranks 8 0 b = None <-> (length ranks < 8)%nat.
Proof.
  rewrite parse_ranks_None. split.
  - intros (j & Hj & Hn). apply lookup_ge_None in Hn. lia.
  - intros Hl. exists 0%nat. split; [lia|]. apply lookup_ge_None. cbn. lia.
Qed.

(** C4 as stated fails: texts with four fields, with a rank that sums to
    9, with an unknown piece letter, with an unknown castling letter and
    with an impossible en-passant square are all parsed to a position. *)
Lemma malformed_texts_are_parsed :
  fenToState "8/8/8/8/8/8/8/8 w - -" <> None
  /\ fenToState "9/8/8/8/8/8/8/8 w - - 0 1" <> None
  /\ fenToState "7x/8/8/8/8/8/8/8 w - - 0 1" <> None
  /\ fenToState "8/8/8/8/8/8/8/8 w Z - 0 1" <> None
  /\ fenToState "8/8/8/8/8/8/8/8 w - z9 0 1" <> None.
Proof. conjs; vm_compute; discriminate. Qed.

(** C4, amended.  [fenToState] validates nothing.  It throws exactly when
    the text has fewer than four space-separated fields or its placement
    field has fewer than eight ranks; every other text yields a
    position. *)
Theorem fenToState_throws_iff (fen : string) :
  fenToState fen = None
  <-> (length (split " " fen) < 4)%nat
      \/ (length (split "/" (boardPart_of fen)) < 8)%nat.
Proof.
  unfold fenToState, boardPart_of.
  destruct (split_head " " fen) as (bp & rest & E). rewrite E.
  cbn [lookup list_lookup].
  destruct (parse_ranks (split "/" bp) 8 0 (filled_null 64)) as [b|] eqn:Ep.
  - assert (Hl : ~ (length (split "/" bp) < 8)%nat).
    { intros Hl. apply (parse_ranks_8_None _ (filled_null 64)) in Hl. congruence. }
    destruct (rest !! 2%nat) as [ep|] eqn:E3.
    + split; [discriminate|]. apply lookup_lt_Some in E3.
      intros [H|H]; [cbn [length] in H; lia | contradiction].
    + split; [|reflexivity]. intros _. left. apply lookup_ge_None in E3.
      cbn [length]. lia.
  - split; [|reflexivity]. intros _. right. now apply parse_ranks_8_None in Ep.
Qed.

(** ** Numbers as text *)

Lemma digit_char_spec (d : Z) :
  0 <= d <= 9 ->
  is_digit (digit_char d) = true
  /\ digit_val (digit_char d) = d
  /\ is_space (digit_char d) = false
  /\ ascii_eqb (digit_char d) "-" = false
  /\ ascii_eqb (digit_char d) "+" = false
  /\ ascii_eqb (digit_char d) " " = false
  /\ ascii_eqb (digit_char d) "/" = false.
Proof.
  intros H.
  assert (C : d = 0 \/ d = 1 \/ d = 2 \/ d = 3 \/ d = 4 \/ d = 5 \/ d = 6 \/ d = 7
              \/ d = 8 \/ d = 9) by lia.
  repeat (destruct C as [-> | C]; [vm_compute; tauto|]).
  subst d; vm_compute; tauto.
Qed.

Lemma mod10_range (n : Z) : 0 <= n mod 10 <= 9.
Proof. pose proof (Z.mod_pos_bound n 10); lia. Qed.

(** The printed digits start with a digit. *)
Lemma digits_of_head (fuel : nat) :
  forall n tail, exists d r, 0 <= d <= 9 /\ digits_of fuel n tail = String (digit_char d) r.
Proof.
  induction fuel as [|k IH]; intros n tail; cbn [digits_of].
  - exists (n mod 10), tail. split; [apply mod10_range | reflexivity].
  - destruct (n <? 10).
    + exists (n mod 10), tail. split; [apply mod10_range | reflexivity].
    + apply IH.
Qed.

(** Printing adds only digits in front of [tail]. *)
Lemma digits_of_has_char (c : ascii) (fuel : nat) :
  is_digit c = false ->
  forall n tail, has_char c (digits_of fuel n tail) = has_char c tail.
Proof.
  intros Hc.
  assert (Hd : forall d, 0 <= d <= 9 -> ascii_eqb (digit_char d) c = false).
  { intros d Hd. destruct (ascii_eqb (digit_char d) c) eqn:E; [|reflexivity].
    apply Ascii.eqb_eq in E. subst c.
    destruct (digit_char_spec d Hd) as (H1 & _). congruence. }
  induction fuel as [|k IH]; intros n tail; cbn [digits_of].
  - cbn [has_char]. now rewrite (Hd _ (mod10_range n)).
  - destruct (n <? 10).
    + cbn [has_char]. now rewrite (Hd _ (mod10_range n)).
    + rewrite IH. cbn [has_char]. now rewrite (Hd _ (mod10_range n)).
Qed.

(** Reading back what was printed. *)
Lemma parse_digits_of (fuel : nat) :
  forall n tail,
    0 <= n < 10 ^ (Z.of_nat fuel + 1) ->
    parse_digits 0 false (digits_of fuel n tail) = parse_digits n true tail.
Proof.
  assert (Hone : forall n tail, 0 <= n < 10 ->
            parse_digits 0 false (String (digit_char (n mod 10)) tail)
            = parse_digits n true tail).
  { intros n tail Hn. rewrite Z.mod_small by lia. cbn [parse_digits].
    destruct (digit_char_spec n ltac:(lia)) as (-> & -> & _).
    reflexivity. }
  induction fuel as [|k IH]; intros n tail Hn; cbn [digits_of].
  - apply Hone. cbn in Hn. lia.
  - destruct (n <? 10) eqn:E.
    + apply Hone. apply Z.ltb_lt in E. lia.
    + apply Z.ltb_ge in E. rewrite IH.
      * cbn [parse_digits].
        destruct (digit_char_spec _ (mod10_range n)) as (-> & -> & _).
        f_equal. pose proof (Z.div_mod n 10 ltac:(lia)). lia.
      * replace (Z.of_nat (S k) + 1) with (Z.succ (Z.of_nat k + 1)) in Hn by lia.
        rewrite Z.pow_succ_r in Hn by lia.
        split; [apply Z.div_pos; lia|].
        apply Z.div_lt_upper_bound; lia.
Qed.

Lemma log2_fuel_enough (n : Z) :
  0 <= n -> n < 10 ^ (Z.of_nat (Z.to_nat (Z.log2 n)) + 1).
Proof.
  intros Hn. rewrite Z2Nat.id by apply Z.log2_nonneg.
  destruct (Z.eq_dec n 0) as [->|Hz]; [reflexivity|].
  pose proof (Z.log2_spec n ltac:(lia)) as [_ Hu].
  eapply Z.lt_le_trans; [exact Hu|].
  replace (Z.succ (Z.log2 n)) with (Z.log2 n + 1) by lia.
  apply Z.pow_le_mono_l. lia.
Qed.

Lemma parseInt_nat_to_string (n : Z) :
  0 <= n -> parse_digits 0 false (nat_to_string n) = Some n.
Proof.
  intros Hn. unfold nat_to_string.
  rewrite parse_digits_of by (split; [lia | now apply log2_fuel_enough]).
  reflexivity.
Qed.

(** [parseInt(String(z), 10)] is [z]. *)
Lemma parseInt_toString (z : Z) : parseInt (toString (Num z)) = Num z.
Proof.
  unfold toString. destruct (z <? 0) eqn:E.
  - apply Z.ltb_lt in E. unfold parseInt. cbn [skip_space].
    replace (is_space "-") with false by reflexivity.
    replace (ascii_eqb "-" "-") with true by reflexivity.
    rewrite parseInt_nat_to_string by lia. f_equal. lia.
  - apply Z.ltb_ge in E. unfold parseInt, nat_to_string.
    destruct (digits_of_head (Z.to_nat (Z.log2 z)) z EmptyString) as (d & r & Hd & Hs).
    rewrite Hs. cbn [skip_space].
    destruct (digit_char_spec d Hd) as (_ & _ & -> & -> & -> & _).
    rewrite <- Hs. fold (nat_to_string z).
    now rewrite parseInt_nat_to_string.
Qed.

Lemma toString_no_char (c : ascii) (z : Z) :
  is_digit c = false -> ascii_eqb "-" c = false ->
  has_char c (toString (Num z)) = false.
Proof.
  intros Hc Hm. unfold toString, nat_to_string.
  destruct (z <? 0); cbn [has_char]; rewrite ?Hm, digits_of_has_char by assumption;
    reflexivity.
Qed.

Lemma toString_not_empty (z : Z) : exists c r, toString (Num z) = String c r.
Proof.
  unfold toString, nat_to_string. destruct (z <? 0); [eauto|].
  destruct (digits_of_head (Z.to_nat (Z.log2 z)) z EmptyString) as (d & r & _ & Hs).
  eauto.
Qed.

(** ** Splitting and joining text *)

Lemma append_cons (x : ascii) (a b : string) : String x a +:+ b = String x (a +:+ b).
Proof. reflexivity. Qed.

Lemma append_nil_l (b : string) : EmptyString +:+ b = b.
Proof. reflexivity. Qed.

Lemma append_assoc (a b c : string) : (a +:+ b) +:+ c = a +:+ (b +:+ c).
Proof.
  induction a as [|x a IH]; rewrite ?append_nil_l, ?append_cons;
    [reflexivity | now rewrite IH].
Qed.

Lemma append_nil_r (a : string) : a +:+ EmptyString = a.
Proof.
  induction a as [|x a IH]; rewrite ?append_nil_l, ?append_cons;
    [reflexivity | now rewrite IH].
Qed.

Lemma has_char_app (c : ascii) (a b : string) :
  has_char c (a +:+ b) = has_char c a || has_char c b.
Proof.
  induction a as [|x a IH]; rewrite ?append_nil_l, ?append_cons; cbn [has_char];
    [reflexivity|].
  rewrite IH. now rewrite orb_assoc.
Qed.

Lemma split_aux_no_sep (sep : ascii) (s : string) :
  has_char sep s = false ->
  forall cur, split_aux sep s cur = [cur s].
Proof.
  induction s as [|c r IH]; intros H cur; cbn [split_aux]; [reflexivity|].
  cbn [has_char] in H. apply orb_false_iff in H as [Hc Hr].
  unfold ascii_eqb in *. rewrite Hc. now rewrite IH.
Qed.

Lemma split_aux_app (sep : ascii) (s1 s2 : string) :
  has_char sep s1 = false ->
  forall cur,
    split_aux sep (s1 +:+ String sep s2) cur = cur s1 :: split_aux sep s2 (fun x => x).
Proof.
  induction s1 as [|c r IH]; intros H cur.
  - rewrite append_nil_l. cbn [split_aux]. unfold ascii_eqb.
    now rewrite Ascii.eqb_refl.
  - cbn [has_char] in H. apply orb_false_iff in H as [Hc Hr].
    rewrite append_cons. cbn [split_aux]. unfold ascii_eqb in *. rewrite Hc.
    now rewrite IH.
Qed.

Lemma split_app (sep : ascii) (s1 s2 : string) :
  has_char sep s1 = false ->
  split sep (s1 +:+ String sep s2) = s1 :: split sep s2.
Proof. intros H. unfold split. now rewrite split_aux_app. Qed.

Lemma split_no_sep (sep : ascii) (s : string) :
  has_char sep s = false -> split sep s = [s].
Proof. intros H. unfold split. now rewrite split_aux_no_sep. Qed.

(** ** One rank: printing, then parsing *)

Lemma parse_rank_snd (r : Z) (s : string) :
  forall file b, parse_rank r s file b = snd (parse_rank_st r s file b).
Proof.
  induction s as [|c rest IH]; intros file b; cbn [parse_rank parse_rank_st];
    [reflexivity|].
  destruct (negb (isNaN_char c)); apply IH.
Qed.

Lemma parse_rank_st_app (r : Z) (s1 s2 : string) :
  forall file b,
    parse_rank_st r (s1 +:+ s2) file b
    = parse_rank_st r s2 (fst (parse_rank_st r s1 file b)) (snd (parse_rank_st r s1 file b)).
Proof.
  induction s1 as [|c rest IH]; intros file b;
    rewrite ?append_nil_l, ?append_cons; cbn [parse_rank_st fst snd];
    [reflexivity|].
  destruct (negb (isNaN_char c)); apply IH.
Qed.

Lemma fen_rank_acc (b : Board) (r : Z) (n : nat) :
  forall f e acc, fen_rank b r n f e acc = acc +:+ fen_rank b r n f e EmptyString.
Proof.
  induction n as [|n IH]; intros f e acc; cbn [fen_rank].
  - destruct (0 <? e); [reflexivity | now rewrite append_nil_r].
  - destruct (bpiece b (r * 8 + f)) as [p|].
    + rewrite IH. rewrite (IH _ _ (_ +:+ String p EmptyString)).
      destruct (0 <? e); now rewrite ?append_assoc, ?append_nil_l.
    + apply IH.
Qed.

(** A count of empty squares prints as one digit. *)
Lemma toString_digit (e : Z) :
  0 <= e <= 9 -> toString (Num e) = String (digit_char e) EmptyString.
Proof.
  intros H.
  assert (C : e = 0 \/ e = 1 \/ e = 2 \/ e = 3 \/ e = 4 \/ e = 5 \/ e = 6 \/ e = 7
              \/ e = 8 \/ e = 9) by lia.
  repeat (destruct C as [-> | C]; [reflexivity|]).
  subst e; reflexivity.
Qed.

(** Parsing a printed count advances [file] by it and writes nothing. *)
Lemma parse_count (r e f : Z) (b : Board) :
  0 <= e <= 9 ->
  parse_rank_st r (toString (Num e)) (Num f) b = (Num (f + e), b).
Proof.
  intros H. rewrite (toString_digit e H). cbn [parse_rank_st].
  destruct (digit_char_spec e H) as (Hd & _).
  unfold isNaN_char. rewrite Hd. cbn [orb negb].
  rewrite <- (toString_digit e H), parseInt_toString. reflexivity.
Qed.

Lemma fen_rank_parse (b : Board) (r : Z) (b0 : Board) (n : nat) :
  (forall i c, bpiece b i = Some c -> isNaN_char c = true) ->
  forall f e acc b1,
    0 <= e <= f -> f + Z.of_nat n <= 8 ->
    parse_rank_st r acc (Num 0) b0 = (Num (f - e), b1) ->
    (forall j, f - e <= j < f -> bpiece b (r * 8 + j) = None) ->
    parse_rank_st r (fen_rank b r n f e acc) (Num 0) b0
    = (Num (f + Z.of_nat n), write_rank b r n f b1).
Proof.
  intros Hgood. induction n as [|n IH]; intros f e acc b1 He Hn Hacc Hgap;
    cbn [fen_rank write_rank].
  - replace (f + Z.of_nat 0) with f by lia.
    destruct (0 <? e) eqn:E.
    + rewrite parse_rank_st_app, Hacc. cbn [fst snd].
      rewrite parse_count by lia. f_equal. f_equal. lia.
    + apply Z.ltb_ge in E. rewrite Hacc. f_equal. f_equal. lia.
  - replace (f + Z.of_nat (S n)) with (f + 1 + Z.of_nat n) by lia.
    destruct (bpiece b (r * 8 + f)) as [p|] eqn:Ep.
    + apply IH; [lia | lia | | intros j Hj; lia].
      rewrite parse_rank_st_app.
      assert (Hpre : parse_rank_st r (if 0 <? e then acc +:+ toString (Num e) else acc)
                       (Num 0) b0 = (Num f, b1)).
      { destruct (0 <? e) eqn:E.
        - rewrite parse_rank_st_app, Hacc. cbn [fst snd].
          rewrite parse_count by lia. f_equal. f_equal. lia.
        - apply Z.ltb_ge in E. rewrite Hacc. f_equal. f_equal. lia. }
      rewrite Hpre. cbn [fst snd parse_rank_st].
      rewrite (Hgood _ _ Ep). cbn [negb add bset_num].
      f_equal. f_equal. lia.
    + apply IH; [lia | lia | | ].
      * rewrite Hacc. f_equal. f_equal. lia.
      * intros j Hj. destruct (Z.eq_dec j f) as [->|]; [exact Ep | apply Hgap; lia].
Qed.

Lemma rank_text_parse (b : Board) (r : Z) (b0 : Board) :
  (forall i c, bpiece b i = Some c -> isNaN_char c = true) ->
  parse_rank r (rank_text b r) (Num 0) b0 = write_rank b r 8 0 b0.
Proof.
  intros Hgood. rewrite parse_rank_snd. unfold rank_text.
  rewrite (fen_rank_parse b r b0 8 Hgood 0 0 EmptyString b0); try reflexivity; lia.
Qed.

(** ** The whole board: printing, then parsing *)

Lemma bset_lookup (b : Board) (k i : Z) (v : Slot) :
  cells (bset b k v) !! i = if Z.eq_dec k i then Some v else cells b !! i.
Proof.
  unfold bset; cbn [cells].
  destruct (Z.eq_dec k i) as [->|Hne];
    [apply lookup_insert_eq | now apply lookup_insert_ne].
Qed.

Lemma bpiece_lookup (b : Board) (i : Z) (c : ascii) :
  bpiece b i = Some c <-> cells b !! i = Some (Some c).
Proof.
  unfold bpiece, bget.
  destruct (cells b !! i) as [[x|]|]; split; intros H; inversion H; reflexivity.
Qed.

Lemma write_rank_lookup (b : Board) (r : Z) (n : nat) :
  forall f b1 i,
    cells (write_rank b r n f b1) !! i
    = if (r * 8 + f <=? i) && (i <? r * 8 + f + Z.of_nat n)
      then match bpiece b i with
           | Some c => Some (Some c)
           | None => cells b1 !! i
           end
      else cells b1 !! i.
Proof.
  induction n as [|n IH]; intros f b1 i; cbn [write_rank].
  - destruct (Z.leb_spec (r * 8 + f) i), (Z.ltb_spec i (r * 8 + f + Z.of_nat 0));
      cbn [andb]; try reflexivity; lia.
  - rewrite IH.
    destruct (Z.leb_spec (r * 8 + (f + 1)) i),
             (Z.ltb_spec i (r * 8 + (f + 1) + Z.of_nat n)),
             (Z.leb_spec (r * 8 + f) i),
             (Z.ltb_spec i (r * 8 + f + Z.of_nat (S n)));
      cbn [andb]; try lia.
    + destruct (bpiece b i); [reflexivity|].
      destruct (bpiece b (r * 8 + f)); [|reflexivity].
      rewrite bset_lookup. destruct (Z.eq_dec _ _); [lia | reflexivity].
    + destruct (bpiece b (r * 8 + f)); [|reflexivity].
      rewrite bset_lookup. destruct (Z.eq_dec _ _); [lia | reflexivity].
    + assert (i = r * 8 + f) as -> by lia.
      destruct (bpiece b (r * 8 + f)); [|reflexivity].
      rewrite bset_lookup. destruct (Z.eq_dec _ _); [reflexivity | lia].
    + destruct (bpiece b (r * 8 + f)); [|reflexivity].
      rewrite bset_lookup. destruct (Z.eq_dec _ _); [lia | reflexivity].
Qed.

Lemma write_rank_shape (b : Board) (r : Z) (n : nat) :
  forall f b1,
    blen b1 = 64 -> 0 <= r * 8 + f -> r * 8 + f + Z.of_nat n <= 64 ->
    blen (write_rank b r n f b1) = 64
    /\ nan_cell (write_rank b r n f b1) = nan_cell b1.
Proof.
  induction n as [|n IH]; intros f b1 Hl H0 H1; cbn [write_rank]; [easy|].
  destruct (bpiece b (r * 8 + f)).
  - destruct (IH (f + 1) (bset b1 (r * 8 + f) (Some a))) as [E1 E2]; try lia.
    + unfold bset; cbn [blen]. rewrite Hl.
      destruct (Z.leb_spec 64 (r * 8 + f)); lia.
    + split; [exact E1 | exact E2].
  - apply IH; lia.
Qed.

Lemma write_ranks_lookup (b : Board) (n : nat) :
  forall r b0 i,
    cells (write_ranks b n r b0) !! i
    = if (r * 8 <=? i) && (i <? (r + Z.of_nat n) * 8)
      then match bpiece b i with
           | Some c => Some (Some c)
           | None => cells b0 !! i
           end
      else cells b0 !! i.
Proof.
  induction n as [|n IH]; intros r b0 i; cbn [write_ranks].
  - destruct (Z.leb_spec (r * 8) i), (Z.ltb_spec i ((r + Z.of_nat 0) * 8));
      cbn [andb]; try reflexivity; lia.
  - rewrite IH, write_rank_lookup.
    destruct (Z.leb_spec ((r + 1) * 8) i),
             (Z.ltb_spec i ((r + 1 + Z.of_nat n) * 8)),
             (Z.leb_spec (r * 8 + 0) i),
             (Z.ltb_spec i (r * 8 + 0 + Z.of_nat 8)),
             (Z.leb_spec (r * 8) i),
             (Z.ltb_spec i ((r + Z.of_nat (S n)) * 8));
      cbn [andb]; try lia; try reflexivity.
Qed.

Lemma write_ranks_shape (b : Board) (n : nat) :
  forall r b0,
    blen b0 = 64 -> 0 <= r -> r + Z.of_nat n <= 8 ->
    blen (write_ranks b n r b0) = 64
    /\ nan_cell (write_ranks b n r b0) = nan_cell b0.
Proof.
  induction n as [|n IH]; intros r b0 Hl H0 H1; cbn [write_ranks]; [easy|].
  destruct (write_rank_shape b r 8 0 b0 Hl ltac:(lia) ltac:(lia)) as [E1 E2].
  destruct (IH (r + 1) (write_rank b r 8 0 b0) E1 ltac:(lia) ltac:(lia)) as [E3 E4].
  split; [exact E3 | congruence].
Qed.

Lemma filled_null_lookup (i : Z) :
  cells (filled_null 64) !! i = if (0 <=? i) && (i <? 64) then Some None else None.
Proof.
  unfold filled_null; cbn [cells].
  destruct (Z.leb_spec 0 i), (Z.ltb_spec i 64); cbn [andb].
  - apply elem_of_list_to_map_1'.
    + intros y Hy. apply list_elem_of_In, in_map_iff in Hy as (k & [= _ <-] & _).
      reflexivity.
    + apply list_elem_of_In, in_map_iff. exists (Z.to_nat i).
      split; [f_equal; lia | apply in_seq; lia].
  - apply not_elem_of_list_to_map_1. intros Hin.
    apply list_elem_of_fmap in Hin as ([k v] & -> & Hin).
    apply list_elem_of_In, in_map_iff in Hin as (j & [= <- _] & Hj).
    apply in_seq in Hj. cbn in *. lia.
  - apply not_elem_of_list_to_map_1. intros Hin.
    apply list_elem_of_fmap in Hin as ([k v] & -> & Hin).
    apply list_elem_of_In, in_map_iff in Hin as (j & [= <- _] & Hj).
    cbn in *. lia.
  - lia.
Qed.

Lemma board_ext (a b : Board) :
  cells a = cells b -> blen a = blen b -> nan_cell a = nan_cell b -> a = b.
Proof. destruct a, b; cbn; intros -> -> ->; reflexivity. Qed.

(** Writing all eight ranks of a well-shaped board into a fresh array of
    64 nulls rebuilds the board. *)
Lemma write_ranks_rebuilds (b : Board) :
  board_shape b -> write_ranks b 8 0 (filled_null 64) = b.
Proof.
  intros (Hl & Hn & Hin & Hout & _).
  destruct (write_ranks_shape b 8 0 (filled_null 64) eq_refl ltac:(lia) ltac:(lia))
    as [E1 E2].
  apply board_ext; [| congruence | now rewrite E2, Hn].
  apply map_eq. intros i.
  rewrite write_ranks_lookup, filled_null_lookup.
  destruct (Z.leb_spec (0 * 8) i), (Z.ltb_spec i ((0 + Z.of_nat 8) * 8)),
           (Z.leb_spec 0 i), (Z.ltb_spec i 64); cbn [andb]; try lia.
  - destruct (Hin i ltac:(lia)) as [v Hv].
    unfold bpiece, bget. rewrite Hv. now destruct v.
  - destruct (cells b !! i) as [v|] eqn:Ev; [|reflexivity].
    specialize (Hout i ltac:(eauto)). lia.
  - destruct (cells b !! i) as [v|] eqn:Ev; [|reflexivity].
    specialize (Hout i ltac:(eauto)). lia.
Qed.

Lemma fen_rank_no_char (c : ascii) (b : Board) (r : Z) (n : nat) :
  is_digit c = false -> ascii_eqb "-" c = false ->
  (forall i p, bpiece b i = Some p -> ascii_eqb p c = false) ->
  forall f e acc,
    has_char c acc = false -> has_char c (fen_rank b r n f e acc) = false.
Proof.
  intros Hd Hm Hp.
  assert (Hcount : forall e acc, has_char c acc = false ->
            has_char c (if 0 <? e then acc +:+ toString (Num e) else acc) = false).
  { intros e acc Ha. destruct (0 <? e); [|exact Ha].
    now rewrite has_char_app, Ha, toString_no_char. }
  induction n as [|n IH]; intros f e acc Ha; cbn [fen_rank].
  - now apply Hcount.
  - destruct (bpiece b (r * 8 + f)) as [p|] eqn:Ep; [|now apply IH].
    apply IH. rewrite has_char_app, Hcount by exact Ha.
    cbn [has_char orb]. now rewrite (Hp _ _ Ep).
Qed.

(** The placement field is the eight rank texts joined by slashes, rank 8
    first. *)
Lemma fen_ranks_join (b : Board) :
  fen_ranks b 8 7 EmptyString
  = rank_text b 7 +:+ String "/" (rank_text b 6 +:+ String "/" (rank_text b 5
    +:+ String "/" (rank_text b 4 +:+ String "/" (rank_text b 3 +:+ String "/"
    (rank_text b 2 +:+ String "/" (rank_text b 1 +:+ String "/" (rank_text b 0))))))).
Proof.
  unfold rank_text. cbn [fen_ranks].
  change (7 - 1) with 6. change (6 - 1) with 5. change (5 - 1) with 4.
  change (4 - 1) with 3. change (3 - 1) with 2. change (2 - 1) with 1.
  change (1 - 1) with 0.
  change (negb (0 =? 0)) with false.
  repeat match goal with
         | |- context [negb (?a =? 0)] => change (negb (a =? 0)) with true
         end.
  cbv iota.
  repeat (rewrite (fen_rank_acc b _ 8 0 0 (_ +:+ _))).
  repeat rewrite append_assoc.
  repeat rewrite append_cons, append_nil_l.
  reflexivity.
Qed.

Lemma parse_ranks_write (b : Board) (ranks : list string) (n : nat) :
  (forall i c, bpiece b i = Some c -> isNaN_char c = true) ->
  forall r b0,
    (forall r', r <= r' < r + Z.of_nat n ->
                ranks !! Z.to_nat (7 - r') = Some (rank_text b r')) ->
    parse_ranks ranks n r b0 = Some (write_ranks b n r b0).
Proof.
  intros Hgood. induction n as [|n IH]; intros r b0 Hr; cbn [parse_ranks write_ranks];
    [reflexivity|].
  rewrite (Hr r) by lia. rewrite rank_text_parse by exact Hgood.
  apply IH. intros r' Hr'. apply Hr. lia.
Qed.

Lemma shape_pieces (b : Board) :
  board_shape b ->
  forall i c, bpiece b i = Some c ->
    isNaN_char c = true /\ ascii_eqb c "/" = false /\ ascii_eqb c " " = false.
Proof.
  intros (_ & _ & _ & _ & Hc) i c Hp. apply bpiece_lookup in Hp.
  destruct (Hc i c Hp) as [H1 H2]. split; [exact H1 | split; [exact H2|]].
  destruct (ascii_eqb c " ") eqn:E; [|reflexivity].
  apply Ascii.eqb_eq in E. subst c. discriminate H1.
Qed.

Lemma rank_text_no_char (c : ascii) (b : Board) (r : Z) :
  is_digit c = false -> ascii_eqb "-" c = false ->
  (forall i p, bpiece b i = Some p -> ascii_eqb p c = false) ->
  has_char c (rank_text b r) = false.
Proof. intros Hd Hm Hp. unfold rank_text. now apply fen_rank_no_char. Qed.

(** The placement field that [generateFEN] prints for a well-shaped board
    parses back to that board. *)
Lemma board_part_parse (b : Board) :
  board_shape b ->
  parse_ranks (split "/" (fen_ranks b 8 7 EmptyString)) 8 0 (filled_null 64) = Some b.
Proof.
  intros Hs.
  assert (Hno : forall r, has_char "/" (rank_text b r) = false).
  { intros r. apply rank_text_no_char; try reflexivity.
    intros i p Hp. now destruct (shape_pieces b Hs i p Hp) as (_ & H & _). }
  rewrite fen_ranks_join.
  rewrite !split_app by apply Hno. rewrite split_no_sep by apply Hno.
  rewrite (parse_ranks_write b).
  - now rewrite write_ranks_rebuilds.
  - intros i c Hp. now destruct (shape_pieces b Hs i c Hp) as (H & _).
  - intros r' Hr'.
    assert (C : r' = 0 \/ r' = 1 \/ r' = 2 \/ r' = 3 \/ r' = 4 \/ r' = 5 \/ r' = 6
                \/ r' = 7) by lia.
    repeat (destruct C as [-> | C]; [reflexivity|]). subst r'. reflexivity.
Qed.

Lemma board_part_no_space (b : Board) :
  board_shape b -> has_char " " (fen_ranks b 8 7 EmptyString) = false.
Proof.
  intros Hs.
  assert (Hno : forall r, has_char " " (rank_text b r) = false).
  { intros r. apply rank_text_no_char; try reflexivity.
    intros i p Hp. now destruct (shape_pieces b Hs i p Hp) as (_ & _ & H). }
  rewrite fen_ranks_join.
  repeat (rewrite has_char_app, Hno; cbn [has_char orb];
          replace (ascii_eqb "/" " ") with false by reflexivity; cbn [orb]).
  apply Hno.
Qed.

(** ** The other fields *)

Lemma castling_roundtrip (c : Castling) :
  has_char " " (castlingRights c) = false
  /\ (if negb (String.eqb (castlingRights c) "") && negb (String.eqb (castlingRights c) "-")
      then parse_castling (castlingRights c)
             {| cK := false; cQ := false; ck := false; cq := false |}
      else {| cK := false; cQ := false; ck := false; cq := false |}) = c.
Proof. destruct c as [[] [] [] []]; vm_compute; split; reflexivity. Qed.

Lemma ep_field_checked :
  forallb ep_field_check (map Z.of_nat (seq 0 72)) = true.
Proof. vm_compute; reflexivity. Qed.

Lemma ep_roundtrip (i : Z) :
  0 <= i < 72 ->
  has_char " " (indexToSquare (Num i)) = false
  /\ String.eqb (indexToSquare (Num i)) "-" = false
  /\ squareToIndex (indexToSquare (Num i)) = Num i.
Proof.
  intros Hi. pose proof ep_field_checked as H.
  rewrite forallb_forall in H.
  specialize (H i). unfold ep_field_check in H.
  assert (Hin : In i (map Z.of_nat (seq 0 72))).
  { apply in_map_iff. exists (Z.to_nat i). split; [lia | apply in_seq; lia]. }
  specialize (H Hin).
  apply andb_true_iff in H as [H H3]. apply andb_true_iff in H as [H1 H2].
  apply negb_true_iff in H1, H2. split; [exact H1 | split; [exact H2|]].
  unfold jsnum_eqb in H3. destruct (squareToIndex _) as [z|]; [|discriminate].
  apply Z.eqb_eq in H3. now subst.
Qed.

(** ** The codec round trip on a well-shaped position *)

Lemma generateFEN_fields (p : State) :
  board_shape (board p) ->
  ep_ok (enPassant p) = true ->
  clock_ok (halfmove p) = true ->
  clock_ok (fullmove p) = true ->
  split " " (generateFEN p)
  = [fen_ranks (board p) 8 7 EmptyString;
     if whiteToMove p then "w" else "b";
     castlingRights (castling p);
     if jsnum_eqb (enPassant p) (Num (-1)) then "-" else indexToSquare (enPassant p);
     toString (halfmove p);
     toString (fullmove p)]%string.
Proof.
  intros Hs He Hh Hf. unfold generateFEN.
  rewrite !append_cons, !append_nil_l.
  rewrite split_app by now apply board_part_no_space.
  rewrite split_app by now destruct (whiteToMove p).
  rewrite split_app by apply castling_roundtrip.
  rewrite split_app.
  2:{ destruct (enPassant p) as [i|]; [|discriminate He].
      cbn [ep_ok] in He. apply andb_true_iff in He as [H1 H2].
      apply Z.leb_le in H1. apply Z.ltb_lt in H2.
      cbn [jsnum_eqb]. destruct (Z.eqb_spec i (-1)); [reflexivity|].
      apply ep_roundtrip. lia. }
  rewrite split_app.
  2:{ destruct (halfmove p); [|discriminate Hh]. now apply toString_no_char. }
  rewrite split_no_sep.
  2:{ destruct (fullmove p); [|discriminate Hf]. now apply toString_no_char. }
  reflexivity.
Qed.

Lemma or_default_toString (z : Z) (d : string) :
  or_default (Some (toString (Num z))) d = toString (Num z).
Proof. destruct (toString_not_empty z) as (c & r & ->). reflexivity. Qed.

Lemma state_roundtrip (p : State) :
  board_shape (board p) ->
  ep_ok (enPassant p) = true ->
  clock_ok (halfmove p) = true ->
  clock_ok (fullmove p) = true ->
  fenToState (generateFEN p) = Some p.
Proof.
  intros Hs He Hh Hf. unfold fenToState.
  rewrite (generateFEN_fields p Hs He Hh Hf). cbn [lookup list_lookup].
  rewrite (board_part_parse _ Hs).
  destruct (castling_roundtrip (castling p)) as [_ ->].
  destruct p as [b wtm c ep hm fm]; cbn [board whiteToMove castling enPassant
                                            halfmove fullmove] in *.
  destruct hm as [h|]; [|discriminate Hh]. destruct fm as [f|]; [|discriminate Hf].
  rewrite !or_default_toString, !parseInt_toString.
  destruct ep as [i|]; [|discriminate He].
  cbn [ep_ok] in He. apply andb_true_iff in He as [H1 H2].
  apply Z.leb_le in H1. apply Z.ltb_lt in H2.
  cbn [jsnum_eqb]. destruct (Z.eqb_spec i (-1)) as [->|Hne].
  - now destruct wtm.
  - destruct (ep_roundtrip i ltac:(lia)) as (_ & -> & ->).
    now destruct wtm.
Qed.

(** ** What the parser guarantees *)

Lemma split_aux_elems (sep : ascii) (s : string) :
  forall cur,
    (forall x, has_char sep x = false -> has_char sep (cur x) = false) ->
    forall y, In y (split_aux sep s cur) -> has_char sep y = false.
Proof.
  induction s as [|c r IH]; intros cur Hcur y Hy; cbn [split_aux] in Hy.
  - destruct Hy as [<-|[]]. now apply Hcur.
  - destruct (ascii_eqb c sep) eqn:E.
    + destruct Hy as [<-|Hy]; [now apply Hcur|].
      apply (IH (fun x => x)); [auto | exact Hy].
    + apply (IH (fun x => cur (String c x))); [|exact Hy].
      intros x Hx. apply Hcur. cbn [has_char]. now rewrite E, Hx.
Qed.

Lemma split_elems (sep : ascii) (s y : string) :
  In y (split sep s) -> has_char sep y = false.
Proof. apply split_aux_elems. auto. Qed.

Lemma parseInt_char_ok (c : ascii) : file_ok (parseInt (String c EmptyString)).
Proof.
  destruct c as [[] [] [] [] [] [] [] []]; vm_compute; try exact I; discriminate.
Qed.

Lemma file_ok_add (a b : jsnum) : file_ok a -> file_ok b -> file_ok (add a b).
Proof. destruct a, b; cbn; try easy. lia. Qed.

Lemma parser_inv_bset (b : Board) (i : Z) (c : ascii) :
  parser_inv b -> 0 <= i -> isNaN_char c = true -> ascii_eqb c "/" = false ->
  parser_inv (bset b i (Some c)).
Proof.
  intros (H1 & H2 & H3) Hi Hc Hs. split; [|split].
  - intros j Hj. rewrite bset_lookup. destruct (Z.eq_dec i j); [eauto | now apply H1].
  - intros j Hj. rewrite bset_lookup in Hj. unfold bset; cbn [blen].
    destruct (Z.eq_dec i j) as [->|Hne].
    + destruct (Z.leb_spec (blen b) j); lia.
    + apply H2 in Hj. destruct (Z.leb_spec (blen b) i); lia.
  - intros j x Hj. rewrite bset_lookup in Hj.
    destruct (Z.eq_dec i j); [|now apply H3 in Hj].
    injection Hj as <-. split; [exact Hc | exact Hs].
Qed.

Lemma parse_rank_inv (r : Z) (s : string) :
  0 <= r -> has_char "/" s = false ->
  forall file b, file_ok file -> parser_inv b -> parser_inv (parse_rank r s file b).
Proof.
  intros Hr. induction s as [|c rest IH]; intros Hs file b Hf Hb; cbn [parse_rank];
    [exact Hb|].
  cbn [has_char] in Hs. apply orb_false_iff in Hs as [Hc Hrest].
  destruct (isNaN_char c) eqn:E; cbn [negb].
  - apply IH; [exact Hrest | apply file_ok_add; [exact Hf | cbn; lia] |].
    destruct file as [f|]; cbn [add bset_num].
    + apply parser_inv_bset; [exact Hb | cbn in Hf; lia | exact E | exact Hc].
    + exact Hb.
  - apply IH; [exact Hrest | | exact Hb].
    apply file_ok_add; [exact Hf | apply parseInt_char_ok].
Qed.

Lemma parse_ranks_inv (ranks : list string) (n : nat) :
  (forall y, In y ranks -> has_char "/" y = false) ->
  forall r b b', 0 <= r -> parser_inv b ->
    parse_ranks ranks n r b = Some b' -> parser_inv b'.
Proof.
  intros Hranks. induction n as [|n IH]; intros r b b' Hr Hb; cbn [parse_ranks].
  - now intros [= <-].
  - destruct (ranks !! Z.to_nat (7 - r)) as [s|] eqn:E; [|discriminate].
    apply IH; [lia|].
    apply parse_rank_inv; [exact Hr | | cbn; lia | exact Hb].
    apply Hranks. apply list_elem_of_In. eapply list_elem_of_lookup_2. exact E.
Qed.

Lemma filled_null_inv : parser_inv (filled_null 64).
Proof.
  split; [|split].
  - intros i Hi. rewrite filled_null_lookup.
    destruct (Z.leb_spec 0 i), (Z.ltb_spec i 64); cbn [andb]; eauto; lia.
  - intros i Hi. rewrite filled_null_lookup in Hi. cbn [filled_null blen].
    destruct (Z.leb_spec 0 i), (Z.ltb_spec i 64); cbn [andb] in Hi;
      try lia; now destruct Hi.
  - intros i c Hi. rewrite filled_null_lookup in Hi.
    destruct ((0 <=? i) && (i <? 64)); discriminate.
Qed.

Lemma fenToState_board (text : string) (p : State) :
  fenToState text = Some p -> parser_inv (board p).
Proof.
  unfold fenToState.
  destruct (split " " text !! 0%nat) as [bp|]; [|discriminate].
  destruct (parse_ranks (split "/" bp) 8 0 (filled_null 64)) as [b|] eqn:E;
    [|discriminate].
  destruct (split " " text !! 3%nat) as [ep|]; [|discriminate].
  intros [= <-]. cbn [board].
  eapply parse_ranks_inv; [| | apply filled_null_inv | exact E]; [|lia].
  intros y Hy. now apply split_elems in Hy.
Qed.

(** A parsed board that still has length 64 and no "NaN" property is
    well shaped. *)
Lemma parsed_board_shape (text : string) (p : State) :
  fenToState text = Some p ->
  blen (board p) = 64 -> nan_cell (board p) = None ->
  board_shape (board p).
Proof.
  intros Hp Hl Hn. destruct (fenToState_board text p Hp) as (H1 & H2 & H3).
  split; [exact Hl | split; [exact Hn | split; [exact H1 | split; [|exact H3]]]].
  intros i Hi. apply H2 in Hi. lia.
Qed.

(** C3 as stated fails.  The parser accepts a first rank that runs past
    the h-file and writes the extra pawn at index 64, growing the board to
    65 slots; [generateFEN] prints only the slots 0..63, so parsing its
    output gives a 64-slot board, not the position printed. *)
Lemma overlong_rank_not_restored :
  exists p,
    fenToState overlong_fen = Some p
    /\ blen (board p) = 65
    /\ bget (board p) 64 = Some (Some "p"%char)
    /\ fenToState (generateFEN p) <> Some p.
Proof.
  exists (position_of overlong_fen). conjs; try by_eval.
  intros E.
  apply (f_equal (option_map (fun s => blen (board s)))) in E.
  vm_compute in E. discriminate E.
Qed.

(** C3, amended.  For every position [p] produced by the parser whose
    board still has exactly 64 slots and no stray "NaN" property, whose
    en-passant target is [-1] or an index from 0 to 71, and whose halfmove
    clock and fullmove counter are integers of magnitude below 2^53,
    parsing the text that [generateFEN] prints for [p] gives [p] back,
    equal in every field. *)
Theorem fen_roundtrip (text : string) (p : State) :
  fenToState text = Some p ->
  blen (board p) = 64 ->
  nan_cell (board p) = None ->
  ep_ok (enPassant p) = true ->
  clock_ok (halfmove p) = true ->
  clock_ok (fullmove p) = true ->
  fenToState (generateFEN p) = Some p.
Proof.
  intros Hp Hl Hn He Hh Hf.
  apply state_roundtrip; try assumption.
  exact (parsed_board_shape text p Hp Hl Hn).
Qed.

Lemma fen_roundtrip_witness :
  fenToState (generateFEN (position_of after_e4_fen)) = Some (position_of after_e4_fen).
Proof.
  apply (fen_roundtrip after_e4_fen (position_of after_e4_fen));
    vm_compute; reflexivity.
Defined.

(** ** Make and unmake: the moves that are restored *)

Lemma add_sub_one (x : jsnum) : sub (add x (Num 1)) (Num 1) = x.
Proof. destruct x as [z|]; cbn; [f_equal; lia | reflexivity]. Qed.

Lemma bset_blen (b : Board) (i : Z) (v : Slot) :
  blen (bset b i v) = Z.max (blen b) (i + 1).
Proof. unfold bset; cbn [blen]. destruct (Z.leb_spec (blen b) i); lia. Qed.

(** The scalar fields come back whatever the move; only the board depends
    on it. *)
Lemma make_undo_fields (p : State) (m : Move) :
  whiteToMove (make_then_undo p m) = whiteToMove p
  /\ castling (make_then_undo p m) = castling p
  /\ enPassant (make_then_undo p m) = enPassant p
  /\ halfmove (make_then_undo p m) = halfmove p
  /\ fullmove (make_then_undo p m) = fullmove p.
Proof.
  unfold make_then_undo, makeMove, undoMove.
  cbn [whiteToMove castling enPassant halfmove fullmove u_castling u_enPassant
       u_halfmove u_fullmove].
  rewrite !negb_involutive.
  conjs; try reflexivity.
  destruct (whiteToMove p); [apply add_sub_one | reflexivity].
Qed.

Lemma state_ext (p q : State) :
  board p = board q -> whiteToMove p = whiteToMove q -> castling p = castling q ->
  enPassant p = enPassant q -> halfmove p = halfmove q -> fullmove p = fullmove q ->
  p = q.
Proof. destruct p, q; cbn; intros; subst; reflexivity. Qed.

(** Ordinary moves, captures, double pushes and promotions are restored
    exactly, provided the move record matches the board: the moving piece
    stands on [from], and [to] holds the captured piece, or [null] when
    nothing is captured. *)
Lemma make_undo_restores (p : State) (m : Move) :
  has_flag m FEnpassant = false -> has_flag m FCastle = false ->
  from m <> to m ->
  from m < blen (board p) -> to m < blen (board p) ->
  bget (board p) (from m) = Some (Some (piece m)) ->
  bget (board p) (to m) = Some (capture m) ->
  make_then_undo p m = p.
Proof.
  intros Hep Hca Hne Hf Ht Bf Bt.
  destruct (make_undo_fields p m) as (E1 & E2 & E3 & E4 & E5).
  apply state_ext; try assumption.
  unfold make_then_undo, makeMove, undoMove. cbn [board u_move u_captured].
  rewrite Hep, Hca. cbn [negb].
  unfold bget in Bf, Bt.
  apply board_ext.
  - apply map_eq. intros i.
    destruct (capture m) as [cp|], (promotion m) as [pr|];
      rewrite ?bset_lookup;
      repeat (destruct (Z.eq_dec _ _)); subst;
      first [congruence | symmetry; assumption | reflexivity].
  - destruct (capture m) as [cp|], (promotion m) as [pr|];
      rewrite !bset_blen; lia.
  - destruct (capture m) as [cp|], (promotion m) as [pr|]; reflexivity.
Qed.

Lemma flag_castle_not_enpassant (m : Move) :
  has_flag m FCastle = true -> has_flag m FEnpassant = false.
Proof. unfold has_flag. now destruct (flag m) as [[]|]. Qed.

Lemma flag_enpassant_not_castle (m : Move) :
  has_flag m FEnpassant = true -> has_flag m FCastle = false.
Proof. unfold has_flag. now destruct (flag m) as [[]|]. Qed.

(** Castle moves are restored exactly when king and rook stand on their
    home squares with the squares they cross empty. *)
Lemma make_undo_castle (p : State) (m : Move) :
  has_flag m FCastle = true -> capture m = None ->
  64 <= blen (board p) ->
  castle_ready (board p) m ->
  make_then_undo p m = p.
Proof.
  intros Hca Hcap Hl (Bf & Bt & Hside).
  destruct (make_undo_fields p m) as (E1 & E2 & E3 & E4 & E5).
  apply state_ext; try assumption.
  unfold make_then_undo, makeMove, undoMove. cbn [board u_move u_captured].
  rewrite (flag_castle_not_enpassant m Hca), Hca, Hcap.
  unfold castle_rook, uncastle_rook, has_castle.
  unfold bget in *.
  destruct (castle m) as [[]|]; [| | | |contradiction];
    destruct Hside as (Ef & Et & B1 & B2); rewrite Ef, Et in *;
    cbn [side_eqb]; unfold a1, d1, e1, f1, g1, h1, c1, a8, d8, e8, f8, g8, h8, c8 in *;
    (apply board_ext;
     [ apply map_eq; intros i;
       destruct (promotion m); rewrite ?bset_lookup;
       repeat (destruct (Z.eq_dec _ _)); subst;
       first [lia | congruence | symmetry; assumption | reflexivity]
     | destruct (promotion m); rewrite !bset_blen; lia
     | destruct (promotion m); reflexivity ]).
Qed.

(** En passant is not: the square the captured pawn was taken from is
    left empty, because [undoMove] puts the pawn back on the far side of
    the target square. *)
Lemma make_undo_enpassant (p : State) (m : Move) :
  has_flag m FEnpassant = true ->
  from m <> (if whiteToMove p then to m - 8 else to m + 8) ->
  bget (board (make_then_undo p m)) (if whiteToMove p then to m - 8 else to m + 8)
  = Some None.
Proof.
  intros Hep Hne.
  unfold make_then_undo, makeMove, undoMove. cbn [board u_move u_captured whiteToMove].
  rewrite Hep, (flag_enpassant_not_castle m Hep), negb_involutive. cbn [negb].
  unfold bget.
  destruct (whiteToMove p), (capture m), (promotion m);
    rewrite ?bset_lookup;
    repeat (destruct (Z.eq_dec _ _)); subst;
    first [lia | congruence | reflexivity].
Qed.

Lemma enpassant_not_restored (p : State) (m : Move) (c : ascii) :
  has_flag m FEnpassant = true ->
  from m <> (if whiteToMove p then to m - 8 else to m + 8) ->
  bget (board p) (if whiteToMove p then to m - 8 else to m + 8) = Some (Some c) ->
  make_then_undo p m <> p.
Proof.
  intros Hep Hne Hc E.
  pose proof (make_undo_enpassant p m Hep Hne) as H.
  rewrite E in H. rewrite H in Hc. discriminate Hc.
Qed.

(** ** The legality filter on positions whose candidates are restored *)

Lemma side_of_white (p : State) : color_eqb (side_of p) White = whiteToMove p.
Proof. unfold side_of. now destruct (whiteToMove p). Qed.

Lemma filter_loop_restored (p : State) (moves : list Move) :
  Forall (fun m => make_then_undo p m = p) moves ->
  filter_loop (side_of p) moves p
  = (List.filter (fun m => negb (filter_test p m)) moves, p).
Proof.
  induction moves as [|m rest IH]; intros Hall; cbn [filter_loop List.filter];
    [reflexivity|].
  apply Forall_cons in Hall as [Hm Hrest].
  unfold make_then_undo in Hm. unfold filter_test.
  destruct (makeMove p m) as [s1 undo] eqn:Em. cbn [fst].
  rewrite Hm, (IH Hrest), side_of_white.
  now destruct (negb _).
Qed.

(** When every candidate is restored by make and unmake, [generateMoves]
    returns exactly the candidates after which the mover's king is not
    attacked by the colour [!state.whiteToMove] read after the move was
    made, which is the mover's own colour, and leaves the position as it
    was. *)
Lemma generateMoves_tests_own_colour (p : State) :
  Forall (fun m => make_then_undo p m = p) (candidateMoves p) ->
  generateMoves p
  = (List.filter
       (fun m => negb (isSquareAttacked (fst (makeMove p m))
                         (findKing (fst (makeMove p m)) (whiteToMove p))
                         (whiteToMove p)))
       (candidateMoves p), p).
Proof.
  intros Hall. unfold generateMoves. rewrite (filter_loop_restored p _ Hall).
  f_equal. apply List.filter_ext. intros m. unfold filter_test.
  now rewrite filter_tests_own_colour.
Qed.

(** ** Clones and the object store *)

Lemma alloc_spec (h : Heap) (o : Obj) (l : positive) (h' : Heap) :
  alloc h o = (l, h') -> h !! l = None /\ h' = <[l := o]> h.
Proof.
  unfold alloc. intros [= <- <-]. split; [|reflexivity].
  apply not_elem_of_dom. apply is_fresh.
Qed.

Lemma read_state_valid (h : Heap) (s : positive) (st : State) :
  read_state h s = Some st ->
  exists o, valid_state h s o
            /\ h !! o_board o = Some (OBoard (board st))
            /\ h !! o_castling o = Some (OCastling (castling st))
            /\ st = {| board := board st; whiteToMove := o_whiteToMove o;
                       castling := castling st; enPassant := o_enPassant o;
                       halfmove := o_halfmove o; fullmove := o_fullmove o |}.
Proof.
  unfold read_state, valid_state.
  destruct (h !! s) as [[| |o]|] eqn:Es; try discriminate.
  destruct (h !! o_board o) as [[b| |]|] eqn:Eb; try discriminate.
  destruct (h !! o_castling o) as [[|c|]|] eqn:Ec; try discriminate.
  intros [= <-]. exists o. cbn. eauto 10.
Qed.

Lemma read_state_intro (h : Heap) (s lb lc : positive) (st : State) :
  h !! s = Some (OState (with_fields lb lc st)) ->
  h !! lb = Some (OBoard (board st)) ->
  h !! lc = Some (OCastling (castling st)) ->
  read_state h s = Some st.
Proof.
  intros Hs Hb Hc. unfold read_state. rewrite Hs. cbn [with_fields o_board o_castling].
  rewrite Hb, Hc. now destruct st.
Qed.

(** The position a state object denotes depends only on the three
    objects it consists of. *)
Lemma read_state_frame (h h' : Heap) (s : positive) (o : StateObj) :
  valid_state h s o ->
  h' !! s = h !! s -> h' !! o_board o = h !! o_board o ->
  h' !! o_castling o = h !! o_castling o ->
  read_state h' s = read_state h s /\ valid_state h' s o.
Proof.
  intros (Hs & [b Hb] & [c Hc]) E1 E2 E3. split.
  - unfold read_state. rewrite E1, Hs, E2, E3. reflexivity.
  - unfold valid_state. rewrite E1, E2, E3. eauto.
Qed.

Lemma new_state_spec (h : Heap) (st : State) (ls : positive) (h' : Heap) :
  new_state h st = (ls, h') ->
  exists lb lc,
    h !! lb = None /\ h !! lc = None /\ h !! ls = None
    /\ h' !! ls = Some (OState (with_fields lb lc st))
    /\ h' !! lb = Some (OBoard (board st))
    /\ h' !! lc = Some (OCastling (castling st))
    /\ (forall l, h !! l <> None -> h' !! l = h !! l).
Proof.
  unfold new_state.
  destruct (alloc h (OBoard (board st))) as [lb h1] eqn:E1.
  destruct (alloc h1 (OCastling (castling st))) as [lc h2] eqn:E2.
  intros E3.
  apply alloc_spec in E1 as [F1 ->], E2 as [F2 ->], E3 as [F3 ->].
  assert (Hbc : lb <> lc) by (intros ->; rewrite lookup_insert_eq in F2; discriminate).
  assert (Hsc : lc <> ls) by (intros ->; rewrite lookup_insert_eq in F3; discriminate).
  rewrite lookup_insert_ne in F2 by exact Hbc.
  rewrite lookup_insert_ne in F3 by exact Hsc.
  assert (Hsb : lb <> ls) by (intros ->; rewrite lookup_insert_eq in F3; discriminate).
  rewrite lookup_insert_ne in F3 by exact Hsb.
  exists lb, lc. repeat lazymatch goal with |- _ /\ _ => split end; try assumption.
  - apply lookup_insert_eq.
  - rewrite lookup_insert_ne by congruence.
    rewrite lookup_insert_ne by congruence. apply lookup_insert_eq.
  - rewrite lookup_insert_ne by congruence. apply lookup_insert_eq.
  - intros l Hl. rewrite !lookup_insert_ne by congruence. reflexivity.
Qed.

(** The addresses of objects of different kinds differ. *)
Ltac kinds :=
  let E := fresh "E" in
  intros E; congruence.

(** [makeMove] on the clone: the clone takes the value [makeMove]
    computes, and the other state object keeps its value. *)
Lemma makeMoveH_frame (h : Heap) (s c : positive) (stc : State) (m : Move) :
  separate h s c -> read_state h c = Some stc ->
  exists h',
    makeMoveH h c m = Some (snd (makeMove stc m), h')
    /\ read_state h' c = Some (fst (makeMove stc m))
    /\ read_state h' s = read_state h s
    /\ separate h' s c.
Proof.
  intros (os & oc & Vs & Vc & Nsc & Nb & Nc) Hc.
  pose proof Vs as (Hs & [bs Hbs] & [cs Hcs]).
  pose proof Vc as (Hoc & [bc Hbc] & [cc Hcc]).
  unfold makeMoveH. rewrite Hoc, Hc.
  destruct (makeMove stc m) as [st' undo] eqn:Em. cbn [fst snd].
  eexists. split; [reflexivity|].
  set (h' := <[c := _]> (<[o_castling oc := _]> (<[o_board oc := _]> h))).
  assert (Kc : h' !! c = Some (OState (with_fields (o_board oc) (o_castling oc) st')))
    by apply lookup_insert_eq.
  assert (Kb : h' !! o_board oc = Some (OBoard (board st'))).
  { unfold h'. rewrite lookup_insert_ne by kinds.
    rewrite lookup_insert_ne by kinds. apply lookup_insert_eq. }
  assert (Kk : h' !! o_castling oc = Some (OCastling (castling st'))).
  { unfold h'. rewrite lookup_insert_ne by kinds. apply lookup_insert_eq. }
  assert (Fs : h' !! s = h !! s).
  { unfold h'. rewrite !lookup_insert_ne by (try congruence; kinds). reflexivity. }
  assert (Fb : h' !! o_board os = h !! o_board os).
  { unfold h'. rewrite !lookup_insert_ne by (try congruence; kinds). reflexivity. }
  assert (Fk : h' !! o_castling os = h !! o_castling os).
  { unfold h'. rewrite !lookup_insert_ne by (try congruence; kinds). reflexivity. }
  destruct (read_state_frame h h' s os Vs Fs Fb Fk) as [Rs Vs'].
  split; [exact (read_state_intro _ _ _ _ _ Kc Kb Kk)|].
  split; [exact Rs|].
  exists os, (with_fields (o_board oc) (o_castling oc) st').
  split; [exact Vs'|]. split; [|tauto].
  unfold valid_state. cbn [with_fields o_board o_castling]. eauto.
Qed.

(** [undoMove] on the clone: likewise, with the clone's castling object
    replaced by a new one. *)
Lemma undoMoveH_frame (h : Heap) (s c : positive) (stc : State) (u : Undo) :
  separate h s c -> read_state h c = Some stc ->
  exists h',
    undoMoveH h c u = Some h'
    /\ read_state h' c = Some (undoMove stc u)
    /\ read_state h' s = read_state h s
    /\ separate h' s c.
Proof.
  intros (os & oc & Vs & Vc & Nsc & Nb & Nc) Hc.
  pose proof Vs as (Hs & [bs Hbs] & [cs Hcs]).
  pose proof Vc as (Hoc & [bc Hbc] & [cc Hcc]).
  unfold undoMoveH. rewrite Hoc, Hc.
  destruct (alloc _ _) as [lc h2] eqn:Ea.
  apply alloc_spec in Ea as [Fr ->].
  eexists. split; [reflexivity|].
  set (st' := undoMove stc u) in *.
  assert (Nl : forall l x, h !! l = Some x -> lc <> l).
  { intros l x Hl E. subst l.
    destruct (decide (o_board oc = lc)) as [E|Hne].
    - rewrite E, lookup_insert_eq in Fr. discriminate.
    - rewrite lookup_insert_ne in Fr by exact Hne. congruence. }
  set (h' := <[c := _]> (<[lc := _]> (<[o_board oc := _]> h))).
  assert (Kc : h' !! c = Some (OState (with_fields (o_board oc) lc st')))
    by apply lookup_insert_eq.
  assert (Kb : h' !! o_board oc = Some (OBoard (board st'))).
  { unfold h'. rewrite lookup_insert_ne by kinds.
    rewrite lookup_insert_ne by (eapply Nl; eassumption). apply lookup_insert_eq. }
  assert (Kk : h' !! lc = Some (OCastling (castling st'))).
  { unfold h'. rewrite lookup_insert_ne by (apply not_eq_sym; eapply Nl; eassumption).
    apply lookup_insert_eq. }
  assert (Fs : h' !! s = h !! s).
  { unfold h'. rewrite lookup_insert_ne by congruence.
    rewrite lookup_insert_ne by (eapply Nl; eassumption).
    rewrite lookup_insert_ne by kinds. reflexivity. }
  assert (Fb : h' !! o_board os = h !! o_board os).
  { unfold h'. rewrite lookup_insert_ne by kinds.
    rewrite lookup_insert_ne by (eapply Nl; eassumption).
    rewrite lookup_insert_ne by congruence. reflexivity. }
  assert (Fk : h' !! o_castling os = h !! o_castling os).
  { unfold h'. rewrite lookup_insert_ne by kinds.
    rewrite lookup_insert_ne by (eapply Nl; eassumption).
    rewrite lookup_insert_ne by kinds. reflexivity. }
  destruct (read_state_frame h h' s os Vs Fs Fb Fk) as [Rs Vs'].
  split; [exact (read_state_intro _ _ _ _ _ Kc Kb Kk)|].
  split; [exact Rs|].
  exists os, (with_fields (o_board oc) lc st').
  split; [exact Vs'|]. split.
  - unfold valid_state. cbn [with_fields o_board o_castling]. eauto.
  - cbn [with_fields o_board o_castling]. split; [exact Nsc|]. split; [exact Nb|].
    apply not_eq_sym. eapply Nl. exact Hcs.
Qed.

(** Any sequence of [makeMove] and [undoMove] calls on the clone runs,
    gives the clone the value the calls compute, and leaves the other
    state as it was. *)
Lemma run_ops_frame (ops : list Op) :
  forall (h : Heap) (s c : positive) (stc : State),
    separate h s c -> read_state h c = Some stc ->
    exists h',
      run_ops h c ops = Some h'
      /\ read_state h' c = Some (apply_ops stc ops)
      /\ read_state h' s = read_state h s.
Proof.
  induction ops as [|op rest IH]; intros h s c stc Hsep Hc; cbn [run_ops].
  - exists h. auto.
  - destruct op as [m|u]; cbn [run_op].
    + destruct (makeMoveH_frame h s c stc m Hsep Hc) as (h1 & -> & R1 & R2 & S1).
      cbn [option_map snd].
      destruct (IH h1 s c _ S1 R1) as (h2 & -> & R3 & R4).
      exists h2. split; [reflexivity|]. split; [exact R3 | congruence].
    + destruct (undoMoveH_frame h s c stc u Hsep Hc) as (h1 & -> & R1 & R2 & S1).
      destruct (IH h1 s c _ S1 R1) as (h2 & -> & R3 & R4).
      exists h2. split; [reflexivity|]. split; [exact R3 | congruence].
Qed.

(** The clone is made of new objects. *)
Lemma cloneStateH_separate (h : Heap) (s c : positive) (st : State) (h1 : Heap) :
  read_state h s = Some st -> cloneStateH h s = Some (c, h1) ->
  read_state h1 c = Some (cloneState st)
  /\ read_state h1 s = Some st
  /\ separate h1 s c.
Proof.
  intros Hs. unfold cloneStateH. rewrite Hs. intros Hn'.
  assert (Hn : new_state h (cloneState st) = (c, h1)) by congruence.
  clear Hn'.
  destruct (read_state_valid h s st Hs) as (os & Vs & Hb & Hk & _).
  pose proof Vs as (Hos & _ & _).
  destruct (new_state_spec h (cloneState st) c h1 Hn)
    as (lb & lc & Fb & Fk & Fc & Kc & Kb & Kk & Hold).
  assert (Es : h1 !! s = h !! s) by (apply Hold; congruence).
  assert (Eb : h1 !! o_board os = h !! o_board os) by (apply Hold; congruence).
  assert (Ek : h1 !! o_castling os = h !! o_castling os) by (apply Hold; congruence).
  destruct (read_state_frame h h1 s os Vs Es Eb Ek) as [Rs Vs'].
  split; [exact (read_state_intro _ _ _ _ _ Kc Kb Kk)|].
  split; [congruence|].
  exists os, (with_fields lb lc (cloneState st)).
  split; [exact Vs'|]. split.
  - unfold valid_state. cbn [with_fields o_board o_castling]. eauto.
  - cbn [with_fields o_board o_castling].
    split; [congruence|]. split; congruence.
Qed.

(** *** What [search] does to the state it is given *)

Lemma apply_ops_app (st : State) (a b : list Op) :
  apply_ops st (a ++ b) = apply_ops (apply_ops st a) b.
Proof. unfold apply_ops. apply fold_left_app. Qed.

Lemma filter_loop_ops (side : Color) (moves : list Move) :
  forall st, exists ops, snd (filter_loop side moves st) = apply_ops st ops.
Proof.
  induction moves as [|m rest IH]; intros st; cbn [filter_loop].
  - exists []. reflexivity.
  - destruct (makeMove st m) as [s1 undo] eqn:Em.
    destruct (IH (undoMove s1 undo)) as [ops Hops].
    destruct (filter_loop side rest (undoMove s1 undo)) as [legal s3].
    cbn [snd] in *. exists (OpMake m :: OpUndo undo :: ops).
    unfold apply_ops in *. cbn [fold_left apply_op]. now rewrite Em.
Qed.

Lemma max_loop_ops (rec : State -> ext -> ext -> option (SearchResult * State)) :
  (forall s a b r s', rec s a b = Some (r, s') -> exists ops, s' = apply_ops s ops) ->
  forall moves st alpha beta bs bm r st',
    max_loop rec moves st alpha beta bs bm = Some (r, st') ->
    exists ops, st' = apply_ops st ops.
Proof.
  intros Hrec. induction moves as [|m rest IH]; intros st alpha beta bs bm r st';
    cbn [max_loop].
  - intros [= _ <-]. exists []. reflexivity.
  - destruct (makeMove st m) as [s1 undo] eqn:Em.
    destruct (rec s1 alpha beta) as [[res s1']|] eqn:Er; [|discriminate].
    destruct (Hrec _ _ _ _ _ Er) as [ops1 ->].
    assert (Hpre : undoMove (apply_ops s1 ops1) undo
                   = apply_ops st (OpMake m :: ops1 ++ [OpUndo undo])).
    { unfold apply_ops. cbn [fold_left apply_op]. rewrite Em. cbn [fst].
      now rewrite fold_left_app. }
    destruct (ext_leb _ _).
    + intros [= _ <-]. eexists. exact Hpre.
    + intros H. apply IH in H as [ops2 ->]. rewrite Hpre, <- apply_ops_app. eauto.
Qed.

Lemma min_loop_ops (rec : State -> ext -> ext -> option (SearchResult * State)) :
  (forall s a b r s', rec s a b = Some (r, s') -> exists ops, s' = apply_ops s ops) ->
  forall moves st alpha beta bs bm r st',
    min_loop rec moves st alpha beta bs bm = Some (r, st') ->
    exists ops, st' = apply_ops st ops.
Proof.
  intros Hrec. induction moves as [|m rest IH]; intros st alpha beta bs bm r st';
    cbn [min_loop].
  - intros [= _ <-]. exists []. reflexivity.
  - destruct (makeMove st m) as [s1 undo] eqn:Em.
    destruct (rec s1 alpha beta) as [[res s1']|] eqn:Er; [|discriminate].
    destruct (Hrec _ _ _ _ _ Er) as [ops1 ->].
    assert (Hpre : undoMove (apply_ops s1 ops1) undo
                   = apply_ops st (OpMake m :: ops1 ++ [OpUndo undo])).
    { unfold apply_ops. cbn [fold_left apply_op]. rewrite Em. cbn [fst].
      now rewrite fold_left_app. }
    destruct (ext_leb _ _).
    + intros [= _ <-]. eexists. exact Hpre.
    + intros H. apply IH in H as [ops2 ->]. rewrite Hpre, <- apply_ops_app. eauto.
Qed.

(** The state a [search] call leaves behind is the state it was given
    after some sequence of [makeMove] and [undoMove] calls: the search
    touches the position in no other way. *)
Lemma search_ops (fuel : nat) :
  forall st depth alpha beta r st',
    search fuel st depth alpha beta = Some (r, st') ->
    exists ops, st' = apply_ops st ops.
Proof.
  induction fuel as [|k IH]; intros st depth alpha beta r st'; cbn [search];
    [discriminate|].
  destruct (depth =? 0).
  - intros [= _ <-]. exists []. reflexivity.
  - unfold generateMoves.
    destruct (filter_loop_ops (side_of st) (candidateMoves st) st) as [ops0 H0].
    destruct (filter_loop _ _ _) as [moves st1]. cbn [snd] in H0. subst st1.
    destruct moves as [|mv rest].
    + destruct (isSquareAttacked _ _ _); intros [= _ <-]; eauto.
    + destruct (whiteToMove _); intros H.
      * eapply max_loop_ops in H as [ops1 ->];
          [rewrite <- apply_ops_app; eauto|].
        intros s a b r' s' Hs. eapply IH. exact Hs.
      * eapply min_loop_ops in H as [ops1 ->];
          [rewrite <- apply_ops_app; eauto|].
        intros s a b r' s' Hs. eapply IH. exact Hs.
Qed.

(** C9.  [cloneState] builds its result from new objects: the clone
    denotes the cloned position, and whatever sequence of [makeMove] and
    [undoMove] calls is applied to the clone, the calls run and every field
    of the original (board slots, side to move, castling flags, en-passant
    target, clocks) is as before.  The calls a [search] on the clone makes
    are such a sequence, so the search leaves the parsed state alone. *)
Theorem cloneState_shares_nothing (h : Heap) (s : positive) (st : State)
    (c : positive) (h1 : Heap) :
  read_state h s = Some st ->
  cloneStateH h s = Some (c, h1) ->
  read_state h1 c = Some (cloneState st)
  /\ (forall ops, exists h2,
        run_ops h1 c ops = Some h2
        /\ read_state h2 c = Some (apply_ops (cloneState st) ops)
        /\ read_state h2 s = Some st)
  /\ (forall fuel depth alpha beta r st',
        search fuel (cloneState st) depth alpha beta = Some (r, st') ->
        exists ops h2,
          run_ops h1 c ops = Some h2
          /\ read_state h2 c = Some st'
          /\ read_state h2 s = Some st).
Proof.
  intros Hs Hc.
  destruct (cloneStateH_separate h s c st h1 Hs Hc) as (Rc & Rs & Sep).
  assert (Hops : forall ops, exists h2,
            run_ops h1 c ops = Some h2
            /\ read_state h2 c = Some (apply_ops (cloneState st) ops)
            /\ read_state h2 s = Some st).
  { intros ops. destruct (run_ops_frame ops h1 s c _ Sep Rc) as (h2 & E & R1 & R2).
    exists h2. split; [exact E|]. split; [exact R1 | congruence]. }
  split; [exact Rc|]. split; [exact Hops|].
  intros fuel depth alpha beta r st' Hsearch.
  destruct (search_ops fuel _ _ _ _ _ _ Hsearch) as [ops ->].
  destruct (Hops ops) as (h2 & E & R1 & R2). eauto.
Qed.

Lemma cloneState_shares_nothing_witness :
  read_state (snd cloned_store) (fst cloned_store)
  = Some (cloneState (position_of start_fen))
  /\ (forall ops, exists h2,
        run_ops (snd cloned_store) (fst cloned_store) ops = Some h2
        /\ read_state h2 (fst cloned_store)
           = Some (apply_ops (cloneState (position_of start_fen)) ops)
        /\ read_state h2 (fst parsed_store) = Some (position_of start_fen))
  /\ (forall fuel depth alpha beta r st',
        search fuel (cloneState (position_of start_fen)) depth alpha beta
        = Some (r, st') ->
        exists ops h2,
          run_ops (snd cloned_store) (fst cloned_store) ops = Some h2
          /\ read_state h2 (fst cloned_store) = Some st'
          /\ read_state h2 (fst parsed_store) = Some (position_of start_fen)).
Proof.
  apply (cloneState_shares_nothing (snd parsed_store) (fst parsed_store)
           (position_of start_fen) (fst cloned_store) (snd cloned_store)).
  - vm_compute; reflexivity.
  - vm_compute; reflexivity.
Defined.

(** ** The shape of generated moves *)

Lemma empty_at_bpiece (b : Board) (i : Z) : empty_at b i = true -> bpiece b i = None.
Proof. unfold empty_at. now destruct (bpiece b i). Qed.

Lemma color_eqb_neq (x y : Color) : negb (color_eqb x y) = true -> x <> y.
Proof. destruct x, y; cbn; congruence. Qed.

Lemma recompose (idx : Z) : 0 <= idx -> idx = idx / 8 * 8 + Z.rem idx 8.
Proof.
  intros H. rewrite Z.rem_mod_nonneg by lia.
  pose proof (Z.div_mod idx 8 ltac:(lia)). lia.
Qed.

Lemma rem8_range (idx : Z) : 0 <= idx -> 0 <= Z.rem idx 8 < 8.
Proof. intros H. rewrite Z.rem_mod_nonneg by lia. apply Z.mod_pos_bound. lia. Qed.

Lemma addPawnMove_shape (from0 to0 : Z) (pc : ascii) (promo : bool)
    (cap : option ascii) (m : Move) :
  In m (addPawnMove from0 to0 pc promo cap) ->
  from m = from0 /\ to m = to0 /\ piece m = pc /\ capture m = cap
  /\ castle m = None
  /\ has_flag m FEnpassant = false /\ has_flag m FCastle = false
  /\ (promo = false -> promotion m = None /\ flag m = None)
  /\ (promo = true ->
      flag m = Some FPromotion
      /\ exists letter, In letter ["q"; "r"; "b"; "n"]%char
           /\ promotion m
              = Some (if ascii_eqb pc "P" then toUpperCase letter else letter)).
Proof.
  unfold addPawnMove. destruct promo.
  - intros H. apply in_map_iff in H as (letter & <- & Hl). cbn.
    repeat lazymatch goal with |- _ /\ _ => split end; try reflexivity;
      try discriminate.
    intros _. split; [reflexivity|]. exists letter. split; [exact Hl | reflexivity].
  - intros [<- | []]. cbn.
    repeat lazymatch goal with |- _ /\ _ => split end; try reflexivity;
      try discriminate.
    intros _. split; reflexivity.
Qed.

Lemma generatePawnMoves_shape (s : State) (idx : Z) (pc : ascii) (m : Move) :
  0 <= idx < 64 ->
  In m (generatePawnMoves s idx pc) ->
  plain_like (board s) idx pc m \/ enpassant_like s idx pc m.
Proof.
  intros Hidx. unfold generatePawnMoves.
  set (white := ascii_eqb pc "P").
  set (dir := if white then 8 else -8).
  assert (Hdir : dir = 8 \/ dir = -8) by (unfold dir; destruct white; auto).
  rewrite in_app_iff. intros [H | H].
  - (* pushes *)
    destruct (inBounds (idx + dir) && empty_at (board s) (idx + dir)) eqn:E;
      [|destruct H].
    apply andb_true_iff in E as [Eb Ee].
    unfold inBounds in Eb. apply andb_true_iff in Eb as [Eb1 Eb2].
    apply Z.leb_le in Eb1. apply Z.ltb_lt in Eb2.
    apply in_app_iff in H as [H | H].
    + apply addPawnMove_shape in H as (F & T & P & C & K & N1 & N2 & _).
      left. unfold plain_like. rewrite F, T, P, C, K, N1, N2.
      rewrite (empty_at_bpiece _ _ Ee).
      repeat lazymatch goal with |- _ /\ _ => split end; try reflexivity;
        try lia; try discriminate.
    + destruct ((idx / 8 =? (if white then 1 else 6))
                && empty_at (board s) (idx + dir * 2)) eqn:E2; [|destruct H].
      apply andb_true_iff in E2 as [Er Ee2]. apply Z.eqb_eq in Er.
      destruct H as [<- | []]. left. unfold plain_like. cbn.
      rewrite (empty_at_bpiece _ _ Ee2).
      repeat lazymatch goal with |- _ /\ _ => split end; try reflexivity;
        try discriminate; unfold dir in *; destruct white; try lia.
      * intros _. pose proof (Z.div_mod idx 8 ltac:(lia)).
        pose proof (Z.mod_pos_bound idx 8 ltac:(lia)). lia.
      * intros _. pose proof (Z.div_mod idx 8 ltac:(lia)).
        pose proof (Z.mod_pos_bound idx 8 ltac:(lia)). lia.
  - (* captures *)
    apply in_flat_map in H as (df & Hdf & H).
    assert (Hd : df = -1 \/ df = 1) by (destruct Hdf as [<-|[<-|[]]]; auto).
    destruct ((Z.rem idx 8 + df <? 0) || (7 <? Z.rem idx 8 + df)) eqn:Efile;
      [destruct H|].
    apply orb_false_iff in Efile as [Ef1 Ef2].
    apply Z.ltb_ge in Ef1. apply Z.ltb_ge in Ef2.
    apply in_app_iff in H as [H | H].
    + destruct (bpiece (board s) (idx + dir + df)) as [tp|] eqn:Et; [|destruct H].
      destruct (negb (color_eqb (pieceColor tp) (pieceColor pc))) eqn:Ec;
        [|destruct H].
      apply addPawnMove_shape in H as (F & T & P & C & K & N1 & N2 & _).
      left. unfold plain_like. rewrite F, T, P, C, K, N1, N2, Et.
      repeat lazymatch goal with |- _ /\ _ => split end; try reflexivity;
        try lia; try discriminate.
      intros c [= <-]. now apply color_eqb_neq.
    + destruct (jsnum_eqb (Num (idx + dir + df)) (enPassant s)) eqn:Ee;
        [|destruct H].
      destruct H as [<- | []]. right. unfold enpassant_like. cbn.
      unfold jsnum_eqb in Ee. destruct (enPassant s) as [e|]; [|discriminate].
      apply Z.eqb_eq in Ee. subst e.
      repeat lazymatch goal with |- _ /\ _ => split end; try reflexivity.
      fold white. fold dir. exists df. split; [exact Hd|]. split; [lia | reflexivity].
Qed.

Lemma free_or_enemy_shape (b : Board) (idx target : Z) (pc : ascii) :
  target <> idx -> 0 <= target < 64 ->
  free_or_enemy (bpiece b target) pc = true ->
  plain_like b idx pc (plain_move idx target pc (bpiece b target)).
Proof.
  intros Hne Hr Hf. unfold plain_like, plain_move. cbn.
  repeat lazymatch goal with |- _ /\ _ => split end; try reflexivity; try assumption.
  - intros _. exact Hr.
  - intros c Hc. rewrite Hc in Hf. cbn in Hf. now apply color_eqb_neq.
Qed.

Lemma generateJumpMoves_shape (s : State) (idx : Z) (pc : ascii) (m : Move) :
  In m (generateJumpMoves s idx pc KNIGHT_DELTAS) ->
  plain_like (board s) idx pc m.
Proof.
  unfold generateJumpMoves. intros H.
  apply in_flat_map in H as (delta & Hd & H).
  assert (Hnz : delta <> 0).
  { unfold KNIGHT_DELTAS in Hd. cbn in Hd. intuition lia. }
  destruct (inBounds (idx + delta)) eqn:Eb; cbn [negb] in H; [|destruct H].
  destruct (2 <? Z.abs (Z.rem (idx + delta) 8 - Z.rem idx 8)); [destruct H|].
  destruct (free_or_enemy _ _) eqn:Ef; [|destruct H].
  destruct H as [<- | []].
  unfold inBounds in Eb. apply andb_true_iff in Eb as [E1 E2].
  apply Z.leb_le in E1. apply Z.ltb_lt in E2.
  apply free_or_enemy_shape; [lia | lia | exact Ef].
Qed.

Lemma on_board_range (f r : Z) :
  on_board f r = true -> 0 <= f < 8 /\ 0 <= r < 8.
Proof.
  unfold on_board. intros H. repeat (apply andb_true_iff in H as [H ?]).
  repeat match goal with
         | H : (_ <=? _) = true |- _ => apply Z.leb_le in H
         | H : (_ <? _) = true |- _ => apply Z.ltb_lt in H
         end.
  lia.
Qed.

Lemma slide_ray_shape (b : Board) (idx : Z) (pc : ascii) (stepFile stepRank : Z)
    (m : Move) :
  0 <= idx ->
  ray_step stepFile stepRank ->
  forall fuel f r k,
    1 <= k -> f = Z.rem idx 8 + k * stepFile -> r = idx / 8 + k * stepRank ->
    In m (slide_ray fuel b idx pc f r stepFile stepRank) ->
    plain_like b idx pc m.
Proof.
  intros Hidx Hstep. induction fuel as [|n IH]; intros f r k Hk Hf Hr; cbn [slide_ray];
    [intros []|].
  destruct (on_board f r) eqn:Eo; [|intros []].
  apply on_board_range in Eo as [Rf Rr].
  pose proof (recompose idx Hidx) as Hrec.
  pose proof (rem8_range idx Hidx) as Hrem.
  assert (Hne : r * 8 + f <> idx).
  { destruct Hstep as [-> | [-> | [-> [-> | ->]]]]; lia. }
  destruct (bpiece b (r * 8 + f)) as [tp|] eqn:Et.
  - destruct (negb (color_eqb (pieceColor tp) (pieceColor pc))) eqn:Ec; [|intros []].
    intros [<- | []]. rewrite <- Et.
    apply free_or_enemy_shape; [exact Hne | lia |].
    rewrite Et. exact Ec.
  - intros [<- | H].
    + rewrite <- Et. apply free_or_enemy_shape; [exact Hne | lia |].
      now rewrite Et.
    + apply (IH _ _ (k + 1)) in H; [exact H | lia | lia | lia].
Qed.

Lemma generateSlideMoves_shape (s : State) (idx : Z) (pc : ascii)
    (deltas : list Z) (m : Move) :
  0 <= idx ->
  (forall d, In d deltas -> In d QUEEN_DELTAS) ->
  In m (generateSlideMoves s idx pc deltas) ->
  plain_like (board s) idx pc m.
Proof.
  intros Hidx Hsub. unfold generateSlideMoves. intros H.
  apply in_flat_map in H as (delta & Hd & H).
  apply Hsub in Hd.
  eapply (slide_ray_shape _ _ _ _ _ _ Hidx) with (k := 1) in H;
    [exact H | | lia | lia | lia].
  unfold QUEEN_DELTAS, BISHOP_DELTAS, ROOK_DELTAS in Hd. cbn in Hd.
  unfold ray_step.
  destruct Hd as [<- | [<- | [<- | [<- | [<- | [<- | [<- | [<- | []]]]]]]]];
    cbn; auto.
Qed.

Lemma generateKingMoves_shape (s : State) (idx : Z) (pc : ascii) (m : Move) :
  0 <= idx ->
  In m (generateKingMoves s idx pc) ->
  plain_like (board s) idx pc m \/ castle_like s idx pc m.
Proof.
  intros Hidx. unfold generateKingMoves. rewrite in_app_iff. intros [H | H].
  - left. apply in_flat_map in H as (dr & Hdr & H).
    apply in_flat_map in H as (df & Hdf & H).
    destruct ((dr =? 0) && (df =? 0)) eqn:Ez; [destruct H|].
    destruct ((Z.rem idx 8 + df <? 0) || (7 <? Z.rem idx 8 + df)
              || (idx / 8 + dr <? 0) || (7 <? idx / 8 + dr)) eqn:Eb; [destruct H|].
    destruct (free_or_enemy _ _) eqn:Ef; [|destruct H].
    destruct H as [<- | []].
    repeat (apply orb_false_iff in Eb as [Eb ?]).
    repeat match goal with
           | H : (_ <? _) = false |- _ => apply Z.ltb_ge in H
           end.
    pose proof (recompose idx Hidx) as Hrec.
    assert (Rdr : -1 <= dr <= 1) by (cbn in Hdr; intuition lia).
    assert (Rdf : -1 <= df <= 1) by (cbn in Hdf; intuition lia).
    apply andb_false_iff in Ez.
    apply free_or_enemy_shape; [| lia | exact Ef].
    destruct Ez as [Ez | Ez]; apply Z.eqb_neq in Ez; lia.
  - right. set (white := ascii_eqb pc "K") in *.
    apply in_app_iff in H as [H | H].
    + destruct (white && (idx =? e1)) eqn:Ew; [|destruct H].
      apply andb_true_iff in Ew as [Ew Ei]. apply Z.eqb_eq in Ei.
      apply Ascii.eqb_eq in Ew.
      apply in_app_iff in H as [H | H].
      * destruct (cK (castling s) && empty_at (board s) f1 && empty_at (board s) g1)
          eqn:E1; [|destruct H].
        destruct (negb (isSquareAttacked s idx false)
                  && negb (isSquareAttacked s f1 false)
                  && negb (isSquareAttacked s g1 false)) eqn:E2; [|destruct H].
        destruct H as [<- | []].
        repeat (apply andb_true_iff in E1 as [E1 ?]).
        repeat (apply andb_true_iff in E2 as [E2 ?]).
        repeat match goal with
               | H : negb _ = true |- _ => apply negb_true_iff in H
               end.
        subst idx. unfold castle_like, castle_move, unattacked3. cbn. tauto.
      * destruct (cQ (castling s) && empty_at (board s) d1 && empty_at (board s) c1
                  && empty_at (board s) b1) eqn:E1; [|destruct H].
        destruct (negb (isSquareAttacked s idx false)
                  && negb (isSquareAttacked s d1 false)
                  && negb (isSquareAttacked s c1 false)) eqn:E2; [|destruct H].
        destruct H as [<- | []].
        repeat (apply andb_true_iff in E1 as [E1 ?]).
        repeat (apply andb_true_iff in E2 as [E2 ?]).
        repeat match goal with
               | H : negb _ = true |- _ => apply negb_true_iff in H
               end.
        subst idx. unfold castle_like, castle_move, unattacked3. cbn. tauto.
    + destruct (negb white && (idx =? e8)) eqn:Ew; [|destruct H].
      apply andb_true_iff in Ew as [Ew Ei]. apply Z.eqb_eq in Ei.
      apply negb_true_iff in Ew.
      assert (Hpc : pc <> "K"%char).
      { intros ->. unfold white in Ew. discriminate Ew. }
      apply in_app_iff in H as [H | H].
      * destruct (ck (castling s) && empty_at (board s) f8 && empty_at (board s) g8)
          eqn:E1; [|destruct H].
        destruct (negb (isSquareAttacked s idx true)
                  && negb (isSquareAttacked s f8 true)
                  && negb (isSquareAttacked s g8 true)) eqn:E2; [|destruct H].
        destruct H as [<- | []].
        repeat (apply andb_true_iff in E1 as [E1 ?]).
        repeat (apply andb_true_iff in E2 as [E2 ?]).
        repeat match goal with
               | H : negb _ = true |- _ => apply negb_true_iff in H
               end.
        subst idx. unfold castle_like, castle_move, unattacked3. cbn. tauto.
      * destruct (cq (castling s) && empty_at (board s) d8 && empty_at (board s) c8
                  && empty_at (board s) b8) eqn:E1; [|destruct H].
        destruct (negb (isSquareAttacked s idx true)
                  && negb (isSquareAttacked s d8 true)
                  && negb (isSquareAttacked s c8 true)) eqn:E2; [|destruct H].
        destruct H as [<- | []].
        repeat (apply andb_true_iff in E1 as [E1 ?]).
        repeat (apply andb_true_iff in E2 as [E2 ?]).
        repeat match goal with
               | H : negb _ = true |- _ => apply negb_true_iff in H
               end.
        subst idx. unfold castle_like, castle_move, unattacked3. cbn. tauto.
Qed.

Lemma squares_range (i : Z) : In i squares <-> 0 <= i < 64.
Proof.
  unfold squares. rewrite in_map_iff. split.
  - intros (n & <- & Hn). apply in_seq in Hn. lia.
  - intros H. exists (Z.to_nat i). split; [lia | apply in_seq; lia].
Qed.

Lemma lower_is_k (c : ascii) : toLowerCase c = "k"%char -> c = "K"%char \/ c = "k"%char.
Proof.
  destruct c as [[] [] [] [] [] [] [] []]; vm_compute; intros H;
    first [discriminate H | now left | now right].
Qed.

(** Every candidate is generated for a piece of the side to move standing
    on one of the squares 0..63, and has one of the three shapes. *)
Lemma candidate_shape (s : State) (m : Move) :
  In m (candidateMoves s) ->
  exists idx pc,
    0 <= idx < 64
    /\ bpiece (board s) idx = Some pc
    /\ pieceColor pc = side_of s
    /\ (plain_like (board s) idx pc m
        \/ (enpassant_like s idx pc m /\ toLowerCase pc = "p"%char)
        \/ (castle_like s idx pc m /\ toLowerCase pc = "k"%char)).
Proof.
  unfold candidateMoves. intros H.
  apply in_flat_map in H as (idx & Hidx & H).
  apply squares_range in Hidx.
  unfold piece_moves in H.
  destruct (bpiece (board s) idx) as [pc|] eqn:Ep; [|destruct H].
  destruct (negb (color_eqb (pieceColor pc) (side_of s))) eqn:Ec; [destruct H|].
  assert (Hcol : pieceColor pc = side_of s).
  { destruct (pieceColor pc), (side_of s); cbn in Ec; congruence. }
  exists idx, pc. split; [exact Hidx|]. split; [exact Ep|]. split; [exact Hcol|].
  destruct (ascii_eqb (toLowerCase pc) "p") eqn:Kp.
  { apply Ascii.eqb_eq in Kp.
    destruct (generatePawnMoves_shape s idx pc m Hidx H) as [Hs | Hs]; auto. }
  destruct (ascii_eqb (toLowerCase pc) "n").
  { left. now apply generateJumpMoves_shape. }
  destruct (ascii_eqb (toLowerCase pc) "b").
  { left. apply (generateSlideMoves_shape s idx pc BISHOP_DELTAS); [lia | | exact H].
    intros d Hd. unfold QUEEN_DELTAS. apply in_app_iff. now left. }
  destruct (ascii_eqb (toLowerCase pc) "r").
  { left. apply (generateSlideMoves_shape s idx pc ROOK_DELTAS); [lia | | exact H].
    intros d Hd. unfold QUEEN_DELTAS. apply in_app_iff. now right. }
  destruct (ascii_eqb (toLowerCase pc) "q").
  { left. apply (generateSlideMoves_shape s idx pc QUEEN_DELTAS); [lia | auto | exact H]. }
  destruct (ascii_eqb (toLowerCase pc) "k") eqn:Kk; [|destruct H].
  apply Ascii.eqb_eq in Kk.
  destruct (generateKingMoves_shape s idx pc m ltac:(lia) H) as [Hs | Hs]; auto.
Qed.

(** The filter loop only drops candidates. *)
Lemma filter_loop_subset (side : Color) (moves : list Move) :
  forall st m, In m (fst (filter_loop side moves st)) -> In m moves.
Proof.
  induction moves as [|mv rest IH]; intros st m; cbn [filter_loop]; [intros []|].
  destruct (makeMove st mv) as [s1 undo].
  specialize (IH (undoMove s1 undo) m).
  destruct (filter_loop side rest (undoMove s1 undo)) as [legal s3].
  cbn [fst] in *.
  destruct (negb _); cbn [In]; intuition.
Qed.

Lemma generateMoves_subset (s : State) (m : Move) :
  In m (fst (generateMoves s)) -> In m (candidateMoves s).
Proof. apply filter_loop_subset. Qed.

(** ** What [generateMoves] returns *)

(** X1.  Every move [generateMoves] returns starts on one of the squares
    0..63, moves the piece that stands there, which belongs to the side to
    move, and goes to a different square. *)
Theorem generated_move_is_own_piece (s : State) (m : Move) :
  In m (fst (generateMoves s)) ->
  0 <= from m < 64
  /\ bpiece (board s) (from m) = Some (piece m)
  /\ pieceColor (piece m) = side_of s
  /\ to m <> from m.
Proof.
  intros H. apply generateMoves_subset, candidate_shape in H
    as (idx & pc & Hidx & Hp & Hc & Hs).
  destruct Hs as [Hs | [[Hs _] | [Hs _]]].
  - destruct Hs as (F & P & _ & _ & _ & T & _). rewrite F, P. tauto.
  - destruct Hs as (F & P & _ & _ & _ & _ & _ & T). rewrite F, P.
    repeat split; try assumption; try lia.
    cbv zeta in T. destruct T as (df & Hd & _ & T).
    destruct (ascii_eqb pc "P"); lia.
  - destruct Hs as (F & P & _ & _ & _ & T). rewrite F, P.
    repeat split; try assumption; try lia.
    unfold e1, e8, g1, c1, g8, c8 in T.
    destruct (castle m) as [[]|]; [| | | |contradiction];
      destruct T as (_ & -> & -> & _); lia.
Qed.

Lemma generated_move_is_own_piece_witness :
  0 <= from a7a8Q < 64
  /\ bpiece (board (position_of promotion_fen)) (from a7a8Q) = Some (piece a7a8Q)
  /\ pieceColor (piece a7a8Q) = side_of (position_of promotion_fen)
  /\ to a7a8Q <> from a7a8Q.
Proof.
  apply (generated_move_is_own_piece (position_of promotion_fen) a7a8Q).
  vm_compute; tauto.
Defined.

(** X2.  Except for en passant, the [capture] field of a move
    [generateMoves] returns is exactly what stands on the target square
    ([null] when it is empty), and it is never a piece of the side to
    move. *)
Theorem generated_capture_is_target (s : State) (m : Move) :
  In m (fst (generateMoves s)) ->
  flag m <> Some FEnpassant ->
  capture m = bpiece (board s) (to m)
  /\ (forall c, capture m = Some c -> pieceColor c <> side_of s).
Proof.
  intros H Hf. apply generateMoves_subset, candidate_shape in H
    as (idx & pc & Hidx & Hp & Hc & Hs).
  destruct Hs as [Hs | [[Hs _] | [Hs _]]].
  - destruct Hs as (_ & _ & _ & _ & _ & _ & C & _ & Col).
    split; [exact C|]. intros c Hcap. rewrite <- Hc. now apply Col.
  - destruct Hs as (_ & _ & Fl & _). contradiction.
  - destruct Hs as (_ & _ & _ & C & _ & T). rewrite C.
    split; [|discriminate].
    destruct (castle m) as [[]|]; [| | | |contradiction].
    + destruct T as (_ & _ & -> & _ & _ & E & _). now rewrite (empty_at_bpiece _ _ E).
    + destruct T as (_ & _ & -> & _ & _ & E & _). now rewrite (empty_at_bpiece _ _ E).
    + destruct T as (_ & _ & -> & _ & _ & E & _). now rewrite (empty_at_bpiece _ _ E).
    + destruct T as (_ & _ & -> & _ & _ & E & _). now rewrite (empty_at_bpiece _ _ E).
Qed.

Lemma generated_capture_is_target_witness :
  capture e4d5 = bpiece (board (position_of capture_fen)) (to e4d5)
  /\ (forall c, capture e4d5 = Some c -> pieceColor c <> side_of (position_of capture_fen)).
Proof.
  apply (generated_capture_is_target (position_of capture_fen) e4d5).
  - vm_compute; tauto.
  - discriminate.
Defined.

(** X3.  A move [generateMoves] returns with the en-passant tag is a pawn
    move from a square of the board, one rank forward and onto a
    neighbouring file of the board (never round the edge from the a-file
    to the h-file or back), that lands on the position's en-passant
    target, captures a pawn letter of the other case and promotes to
    nothing. *)
Theorem generated_enpassant_targets_ep_square (s : State) (m : Move) :
  In m (fst (generateMoves s)) ->
  flag m = Some FEnpassant ->
  toLowerCase (piece m) = "p"%char
  /\ 0 <= from m < 64
  /\ bpiece (board s) (from m) = Some (piece m)
  /\ enPassant s = Num (to m)
  /\ capture m = Some (if ascii_eqb (piece m) "P" then "p" else "P")%char
  /\ promotion m = None
  /\ (let dir := if ascii_eqb (piece m) "P" then 8 else -8 in
      exists df, (df = -1 \/ df = 1)
                 /\ 0 <= Z.rem (from m) 8 + df <= 7
                 /\ to m = from m + dir + df).
Proof.
  intros H Hf. apply generateMoves_subset, candidate_shape in H
    as (idx & pc & Hidx & Hp & Hc & Hs).
  destruct Hs as [Hs | [[Hs Hl] | [Hs _]]].
  - destruct Hs as (_ & _ & _ & N & _). unfold has_flag in N. rewrite Hf in N.
    discriminate N.
  - destruct Hs as (F & P & _ & _ & Pr & E & C & T). rewrite F, P. tauto.
  - destruct Hs as (_ & _ & Fl & _). congruence.
Qed.

Lemma generated_enpassant_targets_ep_square_witness :
  toLowerCase (piece e5d6ep) = "p"%char
  /\ 0 <= from e5d6ep < 64
  /\ bpiece (board (position_of enpassant_fen)) (from e5d6ep) = Some (piece e5d6ep)
  /\ enPassant (position_of enpassant_fen) = Num (to e5d6ep)
  /\ capture e5d6ep = Some (if ascii_eqb (piece e5d6ep) "P" then "p" else "P")%char
  /\ promotion e5d6ep = None
  /\ (let dir := if ascii_eqb (piece e5d6ep) "P" then 8 else -8 in
      exists df, (df = -1 \/ df = 1)
                 /\ 0 <= Z.rem (from e5d6ep) 8 + df <= 7
                 /\ to e5d6ep = from e5d6ep + dir + df).
Proof.
  apply (generated_enpassant_targets_ep_square (position_of enpassant_fen) e5d6ep).
  - vm_compute; tauto.
  - reflexivity.
Defined.

(** X4.  A castle move is generated as a candidate only for the king on
    its home square (e1 for the letter K, e8 otherwise), with the matching
    right set, the squares between king and rook empty, and the king's
    square and the two squares it crosses not attacked by the other
    colour. *)
Theorem castle_candidate_conditions (s : State) (m : Move) :
  In m (candidateMoves s) ->
  castle m <> None ->
  toLowerCase (piece m) = "k"%char
  /\ bpiece (board s) (from m) = Some (piece m)
  /\ castle_like s (from m) (piece m) m.
Proof.
  intros H Hf. apply candidate_shape in H as (idx & pc & Hidx & Hp & Hc & Hs).
  destruct Hs as [Hs | [[Hs _] | [Hs Hl]]].
  - destruct Hs as (_ & _ & K & _). contradiction.
  - destruct Hs as (_ & _ & _ & K & _). contradiction.
  - pose proof Hs as (F & P & _). rewrite F, P. tauto.
Qed.

Lemma castle_candidate_conditions_witness :
  toLowerCase (piece castle_e1g1) = "k"%char
  /\ bpiece (board (position_of castle_fen)) (from castle_e1g1)
     = Some (piece castle_e1g1)
  /\ castle_like (position_of castle_fen) (from castle_e1g1) (piece castle_e1g1)
       castle_e1g1.
Proof.
  apply (castle_candidate_conditions (position_of castle_fen) castle_e1g1).
  - vm_compute; tauto.
  - discriminate.
Defined.

(** ** Make and unmake on generated moves *)

Lemma shape_cell (b : Board) (i : Z) :
  board_shape b -> 0 <= i < 64 -> bpiece b i = None -> bget b i = Some None.
Proof.
  intros (_ & _ & Hin & _) Hi Hp. destruct (Hin i Hi) as [v Hv].
  unfold bpiece, bget in *. rewrite Hv in *. now destruct v.
Qed.

Lemma candidate_restored (p : State) (m : Move) :
  board_shape (board p) ->
  In m (candidateMoves p) ->
  flag m <> Some FEnpassant -> flag m <> Some FCastle ->
  make_then_undo p m = p.
Proof.
  intros Hs H Hne Hnc.
  apply candidate_shape in H as (idx & pc & Hidx & Hp & Hc & Hshape).
  destruct Hshape as [Hpl | [[He _] | [Hca _]]].
  - destruct Hpl as (F & P & _ & N1 & N2 & T & C & R & _).
    pose proof Hs as (Hl & _ & _ & Hout & _).
    assert (Hto : 0 <= to m < 64).
    { destruct (capture m) as [c|] eqn:Ec; [|now apply R].
      apply Hout. symmetry in C. apply bpiece_lookup in C. eauto. }
    apply make_undo_restores; [exact N1 | exact N2 | lia | lia | lia | |].
    + rewrite F, P. apply bpiece_lookup in Hp. exact Hp.
    + destruct (capture m) as [c|] eqn:Ec.
      * symmetry in C. apply bpiece_lookup in C. exact C.
      * symmetry in C. now apply shape_cell.
  - destruct He as (_ & _ & Fl & _). contradiction.
  - destruct Hca as (_ & _ & Fl & _). contradiction.
Qed.

(** X5.  On a board with its 64 slots and nothing else, and with the
    fullmove counter in the range where [++] and [--] are exact, making
    and then unmaking any candidate move that carries neither the
    en-passant nor the castle tag gives back the position exactly: pushes,
    double pushes, captures, promotions and the moves of the pieces. *)
Theorem candidate_make_undo_restores (p : State) (m : Move) :
  board_shape (board p) ->
  clock_ok (fullmove p) = true ->
  In m (candidateMoves p) ->
  flag m <> Some FEnpassant -> flag m <> Some FCastle ->
  make_then_undo p m = p.
Proof. intros Hs _. exact (candidate_restored p m Hs). Qed.

Lemma candidate_make_undo_restores_witness :
  make_then_undo (position_of capture_fen) e4d5 = position_of capture_fen.
Proof.
  apply (candidate_make_undo_restores (position_of capture_fen) e4d5).
  - apply (parsed_board_shape capture_fen); vm_compute; reflexivity.
  - vm_compute; reflexivity.
  - vm_compute; tauto.
  - discriminate.
  - discriminate.
Defined.

(** X6.  For every position whose fullmove counter is in the range where
    [++] and [--] are exact, and every move whatsoever, making and then
    unmaking the move gives back the side to move, the four castling
    flags, the en-passant target, the halfmove clock and the fullmove
    counter; only the board can differ.  (The counter is restored by
    counting down, the other fields from the undo record.) *)
Theorem make_undo_keeps_scalars (p : State) (m : Move) :
  clock_ok (fullmove p) = true ->
  whiteToMove (make_then_undo p m) = whiteToMove p
  /\ castling (make_then_undo p m) = castling p
  /\ enPassant (make_then_undo p m) = enPassant p
  /\ halfmove (make_then_undo p m) = halfmove p
  /\ fullmove (make_then_undo p m) = fullmove p.
Proof. intros _. exact (make_undo_fields p m). Qed.

Lemma make_undo_keeps_scalars_witness :
  whiteToMove (make_then_undo (position_of enpassant_fen) e5d6ep)
  = whiteToMove (position_of enpassant_fen)
  /\ castling (make_then_undo (position_of enpassant_fen) e5d6ep)
     = castling (position_of enpassant_fen)
  /\ enPassant (make_then_undo (position_of enpassant_fen) e5d6ep)
     = enPassant (position_of enpassant_fen)
  /\ halfmove (make_then_undo (position_of enpassant_fen) e5d6ep)
     = halfmove (position_of enpassant_fen)
  /\ fullmove (make_then_undo (position_of enpassant_fen) e5d6ep)
     = fullmove (position_of enpassant_fen).
Proof.
  apply (make_undo_keeps_scalars (position_of enpassant_fen) e5d6ep).
  vm_compute; reflexivity.
Defined.

(** X7.  Making and then unmaking a castle-tagged move gives back the
    position exactly, provided the king stands on its home square, the
    rook on its corner, the two squares they land on are empty, and the
    fullmove counter is in the range where [++] and [--] are exact. *)
Theorem castle_make_undo_restores (p : State) (m : Move) :
  has_flag m FCastle = true -> capture m = None ->
  64 <= blen (board p) ->
  clock_ok (fullmove p) = true ->
  castle_ready (board p) m ->
  make_then_undo p m = p.
Proof. intros Hf Hc Hl _. exact (make_undo_castle p m Hf Hc Hl). Qed.

Lemma castle_make_undo_restores_witness :
  make_then_undo (position_of castle_fen) castle_e1g1 = position_of castle_fen.
Proof.
  apply (castle_make_undo_restores (position_of castle_fen) castle_e1g1).
  - reflexivity.
  - reflexivity.
  - vm_compute; discriminate.
  - vm_compute; reflexivity.
  - unfold castle_ready. vm_compute. tauto.
Defined.

(** X8.  An en-passant capture is never undone: after [makeMove] and
    [undoMove] the square the captured pawn stood on (one rank behind the
    target, seen from the mover) is empty, so the position differs from
    the one before whenever a pawn was there. *)
Theorem enpassant_make_undo_loses_pawn (p : State) (m : Move) (c : ascii) :
  has_flag m FEnpassant = true ->
  from m <> (if whiteToMove p then to m - 8 else to m + 8) ->
  bget (board p) (if whiteToMove p then to m - 8 else to m + 8) = Some (Some c) ->
  bget (board (make_then_undo p m)) (if whiteToMove p then to m - 8 else to m + 8)
  = Some None
  /\ make_then_undo p m <> p.
Proof.
  intros Hep Hne Hc. split.
  - now apply make_undo_enpassant.
  - now apply (enpassant_not_restored p m c).
Qed.

Lemma enpassant_make_undo_loses_pawn_witness :
  bget (board (make_then_undo (position_of enpassant_fen) e5d6ep))
    (if whiteToMove (position_of enpassant_fen) then to e5d6ep - 8 else to e5d6ep + 8)
  = Some None
  /\ make_then_undo (position_of enpassant_fen) e5d6ep <> position_of enpassant_fen.
Proof.
  apply (enpassant_make_undo_loses_pawn (position_of enpassant_fen) e5d6ep "p").
  - reflexivity.
  - vm_compute; discriminate.
  - vm_compute; reflexivity.
Defined.

(** ** The filter of [generateMoves], in general *)

(** X9.  When make and unmake restore every candidate of a position,
    [generateMoves] leaves the position as it found it and returns, in
    generation order, exactly the candidates after which the square of the
    mover's king is not attacked by the mover's own colour: the colour
    passed to [isSquareAttacked] is read after [makeMove] has flipped the
    side to move. *)
Theorem generateMoves_filter_rule (p : State) :
  Forall (fun m => make_then_undo p m = p) (candidateMoves p) ->
  generateMoves p
  = (List.filter
       (fun m => negb (isSquareAttacked (fst (makeMove p m))
                         (findKing (fst (makeMove p m)) (whiteToMove p))
                         (whiteToMove p)))
       (candidateMoves p), p).
Proof. exact (generateMoves_tests_own_colour p). Qed.

Lemma stalemate_candidates_restored :
  Forall (fun m => make_then_undo (position_of stalemate_fen) m
                   = position_of stalemate_fen)
    (candidateMoves (position_of stalemate_fen)).
Proof.
  apply Forall_forall. intros m Hm. apply list_elem_of_In in Hm.
  apply candidate_restored.
  - apply (parsed_board_shape stalemate_fen); vm_compute; reflexivity.
  - exact Hm.
  - vm_compute in Hm. intuition (subst; discriminate).
  - vm_compute in Hm. intuition (subst; discriminate).
Qed.

Lemma generateMoves_filter_rule_witness :
  generateMoves (position_of stalemate_fen)
  = (List.filter
       (fun m => negb (isSquareAttacked (fst (makeMove (position_of stalemate_fen) m))
                         (findKing (fst (makeMove (position_of stalemate_fen) m))
                            (whiteToMove (position_of stalemate_fen)))
                         (whiteToMove (position_of stalemate_fen))))
       (candidateMoves (position_of stalemate_fen)), position_of stalemate_fen).
Proof.
  apply (generateMoves_filter_rule (position_of stalemate_fen)).
  exact stalemate_candidates_restored.
Defined.

(** A rook of the attacking colour on the next square of the same rank
    attacks. *)
Lemma adjacent_rook_attacks (s : State) (sq d : Z) (byWhite : bool) :
  0 <= sq < 64 -> d = -1 \/ d = 1 ->
  0 <= Z.rem sq 8 + d < 8 ->
  bpiece (board s) (sq + d) = Some (if byWhite then "R" else "r")%char ->
  isSquareAttacked s sq byWhite = true.
Proof.
  intros Hsq Hd Hf Hp. unfold isSquareAttacked.
  pose proof (recompose sq ltac:(lia)) as Hrec.
  assert (Hr : 0 <= sq / 8 < 8).
  { split; [apply Z.div_pos; lia | apply Z.div_lt_upper_bound; lia]. }
  cbv zeta. apply orb_true_iff. left. apply orb_true_iff. right.
  apply existsb_exists. exists d. split.
  - unfold ROOK_DELTAS. cbn. destruct Hd as [-> | ->]; tauto.
  - assert (Ho : on_board (Z.rem sq 8 + d) (sq / 8 + 0) = true).
    { unfold on_board. apply andb_true_iff. split; [apply andb_true_iff; split|];
        [apply andb_true_iff; split | |]; first [apply Z.leb_le | apply Z.ltb_lt]; lia. }
    assert (Hsq' : (sq / 8 + 0) * 8 + (Z.rem sq 8 + d) = sq + d) by lia.
    destruct Hd as [-> | ->]; cbn [Z.eqb Pos.eqb];
      destruct byWhite; cbn [attack_ray]; rewrite Ho, Hsq', Hp; reflexivity.
Qed.

Lemma side_of_true (p : State) : side_of p = White -> whiteToMove p = true.
Proof. unfold side_of. now destruct (whiteToMove p). Qed.

Lemma side_of_false (p : State) : side_of p = Black -> whiteToMove p = false.
Proof. unfold side_of. now destruct (whiteToMove p). Qed.

(** After a castle is made, the rook stands next to the king. *)
Lemma castled_rook_next_to_king (p : State) (m : Move) (idx : Z) (pc : ascii) :
  castle_like p idx pc m -> toLowerCase pc = "k"%char -> pieceColor pc = side_of p ->
  isSquareAttacked (fst (makeMove p m)) (to m) (whiteToMove p) = true.
Proof.
  intros (F & P & Fl & C & Pr & T) Hl Hc.
  assert (Hb : forall i, bpiece (board (fst (makeMove p m))) i
               = bpiece (castle_rook
                           (bset (bset (board p) (to m) (Some (piece m))) (from m) None)
                           m) i).
  { intros i. unfold makeMove. cbn [fst board]. unfold has_flag, movingPiece.
    rewrite Fl, Pr. reflexivity. }
  destruct (castle m) as [[]|] eqn:Ec; [| | | |contradiction].
  - destruct T as (-> & -> & Et & _).
    rewrite (side_of_true p (eq_sym Hc)), Et.
    apply (adjacent_rook_attacks _ g1 (-1) true); [unfold g1; lia | auto | unfold g1; vm_compute; split; [discriminate | reflexivity] |].
    rewrite Hb. unfold castle_rook, has_castle. rewrite Ec. cbn [side_eqb].
    unfold bpiece, bget. rewrite !bset_lookup. reflexivity.
  - destruct T as (-> & -> & Et & _).
    rewrite (side_of_true p (eq_sym Hc)), Et.
    apply (adjacent_rook_attacks _ c1 1 true); [unfold c1; lia | auto | unfold c1; vm_compute; split; [discriminate | reflexivity] |].
    rewrite Hb. unfold castle_rook, has_castle. rewrite Ec. cbn [side_eqb].
    unfold bpiece, bget. rewrite !bset_lookup. reflexivity.
  - destruct T as (Hk & -> & Et & _).
    destruct (lower_is_k pc Hl) as [-> | ->]; [contradiction|].
    rewrite (side_of_false p (eq_sym Hc)), Et.
    apply (adjacent_rook_attacks _ g8 (-1) false); [unfold g8; lia | auto | unfold g8; vm_compute; split; [discriminate | reflexivity] |].
    rewrite Hb. unfold castle_rook, has_castle. rewrite Ec. cbn [side_eqb].
    unfold bpiece, bget. rewrite !bset_lookup. reflexivity.
  - destruct T as (Hk & -> & Et & _).
    destruct (lower_is_k pc Hl) as [-> | ->]; [contradiction|].
    rewrite (side_of_false p (eq_sym Hc)), Et.
    apply (adjacent_rook_attacks _ c8 1 false); [unfold c8; lia | auto | unfold c8; vm_compute; split; [discriminate | reflexivity] |].
    rewrite Hb. unfold castle_rook, has_castle. rewrite Ec. cbn [side_eqb].
    unfold bpiece, bget. rewrite !bset_lookup. reflexivity.
Qed.

Lemma castle_candidates_restored :
  Forall (fun m => make_then_undo (position_of castle_fen) m = position_of castle_fen)
    (candidateMoves (position_of castle_fen)).
Proof.
  apply Forall_forall. intros m Hm. apply list_elem_of_In in Hm.
  vm_compute in Hm.
  repeat (destruct Hm as [<- | Hm]; [vm_compute; reflexivity|]).
  destruct Hm.
Qed.

(** X10.  Castling is never returned.  When make and unmake restore every
    candidate of a position, a castle candidate whose king is the one
    [findKing] finds after the move is not among the moves
    [generateMoves] returns: the rook it has just placed next to the king
    counts as an attacker in the filter's test. *)
Theorem castle_is_filtered_out (p : State) (m : Move) :
  Forall (fun m => make_then_undo p m = p) (candidateMoves p) ->
  In m (candidateMoves p) ->
  castle m <> None ->
  findKing (fst (makeMove p m)) (whiteToMove p) = to m ->
  ~ In m (fst (generateMoves p)).
Proof.
  intros Hall Hc Hcastle Hk Hin.
  rewrite (generateMoves_tests_own_colour p Hall) in Hin. cbn [fst] in Hin.
  apply filter_In in Hin as [_ Ht]. rewrite Hk in Ht. apply negb_true_iff in Ht.
  apply candidate_shape in Hc as (idx & pc & _ & _ & Hcol & Hs).
  destruct Hs as [Hs | [[Hs _] | [Hs Hl]]].
  - now destruct Hs as (_ & _ & K & _).
  - now destruct Hs as (_ & _ & _ & K & _).
  - rewrite (castled_rook_next_to_king p m idx pc Hs Hl Hcol) in Ht. discriminate Ht.
Qed.

Lemma castle_is_filtered_out_witness :
  ~ In castle_e1g1 (fst (generateMoves (position_of castle_fen))).
Proof.
  apply (castle_is_filtered_out (position_of castle_fen) castle_e1g1).
  - exact castle_candidates_restored.
  - vm_compute; tauto.
  - discriminate.
  - vm_compute; reflexivity.
Defined.

(** Case analysis of a membership in a list built by the generators. *)
Ltac walk H :=
  repeat first
    [ apply in_app_iff in H as [H | H]
    | match type of H with In _ (if ?c then _ else _) => destruct c end
    | match type of H with In _ (match ?c with Some _ => _ | None => _ end) =>
        destruct c end
    | match type of H with In _ [] => destruct H end
    | match type of H with In _ (_ :: _) => destruct H as [<- | H] end ].

Lemma generateJumpMoves_no_promotion (s : State) (idx : Z) (pc : ascii)
    (deltas : list Z) (m : Move) :
  In m (generateJumpMoves s idx pc deltas) -> promotion m = None.
Proof.
  unfold generateJumpMoves. intros H. apply in_flat_map in H as (d & _ & H).
  walk H; reflexivity.
Qed.

Lemma slide_ray_no_promotion (b : Board) (idx : Z) (pc : ascii) (sf sr : Z) (m : Move) :
  forall fuel f r, In m (slide_ray fuel b idx pc f r sf sr) -> promotion m = None.
Proof.
  induction fuel as [|n IH]; intros f r H; cbn [slide_ray] in H; [destruct H|].
  destruct (on_board f r); [|destruct H].
  destruct (bpiece b (r * 8 + f)).
  - walk H; reflexivity.
  - destruct H as [<- | H]; [reflexivity | exact (IH _ _ H)].
Qed.

Lemma generateSlideMoves_no_promotion (s : State) (idx : Z) (pc : ascii)
    (deltas : list Z) (m : Move) :
  In m (generateSlideMoves s idx pc deltas) -> promotion m = None.
Proof.
  unfold generateSlideMoves. intros H. apply in_flat_map in H as (d & _ & H).
  exact (slide_ray_no_promotion _ _ _ _ _ _ _ _ _ H).
Qed.

Lemma generateKingMoves_no_promotion (s : State) (idx : Z) (pc : ascii) (m : Move) :
  In m (generateKingMoves s idx pc) -> promotion m = None.
Proof.
  unfold generateKingMoves. intros H. apply in_app_iff in H as [H | H].
  - apply in_flat_map in H as (dr & _ & H). apply in_flat_map in H as (df & _ & H).
    walk H; reflexivity.
  - walk H; reflexivity.
Qed.

Lemma promo_letter (pc letter : ascii) :
  pc = "P"%char -> In letter ["q"; "r"; "b"; "n"]%char ->
  In (if ascii_eqb pc "P" then toUpperCase letter else letter)
     ["Q"; "R"; "B"; "N"]%char.
Proof.
  intros -> H. cbn in H. destruct H as [<- | [<- | [<- | [<- | []]]]]; vm_compute; tauto.
Qed.

Lemma generatePawnMoves_promotion (s : State) (idx : Z) (pc q : ascii) (m : Move) :
  0 <= idx < 64 ->
  In m (generatePawnMoves s idx pc) -> promotion m = Some q ->
  pc = "P"%char /\ 48 <= idx < 56 /\ 56 <= to m < 64
  /\ In q ["Q"; "R"; "B"; "N"]%char /\ flag m = Some FPromotion.
Proof.
  intros Hidx. unfold generatePawnMoves.
  pose proof (recompose idx ltac:(lia)) as Hrec.
  pose proof (rem8_range idx ltac:(lia)) as Hrem.
  assert (Hdiv : 0 <= idx / 8) by (apply Z.div_pos; lia).
  assert (Hpromo : (idx / 8 + 1 =? (if ascii_eqb pc "P" then 7 else 0)) = true ->
                   pc = "P"%char /\ idx / 8 = 6).
  { intros E. apply Z.eqb_eq in E. destruct (ascii_eqb pc "P") eqn:Ep; [|lia].
    apply Ascii.eqb_eq in Ep. split; [exact Ep | lia]. }
  rewrite in_app_iff. intros [H | H] Hq.
  - destruct (inBounds (idx + _) && _) eqn:E; [|destruct H].
    apply andb_true_iff in E as [Eb _].
    unfold inBounds in Eb. apply andb_true_iff in Eb as [Eb1 Eb2].
    apply Z.leb_le in Eb1. apply Z.ltb_lt in Eb2.
    apply in_app_iff in H as [H | H]; [|walk H; discriminate Hq].
    apply addPawnMove_shape in H as (_ & T & _ & _ & _ & _ & _ & Hn & Hy).
    destruct (idx / 8 + 1 =? _) eqn:Ep.
    + destruct (Hpromo eq_refl) as [Hpc Hr].
      destruct (Hy eq_refl) as (Fl & letter & Hl & Hp).
      rewrite Hp in Hq. injection Hq as <-.
      subst pc. cbn in T.
      split; [reflexivity|]. split; [lia|]. split; [lia|].
      split; [now apply promo_letter | exact Fl].
    + destruct (Hn eq_refl) as [Hp _]. congruence.
  - apply in_flat_map in H as (df & Hdf & H).
    assert (Hd : df = -1 \/ df = 1) by (destruct Hdf as [<-|[<-|[]]]; auto).
    destruct ((Z.rem idx 8 + df <? 0) || (7 <? Z.rem idx 8 + df)) eqn:Ef; [destruct H|].
    apply orb_false_iff in Ef as [Ef1 Ef2].
    apply Z.ltb_ge in Ef1. apply Z.ltb_ge in Ef2.
    apply in_app_iff in H as [H | H]; [|walk H; discriminate Hq].
    destruct (bpiece (board s) _) as [tp|]; [|destruct H].
    destruct (negb _); [|destruct H].
    apply addPawnMove_shape in H as (_ & T & _ & _ & _ & _ & _ & Hn & Hy).
    destruct (idx / 8 + 1 =? _) eqn:Ep.
    + destruct (Hpromo eq_refl) as [Hpc Hr].
      destruct (Hy eq_refl) as (Fl & letter & Hl & Hp).
      rewrite Hp in Hq. injection Hq as <-.
      subst pc. cbn in T.
      split; [reflexivity|]. split; [lia|]. split; [lia|].
      split; [now apply promo_letter | exact Fl].
    + destruct (Hn eq_refl) as [Hp _]. congruence.
Qed.

(** X11.  Only a white pawn standing on its seventh rank is given
    promotion moves: a candidate that carries a promotion piece moves the
    piece 'P' from one of the squares a7..h7 (48..55) to the eighth rank
    (56..63), promotes
    to one of 'Q', 'R', 'B', 'N' and is flagged as a promotion.  A black
    pawn is never given one. *)
Theorem promotion_only_for_white_pawn (s : State) (m : Move) (q : ascii) :
  In m (candidateMoves s) -> promotion m = Some q ->
  piece m = "P"%char /\ 48 <= from m <= 55 /\ 56 <= to m <= 63
  /\ In q ["Q"; "R"; "B"; "N"]%char /\ flag m = Some FPromotion.
Proof.
  intros H Hq.
  unfold candidateMoves in H. apply in_flat_map in H as (idx & Hi & Hin).
  apply squares_range in Hi.
  unfold piece_moves in Hin.
  destruct (bpiece (board s) idx) as [pc|] eqn:Ep; [|destruct Hin].
  destruct (negb _); [destruct Hin|].
  destruct (ascii_eqb (toLowerCase pc) "p").
  { destruct (generatePawnMoves_promotion s idx pc q m Hi Hin Hq)
      as (Hpc & Hr & Ht & Hl & Fl).
    assert (from m = idx /\ piece m = pc) as [F P].
    { destruct (generatePawnMoves_shape s idx pc m Hi Hin) as [Hs | Hs];
        destruct Hs as (F & P & _); auto. }
    rewrite F, P.
    split; [exact Hpc|]. split; [lia|]. split; [lia|]. split; assumption. }
  destruct (ascii_eqb (toLowerCase pc) "n").
  { rewrite (generateJumpMoves_no_promotion _ _ _ _ _ Hin) in Hq. discriminate. }
  destruct (ascii_eqb (toLowerCase pc) "b").
  { rewrite (generateSlideMoves_no_promotion _ _ _ _ _ Hin) in Hq. discriminate. }
  destruct (ascii_eqb (toLowerCase pc) "r").
  { rewrite (generateSlideMoves_no_promotion _ _ _ _ _ Hin) in Hq. discriminate. }
  destruct (ascii_eqb (toLowerCase pc) "q").
  { rewrite (generateSlideMoves_no_promotion _ _ _ _ _ Hin) in Hq. discriminate. }
  destruct (ascii_eqb (toLowerCase pc) "k"); [|destruct Hin].
  rewrite (generateKingMoves_no_promotion _ _ _ _ Hin) in Hq. discriminate.
Qed.

Lemma promotion_only_for_white_pawn_witness :
  piece a7a8Q = "P"%char /\ 48 <= from a7a8Q <= 55 /\ 56 <= to a7a8Q <= 63
  /\ In "Q"%char ["Q"; "R"; "B"; "N"]%char /\ flag a7a8Q = Some FPromotion.
Proof.
  apply (promotion_only_for_white_pawn (position_of promotion_fen) a7a8Q "Q").
  - vm_compute; tauto.
  - reflexivity.
Defined.

(** X12.  A black pawn on its seventh rank (the squares a2..h2, 8..15),
    with Black to move and the square in front of it empty, is given the
    plain one-step move to the first rank, and making that move leaves the
    pawn 'p' on the first rank: Black's pawn is moved there unpromoted. *)
Theorem black_pawn_reaches_first_rank_unpromoted (s : State) (idx : Z) :
  whiteToMove s = false ->
  8 <= idx <= 15 ->
  bpiece (board s) idx = Some "p"%char ->
  bpiece (board s) (idx - 8) = None ->
  In (plain_move idx (idx - 8) "p" None) (candidateMoves s)
  /\ bpiece (board (fst (makeMove s (plain_move idx (idx - 8) "p" None)))) (idx - 8)
     = Some "p"%char.
Proof.
  intros Hw Hi Hp He. split.
  - unfold candidateMoves. apply in_flat_map. exists idx.
    split; [apply squares_range; lia|].
    unfold piece_moves, side_of. rewrite Hp, Hw.
    change (negb (color_eqb (pieceColor "p") Black)) with false. cbv iota.
    change (ascii_eqb (toLowerCase "p") "p") with true. cbv iota.
    unfold generatePawnMoves. apply in_app_iff. left.
    change (ascii_eqb "p" "P") with false. cbv iota zeta.
    replace (idx + -8) with (idx - 8) by lia.
    assert (Hb : inBounds (idx - 8) = true).
    { unfold inBounds. apply andb_true_iff. split; [apply Z.leb_le | apply Z.ltb_lt]; lia. }
    unfold empty_at. rewrite Hb, He. cbn [andb].
    assert (Hr : idx / 8 = 1)
      by (symmetry; apply (Z.div_unique idx 8 1 (idx - 8)); lia).
    rewrite Hr. change (1 + 1 =? 0) with false.
    apply in_app_iff. left. unfold addPawnMove. now left.
  - unfold makeMove, plain_move, has_flag, movingPiece.
    cbn [fst board flag promotion piece from to capture].
    apply bpiece_lookup. rewrite !bset_lookup.
    destruct (Z.eq_dec idx (idx - 8)) as [E|_]; [lia|].
    destruct (Z.eq_dec (idx - 8) (idx - 8)) as [_|N]; [reflexivity | lia].
Qed.

Lemma black_pawn_reaches_first_rank_unpromoted_witness :
  In (plain_move 8 (8 - 8) "p" None) (candidateMoves (position_of black_pawn_fen))
  /\ bpiece (board (fst (makeMove (position_of black_pawn_fen)
                           (plain_move 8 (8 - 8) "p" None)))) (8 - 8)
     = Some "p"%char.
Proof.
  apply (black_pawn_reaches_first_rank_unpromoted (position_of black_pawn_fen) 8).
  - vm_compute; reflexivity.
  - lia.
  - vm_compute; reflexivity.
  - vm_compute; reflexivity.
Defined.

Lemma update_castling_within (c : Castling) (m : Move) (side : CastleSide) :
  has_right (update_castling c m) side = true -> has_right c side = true.
Proof.
  unfold update_castling.
  destruct (ascii_eqb (piece m) "K"), (ascii_eqb (piece m) "k"),
    ((from m =? a1) || (to m =? a1)), ((from m =? h1) || (to m =? h1)),
    ((from m =? a8) || (to m =? a8)), ((from m =? h8) || (to m =? h8));
    destruct side; cbn; congruence.
Qed.

Lemma play_rights_within (ms : list Move) :
  forall p side,
    has_right (castling (play p ms)) side = true -> has_right (castling p) side = true.
Proof.
  induction ms as [|m rest IH]; intros p side H; [exact H|].
  change (play p (m :: rest)) with (play (fst (makeMove p m)) rest) in H.
  apply IH in H. now apply update_castling_within in H.
Qed.

Lemma update_castling_revokes (c : Castling) (m : Move) (side : CastleSide) :
  revokes m side -> has_right (update_castling c m) side = false.
Proof.
  intros H. unfold update_castling.
  assert (Hor : forall x y k, x = k \/ y = k -> (x =? k) || (y =? k) = true).
  { intros x y k [-> | ->]; rewrite Z.eqb_refl; [reflexivity | apply orb_true_r]. }
  destruct side; cbn [revokes] in H; destruct H as [P | H];
    try (rewrite P; change (ascii_eqb "K" "K") with true;
         change (ascii_eqb "K" "k") with false;
         change (ascii_eqb "k" "k") with true;
         change (ascii_eqb "k" "K") with false; cbv iota);
    try rewrite (Hor _ _ _ H);
    repeat match goal with |- context [if ?c then _ else _] => destruct c end;
    reflexivity.
Qed.

Lemma castle_needs_right (s : State) (m : Move) (side : CastleSide) :
  In m (candidateMoves s) -> castle m = Some side ->
  has_right (castling s) side = true.
Proof.
  intros H Hc. apply candidate_shape in H as (idx & pc & _ & _ & _ & Hs).
  destruct Hs as [Hs | [[Hs _] | [Hs _]]].
  - destruct Hs as (_ & _ & K & _). congruence.
  - destruct Hs as (_ & _ & _ & K & _). congruence.
  - destruct Hs as (_ & _ & _ & _ & _ & T). rewrite Hc in T.
    destruct side; cbn [has_right]; tauto.
Qed.

(** X13.  [makeMove] never grants a castling right: along any sequence of
    moves, whatever they are, a right that the last position has was held
    by the first position already. *)
Theorem castling_rights_never_return (p : State) (ms : list Move) (side : CastleSide) :
  has_right (castling (play p ms)) side = true -> has_right (castling p) side = true.
Proof. apply play_rights_within. Qed.

Lemma castling_rights_never_return_witness :
  has_right (castling (position_of castle_fen)) CastleK = true.
Proof.
  apply (castling_rights_never_return (position_of castle_fen) [e8e7] CastleK).
  vm_compute; reflexivity.
Defined.

(** X14.  Once a king has moved, or a move has left or reached a rook's
    corner, the generator never proposes the castle of that side again:
    after such a move and any further moves, no candidate is a castle of
    the revoked side. *)
Theorem no_castle_after_revoking_move (p : State) (m : Move) (ms : list Move)
    (side : CastleSide) (m' : Move) :
  revokes m side ->
  In m' (candidateMoves (play (fst (makeMove p m)) ms)) ->
  castle m' <> Some side.
Proof.
  intros Hr Hin Hc.
  pose proof (castle_needs_right _ _ _ Hin Hc) as H.
  apply play_rights_within in H.
  change (castling (fst (makeMove p m))) with (update_castling (castling p) m) in H.
  rewrite (update_castling_revokes _ _ _ Hr) in H. discriminate H.
Qed.

Lemma no_castle_after_revoking_move_witness :
  castle (plain_move 12 4 "K" None) <> Some CastleK.
Proof.
  apply (no_castle_after_revoking_move (position_of castle_fen) e1e2 [e8e7] CastleK).
  - left. reflexivity.
  - vm_compute; tauto.
Defined.

Lemma slot_is_bpiece (b : Board) (i : Z) (c : ascii) :
  slot_is b i c = true <-> bpiece b i = Some c.
Proof.
  unfold slot_is, bpiece. destruct (bget b i) as [[p|]|]; try (split; discriminate).
  unfold ascii_eqb. rewrite Ascii.eqb_eq. split; congruence.
Qed.

Lemma find_first_range (b : Board) (target : ascii) (n : nat) :
  forall a,
    let r := find_first b target (map Z.of_nat (seq a n)) in
    (r = -1 /\ forall i, Z.of_nat a <= i < Z.of_nat a + Z.of_nat n ->
                         bpiece b i <> Some target)
    \/ (Z.of_nat a <= r < Z.of_nat a + Z.of_nat n
        /\ bpiece b r = Some target
        /\ forall j, Z.of_nat a <= j < r -> bpiece b j <> Some target).
Proof.
  induction n as [|n IH]; intros a; cbn [seq map find_first].
  - left. split; [reflexivity | intros i Hi; lia].
  - destruct (slot_is b (Z.of_nat a) target) eqn:E.
    + right. apply slot_is_bpiece in E. split; [lia|]. split; [exact E|]. intros j Hj; lia.
    + assert (N : bpiece b (Z.of_nat a) <> Some target).
      { intros H. apply slot_is_bpiece in H. congruence. }
      destruct (IH (S a)) as [[Hr Hall] | (Hr & Hp & Hall)].
      * left. split; [exact Hr|]. intros i Hi.
        destruct (Z.eq_dec i (Z.of_nat a)) as [->|Hne]; [exact N | apply Hall; lia].
      * right. split; [lia|]. split; [exact Hp|]. intros j Hj.
        destruct (Z.eq_dec j (Z.of_nat a)) as [->|Hne]; [exact N | apply Hall; lia].
Qed.

(** X15.  [findKing] returns the lowest of the indices 0..63 that holds
    the king of the asked colour, and -1 exactly when none of them does. *)
Theorem findKing_lowest_or_absent (s : State) (white : bool) :
  let target := (if white then "K" else "k")%char in
  let k := findKing s white in
  (k = -1 /\ forall i, 0 <= i < 64 -> bpiece (board s) i <> Some target)
  \/ (0 <= k < 64 /\ bpiece (board s) k = Some target
      /\ forall j, 0 <= j < k -> bpiece (board s) j <> Some target).
Proof.
  cbv zeta. unfold findKing, squares.
  exact (find_first_range (board s) (if white then "K" else "k")%char 64 0).
Qed.

Lemma square_names_two_chars (i : Z) :
  0 <= i < 72 -> two_chars (indexToSquare (Num i)) = true.
Proof.
  intros Hi.
  assert (H : forallb (fun i => two_chars (indexToSquare (Num i)))
                (map Z.of_nat (seq 0 72)) = true) by (vm_compute; reflexivity).
  rewrite forallb_forall in H. apply H.
  apply in_map_iff. exists (Z.to_nat i). split; [lia | apply in_seq; lia].
Qed.

Lemma square_names_injective (i j : Z) :
  0 <= i < 72 -> 0 <= j < 72 ->
  indexToSquare (Num i) = indexToSquare (Num j) -> i = j.
Proof.
  intros Hi Hj E.
  destruct (ep_roundtrip i Hi) as (_ & _ & Ri).
  destruct (ep_roundtrip j Hj) as (_ & _ & Rj).
  rewrite E in Ri. congruence.
Qed.

(** X16.  Square names round-trip: for every index whose rank number has
    one digit (0..71, the board's 0..63 among them) [indexToSquare] gives
    a name of two characters that [squareToIndex] reads back as the same
    index. *)
Theorem square_name_roundtrip (i : Z) :
  0 <= i < 72 ->
  two_chars (indexToSquare (Num i)) = true
  /\ squareToIndex (indexToSquare (Num i)) = Num i.
Proof.
  intros Hi. split; [now apply square_names_two_chars|].
  now destruct (ep_roundtrip i Hi) as (_ & _ & R).
Qed.

Lemma square_name_roundtrip_witness :
  two_chars (indexToSquare (Num 28)) = true
  /\ squareToIndex (indexToSquare (Num 28)) = Num 28.
Proof. apply (square_name_roundtrip 28). lia. Defined.

(** X17.  The text [moveToAlgebraic] prints determines the move's squares
    and its promotion letter: two moves between squares of the board that
    print alike have the same origin, the same destination and the same
    upper-cased promotion piece. *)
Theorem moveToAlgebraic_injective (m1 m2 : Move) :
  0 <= from m1 < 64 -> 0 <= to m1 < 64 ->
  0 <= from m2 < 64 -> 0 <= to m2 < 64 ->
  moveToAlgebraic m1 = moveToAlgebraic m2 ->
  from m1 = from m2 /\ to m1 = to m2 /\ promotion_suffix m1 = promotion_suffix m2.
Proof.
  intros F1 T1 F2 T2. unfold moveToAlgebraic, promotion_suffix.
  pose proof (square_names_two_chars (from m1) ltac:(lia)) as A1.
  pose proof (square_names_two_chars (to m1) ltac:(lia)) as B1.
  pose proof (square_names_two_chars (from m2) ltac:(lia)) as A2.
  pose proof (square_names_two_chars (to m2) ltac:(lia)) as B2.
  pose proof (square_names_injective (from m1) (from m2) ltac:(lia) ltac:(lia)) as IF.
  pose proof (square_names_injective (to m1) (to m2) ltac:(lia) ltac:(lia)) as IT.
  destruct (indexToSquare (Num (from m1))) as [|a1 [|b1 [|]]]; try discriminate A1.
  destruct (indexToSquare (Num (to m1))) as [|c1 [|d1 [|]]]; try discriminate B1.
  destruct (indexToSquare (Num (from m2))) as [|a2 [|b2 [|]]]; try discriminate A2.
  destruct (indexToSquare (Num (to m2))) as [|c2 [|d2 [|]]]; try discriminate B2.
  rewrite !append_cons, !append_nil_l.
  intros E. injection E as -> -> -> -> E.
  split; [now apply IF|]. split; [now apply IT|].
  destruct (promotion m1), (promotion m2); cbn [option_map]; try discriminate E;
    [injection E as ->|]; reflexivity.
Qed.

Lemma moveToAlgebraic_injective_witness :
  from e2e4 = from (plain_move 12 28 "R" None)
  /\ to e2e4 = to (plain_move 12 28 "R" None)
  /\ promotion_suffix e2e4 = promotion_suffix (plain_move 12 28 "R" None).
Proof.
  apply (moveToAlgebraic_injective e2e4 (plain_move 12 28 "R" None));
    [vm_compute; split; congruence ..| vm_compute; reflexivity].
Defined.

Lemma split_aux_cat (sep : ascii) (a b : string) :
  forall cur,
    split_aux sep (a +:+ String sep b) cur
    = split_aux sep a cur ++ split_aux sep b (fun x => x).
Proof.
  induction a as [|c r IH]; intros cur.
  - rewrite append_nil_l. cbn [split_aux]. unfold ascii_eqb.
    now rewrite Ascii.eqb_refl.
  - rewrite append_cons. cbn [split_aux]. destruct (ascii_eqb c sep).
    + now rewrite IH.
    + apply IH.
Qed.

Lemma split_cat (sep : ascii) (a b : string) :
  split sep (a +:+ String sep b) = split sep a ++ split sep b.
Proof. unfold split. apply split_aux_cat. Qed.

Lemma fenToState_fields (t1 t2 : string) :
  (forall i, (i < 6)%nat -> split " " t1 !! i = split " " t2 !! i) ->
  fenToState t1 = fenToState t2.
Proof.
  intros H. unfold fenToState.
  now rewrite (H 0%nat), (H 1%nat), (H 2%nat), (H 3%nat), (H 4%nat), (H 5%nat) by lia.
Qed.

(** X18.  The two clocks default: a text of exactly four fields is read as
    the same text followed by the fields 0 and 1. *)
Theorem fenToState_clock_defaults (text : string) :
  length (split " " text) = 4%nat ->
  fenToState text = fenToState (text +:+ " 0 1").
Proof.
  intros H. unfold fenToState.
  change " 0 1"%string with (String " " "0 1").
  rewrite split_cat.
  destruct (split " " text) as [|a [|b [|c [|d [|e r]]]]]; try discriminate H.
  reflexivity.
Qed.

Lemma fenToState_clock_defaults_witness :
  fenToState "4k3/8/8/8/8/8/8/4K3 w - -" = fenToState ("4k3/8/8/8/8/8/8/4K3 w - -" +:+ " 0 1").
Proof.
  apply (fenToState_clock_defaults "4k3/8/8/8/8/8/8/4K3 w - -").
  vm_compute; reflexivity.
Defined.

(** X19.  [fenToState] reads the first six blank-separated fields and
    nothing else: two texts that agree on them are read alike, whatever
    follows. *)
Theorem fenToState_reads_six_fields (t1 t2 : string) :
  take 6 (split " " t1) = take 6 (split " " t2) ->
  fenToState t1 = fenToState t2.
Proof.
  intros H. apply fenToState_fields. intros i Hi.
  rewrite <- (lookup_take_lt (split " " t1) 6 i Hi).
  rewrite <- (lookup_take_lt (split " " t2) 6 i Hi).
  now rewrite H.
Qed.

Lemma fenToState_reads_six_fields_witness :
  fenToState (start_fen +:+ " and more") = fenToState start_fen.
Proof.
  apply (fenToState_reads_six_fields (start_fen +:+ " and more") start_fen).
  vm_compute; reflexivity.
Defined.

(** ** The result of a search *)

Lemma max_loop_keeps_best rec (all : list Move) :
  finite_scores rec ->
  forall moves state alpha beta bs bm r st,
    incl moves all -> fin_best all bs bm ->
    max_loop rec moves state alpha beta bs bm = Some (r, st) ->
    fin_best all (score r) (move r).
Proof.
  intros Hrec. induction moves as [|mv rest IH]; intros state alpha beta bs bm r st Hi Hb;
    cbn [max_loop].
  - intros [= <- _]. exact Hb.
  - destruct (makeMove state mv) as [s1 undo].
    destruct (rec s1 alpha beta) as [[res s1']|] eqn:Er; [|discriminate].
    destruct (Hrec _ _ _ _ _ Er) as [z Hz].
    assert (Hb' : fin_best all (if ext_ltb bs (score res) then score res else bs)
                    (if ext_ltb bs (score res) then Some mv else bm)).
    { destruct (ext_ltb bs (score res)); [|exact Hb].
      exists z, mv. split; [exact Hz|]. split; [reflexivity|]. apply Hi. now left. }
    destruct (ext_leb _ _).
    + intros [= <- _]. exact Hb'.
    + apply IH; [|exact Hb']. intros x Hx. apply Hi. now right.
Qed.

Lemma min_loop_keeps_best rec (all : list Move) :
  finite_scores rec ->
  forall moves state alpha beta bs bm r st,
    incl moves all -> fin_best all bs bm ->
    min_loop rec moves state alpha beta bs bm = Some (r, st) ->
    fin_best all (score r) (move r).
Proof.
  intros Hrec. induction moves as [|mv rest IH]; intros state alpha beta bs bm r st Hi Hb;
    cbn [min_loop].
  - intros [= <- _]. exact Hb.
  - destruct (makeMove state mv) as [s1 undo].
    destruct (rec s1 alpha beta) as [[res s1']|] eqn:Er; [|discriminate].
    destruct (Hrec _ _ _ _ _ Er) as [z Hz].
    assert (Hb' : fin_best all (if ext_ltb (score res) bs then score res else bs)
                    (if ext_ltb (score res) bs then Some mv else bm)).
    { destruct (ext_ltb (score res) bs); [|exact Hb].
      exists z, mv. split; [exact Hz|]. split; [reflexivity|]. apply Hi. now left. }
    destruct (ext_leb _ _).
    + intros [= <- _]. exact Hb'.
    + apply IH; [|exact Hb']. intros x Hx. apply Hi. now right.
Qed.

Lemma max_loop_finds_best rec (mv : Move) (rest : list Move) :
  finite_scores rec ->
  forall state alpha beta r st,
    max_loop rec (mv :: rest) state alpha beta MInf None = Some (r, st) ->
    fin_best (mv :: rest) (score r) (move r).
Proof.
  intros Hrec state alpha beta r st. cbn [max_loop].
  destruct (makeMove state mv) as [s1 undo].
  destruct (rec s1 alpha beta) as [[res s1']|] eqn:Er; [|discriminate].
  destruct (Hrec _ _ _ _ _ Er) as [z Hz]. rewrite Hz.
  change (ext_ltb MInf (Fin z)) with true. cbv iota.
  assert (Hb : fin_best (mv :: rest) (Fin z) (Some mv)).
  { exists z, mv. split; [reflexivity|]. split; [reflexivity | now left]. }
  destruct (ext_leb _ _).
  - intros [= <- _]. exact Hb.
  - apply (max_loop_keeps_best rec (mv :: rest) Hrec); [|exact Hb].
    intros x Hx. now right.
Qed.

Lemma min_loop_finds_best rec (mv : Move) (rest : list Move) :
  finite_scores rec ->
  forall state alpha beta r st,
    min_loop rec (mv :: rest) state alpha beta PInf None = Some (r, st) ->
    fin_best (mv :: rest) (score r) (move r).
Proof.
  intros Hrec state alpha beta r st. cbn [min_loop].
  destruct (makeMove state mv) as [s1 undo].
  destruct (rec s1 alpha beta) as [[res s1']|] eqn:Er; [|discriminate].
  destruct (Hrec _ _ _ _ _ Er) as [z Hz]. rewrite Hz.
  change (ext_ltb (Fin z) PInf) with true. cbv iota.
  assert (Hb : fin_best (mv :: rest) (Fin z) (Some mv)).
  { exists z, mv. split; [reflexivity|]. split; [reflexivity | now left]. }
  destruct (ext_leb _ _).
  - intros [= <- _]. exact Hb.
  - apply (min_loop_keeps_best rec (mv :: rest) Hrec); [|exact Hb].
    intros x Hx. now right.
Qed.

(** What a returning [search] gives back: a finite score, and a move
    exactly when the depth is not 0 and moves were generated, that move
    being one of them. *)
Lemma search_result (fuel : nat) :
  forall state depth alpha beta r st,
    search fuel state depth alpha beta = Some (r, st) ->
    (exists z, score r = Fin z)
    /\ match move r with
       | Some m => depth <> 0 /\ In m (fst (generateMoves state))
       | None => depth = 0 \/ fst (generateMoves state) = []
       end.
Proof.
  induction fuel as [|k IH]; intros state depth alpha beta r st; [discriminate|].
  cbn [search]. destruct (depth =? 0) eqn:E0.
  - apply Z.eqb_eq in E0. intros [= <- _]. cbn [score move]. split; [eauto | now left].
  - apply Z.eqb_neq in E0.
    assert (Hrec : finite_scores (fun s a b => search k s (depth - 1) a b)).
    { intros s a b res s' H. now destruct (IH _ _ _ _ _ _ H). }
    destruct (generateMoves state) as [moves st0]. cbn [fst].
    destruct moves as [|mv rest].
    + destruct (isSquareAttacked _ _ _); intros [= <- _]; cbn [score move];
        (split; [eauto | now right]).
    + intros H.
      assert (Hb : fin_best (mv :: rest) (score r) (move r)).
      { destruct (whiteToMove st0);
          [eapply max_loop_finds_best | eapply min_loop_finds_best]; eauto. }
      destruct Hb as (z & m & Hs & Hm & Hin). rewrite Hm. split; [eauto|].
      split; [exact E0 | exact Hin].
Qed.

(** X20.  For a depth from 0 on, [search] returns after at most
    [depth + 1] nested calls, and its score is a finite number: the
    starting bounds -Infinity and Infinity are never returned. *)
Theorem search_returns_finite_score (fuel : nat) (state : State) (depth : Z)
    (alpha beta : ext) :
  0 <= depth < Z.of_nat fuel ->
  exists r st z, search fuel state depth alpha beta = Some (r, st) /\ score r = Fin z.
Proof.
  intros Hd. destruct (search_returns fuel state depth alpha beta Hd) as [[r st] H].
  destruct (search_result fuel _ _ _ _ _ _ H) as [[z Hz] _].
  exists r, st, z. split; [exact H | exact Hz].
Qed.

Lemma search_returns_finite_score_witness :
  exists r st z,
    search 2 (position_of stalemate_fen) 1 MInf PInf = Some (r, st) /\ score r = Fin z.
Proof.
  apply (search_returns_finite_score 2 (position_of stalemate_fen) 1 MInf PInf). lia.
Defined.

(** X21.  For a depth above 0, [search] returns a move exactly when
    [generateMoves] returned moves for the position, and the move it
    returns is one of them; at depth 0 it returns no move. *)
Theorem search_move_is_generated (fuel : nat) (state : State) (depth : Z)
    (alpha beta : ext) :
  0 <= depth < Z.of_nat fuel ->
  exists r st,
    search fuel state depth alpha beta = Some (r, st)
    /\ match move r with
       | Some m => depth <> 0 /\ In m (fst (generateMoves state))
       | None => depth = 0 \/ fst (generateMoves state) = []
       end.
Proof.
  intros Hd. destruct (search_returns fuel state depth alpha beta Hd) as [[r st] H].
  exists r, st. split; [exact H|].
  now destruct (search_result fuel _ _ _ _ _ _ H) as [_ Hm].
Qed.

Lemma search_move_is_generated_witness :
  exists r st,
    search 2 (position_of mate_fen) 1 MInf PInf = Some (r, st)
    /\ match move r with
       | Some m => 1 <> 0 /\ In m (fst (generateMoves (position_of mate_fen)))
       | None => 1 = 0 \/ fst (generateMoves (position_of mate_fen)) = []
       end.
Proof.
  apply (search_move_is_generated 2 (position_of mate_fen) 1 MInf PInf). lia.
Defined.

(** X22.  The facade on a text that parses, asked for a positive depth
    [d]: [ChessEngine.analyzePosition] returns after [d + 1] nested
    searches, reports the depth [d] and a finite evaluation, its
    [moveObject] is one of the moves [generateMoves] returns for the
    parsed position (null exactly when there is none), and [bestMove] is
    that move printed by [moveToAlgebraic]. *)
Theorem analyzePosition_reports (this : ChessEngine.t) (fuel : nat) (fen : string)
    (o : Options) (p : State) (d : Z) :
  fenToState fen = Some p ->
  depth_or o (ChessEngine.this_depth this) = Num d ->
  0 < d < Z.of_nat fuel ->
  exists bm z mo,
    ChessEngine.analyzePosition this fuel fen o
    = Returns (mkAnalysis bm (QFin (z # 100)) (Num d) mo)
    /\ bm = option_map moveToAlgebraic mo
    /\ match mo with
       | Some m => In m (fst (generateMoves (cloneState p)))
       | None => fst (generateMoves (cloneState p)) = []
       end.
Proof.
  intros Hp Hd Hr.
  rewrite ChessEngine_analyzePosition_core, Hd.
  unfold analyzePosition. rewrite Hp.
  assert (Ht : depth_or {| opt_depth := Some (Num d) |} (Num 3) = Num d).
  { unfold depth_or. cbn [opt_depth truthy].
    destruct (d =? 0) eqn:E; [apply Z.eqb_eq in E; lia | reflexivity]. }
  rewrite Ht. cbn [run_search].
  destruct (search_returns fuel (cloneState p) d MInf PInf ltac:(lia)) as [[r st] H].
  rewrite H.
  destruct (search_result fuel _ _ _ _ _ _ H) as [[z Hz] Hm].
  exists (option_map moveToAlgebraic (move r)), z, (move r).
  rewrite Hz. split; [reflexivity|]. split; [reflexivity|].
  destruct (move r) as [m|]; [tauto|]. destruct Hm as [Hm | Hm]; [lia | exact Hm].
Qed.

Lemma analyzePosition_reports_witness :
  exists bm z mo,
    ChessEngine.analyzePosition
      (ChessEngine.constructor {| opt_depth := Some (Num 3) |}) 4 start_fen
      {| opt_depth := Some (Num 3) |}
    = Returns (mkAnalysis bm (QFin (z # 100)) (Num 3) mo)
    /\ bm = option_map moveToAlgebraic mo
    /\ match mo with
       | Some m => In m (fst (generateMoves (cloneState (position_of start_fen))))
       | None => fst (generateMoves (cloneState (position_of start_fen))) = []
       end.
Proof.
  apply (analyzePosition_reports
           (ChessEngine.constructor {| opt_depth := Some (Num 3) |}) 4 start_fen
           {| opt_depth := Some (Num 3) |} (position_of start_fen) 3).
  - vm_compute; reflexivity.
  - vm_compute; reflexivity.
  - lia.
Defined.

(** ** The castling field *)

Lemma parse_castling_letters (s : string) :
  forall c,
    cK (parse_castling s c) = cK c || has_char "K" s
    /\ cQ (parse_castling s c) = cQ c || has_char "Q" s
    /\ ck (parse_castling s c) = ck c || has_char "k" s
    /\ cq (parse_castling s c) = cq c || has_char "q" s.
Proof.
  induction s as [|x rest IH]; intros c; cbn [parse_castling has_char].
  - now rewrite !orb_false_r.
  - destruct (ascii_eqb x "K") eqn:EK;
      [apply Ascii.eqb_eq in EK; subst x
      |destruct (ascii_eqb x "Q") eqn:EQ;
         [apply Ascii.eqb_eq in EQ; subst x
         |destruct (ascii_eqb x "k") eqn:Ek;
            [apply Ascii.eqb_eq in Ek; subst x
            |destruct (ascii_eqb x "q") eqn:Eq;
               [apply Ascii.eqb_eq in Eq; subst x|]]]];
      destruct (IH (if ascii_eqb _ _ then _ else _)) as (H1 & H2 & H3 & H4)
      || destruct (IH c) as (H1 & H2 & H3 & H4);
      cbn in *; rewrite ?H1, ?H2, ?H3, ?H4;
      destruct c as [[] [] [] []]; cbn; auto.
Qed.

(** X23.  The castling object [fenToState] builds holds, for each of the
    letters K, Q, k, q, whether the letter occurs in the third field of
    the text: the order of the letters, repetitions and any other
    characters make no difference. *)
Theorem fenToState_castling_letters (text field : string) (p : State) :
  fenToState text = Some p ->
  split " " text !! 2%nat = Some field ->
  cK (castling p) = has_char "K" field
  /\ cQ (castling p) = has_char "Q" field
  /\ ck (castling p) = has_char "k" field
  /\ cq (castling p) = has_char "q" field.
Proof.
  unfold fenToState. intros H Hf. rewrite Hf in H.
  destruct (split " " text !! 0%nat) as [bp|]; [|discriminate].
  destruct (parse_ranks _ _ _ _) as [b|]; [|discriminate].
  destruct (split " " text !! 3%nat) as [ep|]; [|discriminate].
  injection H as <-. cbn [castling].
  destruct (String.eqb field "") eqn:E1; cbn [negb andb].
  { apply String.eqb_eq in E1. subst field. cbn. tauto. }
  destruct (String.eqb field "-") eqn:E2; cbn [negb andb].
  { apply String.eqb_eq in E2. subst field. cbn. tauto. }
  exact (parse_castling_letters field
           {| cK := false; cQ := false; ck := false; cq := false |}).
Qed.

Lemma fenToState_castling_letters_witness :
  cK (castling (position_of "4k3/8/8/8/8/8/8/4K3 w qxK - 0 1")) = has_char "K" "qxK"
  /\ cQ (castling (position_of "4k3/8/8/8/8/8/8/4K3 w qxK - 0 1")) = has_char "Q" "qxK"
  /\ ck (castling (position_of "4k3/8/8/8/8/8/8/4K3 w qxK - 0 1")) = has_char "k" "qxK"
  /\ cq (castling (position_of "4k3/8/8/8/8/8/8/4K3 w qxK - 0 1")) = has_char "q" "qxK".
Proof.
  apply (fenToState_castling_letters "4k3/8/8/8/8/8/8/4K3 w qxK - 0 1" "qxK").
  - vm_compute; reflexivity.
  - vm_compute; reflexivity.
Defined.

(** ** Knight moves *)

Lemma knight_geometry_checked :
  forallb (fun a => forallb (fun b => Bool.eqb (knight_delta_test a b) (knight_jump a b))
                      squares) squares = true.
Proof. vm_compute; reflexivity. Qed.

Lemma knight_geometry (a b : Z) :
  0 <= a < 64 -> 0 <= b < 64 -> knight_delta_test a b = knight_jump a b.
Proof.
  intros Ha Hb. pose proof knight_geometry_checked as H.
  rewrite forallb_forall in H. specialize (H a (proj2 (squares_range a) Ha)).
  rewrite forallb_forall in H. specialize (H b (proj2 (squares_range b) Hb)).
  now apply Bool.eqb_prop in H.
Qed.

(** X24.  The moves generated for a knight are exactly the knight's jumps:
    a move is pushed for the knight on [idx] if and only if it is the
    plain move to a square of the board one file and two ranks, or two
    files and one rank, away that is empty or holds a piece of the other
    colour, with that piece as its capture.  The file test keeps the eight
    deltas from wrapping round the edge of the board. *)
Theorem knight_moves_are_the_knight_jumps (s : State) (idx : Z) (pc : ascii) (m : Move) :
  0 <= idx < 64 ->
  In m (generateJumpMoves s idx pc KNIGHT_DELTAS)
  <-> (0 <= to m < 64
       /\ knight_jump idx (to m) = true
       /\ free_or_enemy (bpiece (board s) (to m)) pc = true
       /\ m = plain_move idx (to m) pc (bpiece (board s) (to m))).
Proof.
  intros Hidx. unfold generateJumpMoves. rewrite in_flat_map. split.
  - intros (delta & Hd & H).
    destruct (inBounds (idx + delta)) eqn:Eb; cbn [negb] in H; [|destruct H].
    destruct (2 <? Z.abs (Z.rem (idx + delta) 8 - Z.rem idx 8)) eqn:Ef; [destruct H|].
    destruct (free_or_enemy _ _) eqn:Ee; [|destruct H].
    destruct H as [<- | []]. cbn [to plain_move].
    unfold inBounds in Eb. apply andb_true_iff in Eb as [E1 E2].
    apply Z.leb_le in E1. apply Z.ltb_lt in E2.
    split; [lia|]. split; [|split; [exact Ee | reflexivity]].
    rewrite <- knight_geometry by lia. unfold knight_delta_test.
    apply existsb_exists. exists delta. split; [exact Hd|].
    now rewrite Z.eqb_refl, Ef.
  - intros (Ht & Hk & He & Hm).
    rewrite <- knight_geometry in Hk by lia. unfold knight_delta_test in Hk.
    apply existsb_exists in Hk as (delta & Hd & Hk).
    apply andb_true_iff in Hk as [E1 E2]. apply Z.eqb_eq in E1.
    apply negb_true_iff in E2.
    exists delta. split; [exact Hd|]. rewrite <- E1.
    assert (Eb : inBounds (to m) = true).
    { unfold inBounds. apply andb_true_iff. split; [apply Z.leb_le | apply Z.ltb_lt]; lia. }
    rewrite Eb, E2, He. cbn [negb]. left. now symmetry.
Qed.

Lemma knight_moves_are_the_knight_jumps_witness :
  In (plain_move 1 18 "N" None)
     (generateJumpMoves (position_of start_fen) 1 "N" KNIGHT_DELTAS)
  <-> (0 <= to (plain_move 1 18 "N" None) < 64
       /\ knight_jump 1 (to (plain_move 1 18 "N" None)) = true
       /\ free_or_enemy (bpiece (board (position_of start_fen))
                           (to (plain_move 1 18 "N" None))) "N" = true
       /\ plain_move 1 18 "N" None
          = plain_move 1 (to (plain_move 1 18 "N" None)) "N"
              (bpiece (board (position_of start_fen)) (to (plain_move 1 18 "N" None)))).
Proof.
  apply (knight_moves_are_the_knight_jumps (position_of start_fen) 1 "N"
           (plain_move 1 18 "N" None)).
  lia.
Defined.

(** ** Attacks *)

Lemma attack_ray_hit (b : Board) (sf sr : Z) (a1 a2 : ascii) :
  forall fuel f r,
    attack_ray fuel b f r sf sr a1 a2 = true ->
    exists t c, 0 <= t < 64 /\ bpiece b t = Some c /\ (c = a1 \/ c = a2).
Proof.
  induction fuel as [|n IH]; intros f r; cbn [attack_ray]; [discriminate|].
  destruct (on_board f r) eqn:Eo; [|discriminate].
  apply on_board_range in Eo as [Rf Rr].
  destruct (bpiece b (r * 8 + f)) as [p|] eqn:Ep; [|apply IH].
  intros H. exists (r * 8 + f), p. split; [lia|]. split; [exact Ep|].
  apply orb_true_iff in H as [H | H]; apply Ascii.eqb_eq in H; auto.
Qed.

Lemma in_box (tFile tRank : Z) :
  (tFile <? 0) || (7 <? tFile) || (tRank <? 0) || (7 <? tRank) = false ->
  0 <= tRank * 8 + tFile < 64.
Proof.
  intros H. repeat (apply orb_false_iff in H as [H ?]).
  repeat match goal with
         | H : (_ <? _) = false |- _ => apply Z.ltb_ge in H
         end.
  lia.
Qed.

(** X25.  [isSquareAttacked] never reports an attack without an attacker:
    when it returns true, for any square index at all (the -1 of a missing
    king included), some square 0..63 holds a piece letter of the
    attacking colour. *)
Theorem attack_needs_attacker (s : State) (squareIdx : Z) (byWhite : bool) :
  isSquareAttacked s squareIdx byWhite = true ->
  exists t c, 0 <= t < 64 /\ bpiece (board s) t = Some c /\ In c (attackers byWhite).
Proof.
  unfold isSquareAttacked. cbv zeta. intros H0.
  match type of H0 with
  | ?a || ?b || ?c || ?d || ?e = true =>
      destruct a eqn:H;
        [clear H0
        |clear H; destruct b eqn:H;
           [clear H0
           |clear H; destruct c eqn:H;
              [clear H0
              |clear H; destruct d eqn:H;
                 [clear H0 | clear H; cbn [orb] in H0; rename H0 into H]]]]
  end.
  - apply existsb_exists in H as (df & _ & H).
    destruct (_ || _) eqn:Eb in H; [discriminate|]. apply in_box in Eb.
    destruct byWhite; apply slot_is_bpiece in H; eexists _, _;
      (split; [exact Eb|]); (split; [exact H|]); cbn; tauto.
  - apply existsb_exists in H as (delta & _ & H).
    destruct (inBounds (squareIdx + delta)) eqn:Eb; cbn [negb] in H; [|discriminate].
    unfold inBounds in Eb. apply andb_true_iff in Eb as [E1 E2].
    apply Z.leb_le in E1. apply Z.ltb_lt in E2.
    destruct (2 <? _) in H; [discriminate|].
    exists (squareIdx + delta).
    destruct byWhite; apply slot_is_bpiece in H; eexists; (split; [lia|]);
      (split; [exact H|]); cbn; tauto.
  - apply existsb_exists in H as (delta & _ & H).
    destruct byWhite; apply attack_ray_hit in H as (t & c & Ht & Hc & [-> | ->]);
      exists t; eexists; (split; [exact Ht|]); (split; [exact Hc|]); cbn; tauto.
  - apply existsb_exists in H as (delta & _ & H).
    destruct byWhite; apply attack_ray_hit in H as (t & c & Ht & Hc & [-> | ->]);
      exists t; eexists; (split; [exact Ht|]); (split; [exact Hc|]); cbn; tauto.
  - apply existsb_exists in H as (dr & _ & H).
    apply existsb_exists in H as (df & _ & H).
    destruct ((dr =? 0) && (df =? 0)); [discriminate|].
    destruct (_ || _) eqn:Eb in H; [discriminate|]. apply in_box in Eb.
    destruct byWhite; apply slot_is_bpiece in H; eexists _, _;
      (split; [exact Eb|]); (split; [exact H|]); cbn; tauto.
Qed.

Lemma attack_needs_attacker_witness :
  exists t c, 0 <= t < 64
              /\ bpiece (board (position_of mate_fen)) t = Some c
              /\ In c (attackers true).
Proof.
  apply (attack_needs_attacker (position_of mate_fen) (-1) true).
  vm_compute; reflexivity.
Defined.

(** ** The evaluation *)

Lemma fold_left_sum (h : Z -> Z) (f : Z -> Z -> Z) (l : list Z) :
  (forall a i, f a i = a + h i) ->
  forall a, fold_left f l a = a + sumZ (map h l).
Proof.
  intros Hf. induction l as [|x r IH]; intros a; cbn [fold_left map sumZ fold_right].
  - lia.
  - rewrite IH, Hf. unfold sumZ. lia.
Qed.

Lemma evaluate_sum (s : State) :
  evaluate s = sumZ (map (fun i => contribution (bpiece (board s) i) i) squares).
Proof.
  unfold evaluate.
  rewrite (fold_left_sum (fun i => contribution (bpiece (board s) i) i)).
  - lia.
  - intros a i. unfold contribution. destruct (bpiece (board s) i); lia.
Qed.

Lemma sumZ_app (l1 l2 : list Z) : sumZ (l1 ++ l2) = sumZ l1 + sumZ l2.
Proof. unfold sumZ. induction l1 as [|x r IH]; cbn [app fold_right]; lia. Qed.

Lemma sumZ_rev (l : list Z) : sumZ (rev l) = sumZ l.
Proof.
  induction l as [|x r IH]; [reflexivity|].
  cbn [rev]. rewrite sumZ_app, IH. unfold sumZ. cbn [fold_right]. lia.
Qed.

Lemma sumZ_opp (h : Z -> Z) (l : list Z) :
  sumZ (map (fun i => - h i) l) = - sumZ (map h l).
Proof.
  unfold sumZ. induction l as [|x r IH]; cbn [map fold_right]; [reflexivity | lia].
Qed.

Lemma all_chars_complete (c : ascii) : In c all_chars.
Proof.
  unfold all_chars. apply in_map_iff. exists (nat_of_ascii c).
  split; [apply ascii_nat_embedding|]. apply in_seq.
  pose proof (nat_ascii_bounded c). lia.
Qed.

Lemma contribution_rotated_checked :
  forallb (fun c =>
    forallb (fun i => contribution (Some (swap_case c)) i
                      =? - contribution (Some c) (63 - i)) squares) all_chars = true.
Proof. vm_compute; reflexivity. Qed.

Lemma contribution_rotated (x : option ascii) (i : Z) :
  0 <= i < 64 ->
  contribution (option_map swap_case x) i = - contribution x (63 - i).
Proof.
  intros Hi. destruct x as [c|]; [|reflexivity]. cbn [option_map].
  pose proof contribution_rotated_checked as H.
  rewrite forallb_forall in H. specialize (H c (all_chars_complete c)).
  rewrite forallb_forall in H. specialize (H i (proj2 (squares_range i) Hi)).
  now apply Z.eqb_eq in H.
Qed.

Lemma squares_reversed : map (fun i => 63 - i) squares = rev squares.
Proof. vm_compute; reflexivity. Qed.

Lemma rotated_check_sound (s s' : State) : rotated_check s s' = true -> rotated s s'.
Proof.
  unfold rotated_check, rotated. intros H i Hi.
  rewrite forallb_forall in H. specialize (H i (proj2 (squares_range i) Hi)).
  unfold slot_eqb in H.
  destruct (bpiece (board s') i), (option_map swap_case _); try discriminate H;
    [apply Ascii.eqb_eq in H; now subst | reflexivity].
Qed.

(** X26.  The evaluation is colour-symmetric under a half turn of the
    board: when a position is another one turned by 180 degrees with the
    colours of all pieces exchanged, [evaluate] gives the opposite
    number. *)
Theorem evaluate_half_turn_symmetry (s s' : State) :
  rotated s s' -> evaluate s' = - evaluate s.
Proof.
  intros Hr. rewrite !evaluate_sum.
  rewrite <- (sumZ_rev (map (fun i => contribution (bpiece (board s) i) i) squares)).
  rewrite <- map_rev, <- squares_reversed, map_map, <- sumZ_opp.
  f_equal. apply map_ext_in. intros i Hi. apply squares_range in Hi.
  rewrite (Hr i Hi). now apply contribution_rotated.
Qed.

Lemma evaluate_half_turn_symmetry_witness :
  evaluate (position_of pawn_down_fen) = - evaluate (position_of pawn_up_fen).
Proof.
  apply (evaluate_half_turn_symmetry (position_of pawn_up_fen) (position_of pawn_down_fen)).
  apply rotated_check_sound. vm_compute; reflexivity.
Defined.

(** ** The clone's value *)

Lemma slice_id (b : Board) :
  (forall i, is_Some (cells b !! i) -> 0 <= i < blen b) ->
  nan_cell b = None ->
  slice b = b.
Proof.
  intros Hk Hn. destruct b as [c l n]. cbn [cells blen nan_cell] in *. subst n.
  unfold slice. cbn [cells blen]. f_equal.
  apply map_filter_id. intros i x Hx. cbn. apply Hk. now exists x.
Qed.

(** X27.  The clone of a parsed position has the same value as the
    position: for every text [fenToState] accepts (and whose board got no
    [NaN] property), [cloneState] returns a state equal to the parsed one
    in the board and in every field. *)
Theorem cloneState_copies_parsed_position (text : string) (p : State) :
  fenToState text = Some p ->
  nan_cell (board p) = None ->
  cloneState p = p.
Proof.
  intros Hp Hn. destruct (fenToState_board text p Hp) as (_ & Hk & _).
  destruct p as [b w [cK0 cQ0 ck0 cq0] e h f]. unfold cloneState.
  cbn [board whiteToMove castling enPassant halfmove fullmove cK cQ ck cq] in *.
  now rewrite (slice_id b Hk Hn).
Qed.

Lemma cloneState_copies_parsed_position_witness :
  cloneState (position_of start_fen) = position_of start_fen.
Proof.
  apply (cloneState_copies_parsed_position start_fen (position_of start_fen)).
  - vm_compute; reflexivity.
  - vm_compute; reflexivity.
Defined.

(** ** The content script's serializer and the engine's parser *)

Lemma board_of_grid_lookup (g : Grid) (i : Z) :
  cells (board_of_grid g) !! i
  = if (0 <=? i) && (i <? 64) then Some (grid_at g (i / 8) (i mod 8)) else None.
Proof.
  unfold board_of_grid; cbn [cells].
  destruct (Z.leb_spec 0 i), (Z.ltb_spec i 64); cbn [andb].
  - apply elem_of_list_to_map_1'.
    + intros y Hy. apply list_elem_of_In, in_map_iff in Hy as (k & [= Hk <-] & _).
      now rewrite Hk.
    + apply list_elem_of_In, in_map_iff. exists (Z.to_nat i).
      split; [|apply in_seq; lia].
      rewrite Z2Nat.id by lia. reflexivity.
  - apply not_elem_of_list_to_map_1. intros Hin.
    apply list_elem_of_fmap in Hin as ([k v] & -> & Hin).
    apply list_elem_of_In, in_map_iff in Hin as (j & [= <- _] & Hj).
    apply in_seq in Hj. cbn in *. lia.
  - apply not_elem_of_list_to_map_1. intros Hin.
    apply list_elem_of_fmap in Hin as ([k v] & -> & Hin).
    apply list_elem_of_In, in_map_iff in Hin as (j & [= <- _] & Hj).
    cbn in *. lia.
  - lia.
Qed.

Lemma board_of_grid_piece (g : Grid) (r f : Z) :
  0 <= r < 8 -> 0 <= f < 8 ->
  bpiece (board_of_grid g) (r * 8 + f) = grid_at g r f.
Proof.
  intros Hr Hf. unfold bpiece, bget. rewrite board_of_grid_lookup.
  destruct (Z.leb_spec 0 (r * 8 + f)), (Z.ltb_spec (r * 8 + f) 64); cbn [andb]; try lia.
  replace ((r * 8 + f) / 8) with r
    by (apply (Z.div_unique (r * 8 + f) 8 r f); lia).
  replace ((r * 8 + f) mod 8) with f
    by (apply (Z.mod_unique (r * 8 + f) 8 r f); lia).
  now destruct (grid_at g r f).
Qed.

Lemma board_of_grid_shape (g : Grid) : grid_ok g -> board_shape (board_of_grid g).
Proof.
  intros [_ Hp]. split; [reflexivity|]. split; [reflexivity|].
  split; [|split].
  - intros i Hi. rewrite board_of_grid_lookup.
    destruct (Z.leb_spec 0 i), (Z.ltb_spec i 64); cbn [andb]; try lia. eauto.
  - intros i [v Hv]. rewrite board_of_grid_lookup in Hv.
    destruct (Z.leb_spec 0 i), (Z.ltb_spec i 64); cbn [andb] in Hv; try discriminate Hv.
    lia.
  - intros i c Hc. rewrite board_of_grid_lookup in Hc.
    destruct ((0 <=? i) && (i <? 64)); [|discriminate Hc].
    injection Hc as Hc. exact (Hp _ _ _ Hc).
Qed.

Lemma grid_rank_fen_rank (b : Board) (row : list (option ascii)) (r : Z) (n : nat) :
  forall f e acc,
    (forall f', f <= f' < f + Z.of_nat n -> bpiece b (r * 8 + f') = grid_cell row f') ->
    grid_rank row n f e acc = fen_rank b r n f e acc.
Proof.
  induction n as [|n IH]; intros f e acc H; cbn [grid_rank fen_rank]; [reflexivity|].
  rewrite (H f) by lia.
  destruct (grid_cell row f); apply IH; intros f' Hf'; apply H; lia.
Qed.

Lemma grid_ranks_fen_ranks (g : Grid) (n : nat) :
  (8 <= length g)%nat ->
  forall r acc,
    Z.of_nat n = r + 1 -> r < 8 ->
    grid_ranks g n r acc = Some (fen_ranks (board_of_grid g) n r acc).
Proof.
  intros Hlen. induction n as [|n IH]; intros r acc Hn Hr; cbn [grid_ranks fen_ranks];
    [reflexivity|].
  destruct (lookup_lt_is_Some_2 g (Z.to_nat r) ltac:(lia)) as [row0 Hrow].
  match goal with
  | |- context [match ?x with Some _ => _ | None => _ end] =>
      destruct x as [row|] eqn:E
  end; [|pose proof (eq_trans (eq_sym E) Hrow) as Heq; discriminate Heq].
  rewrite (grid_rank_fen_rank (board_of_grid g) row r 8 0 0 acc).
  - apply IH; lia.
  - intros f' Hf'. rewrite board_of_grid_piece by lia.
    unfold grid_at. now rewrite E.
Qed.

Lemma or_default_no_char (c : ascii) (x d : string) :
  has_char c x = false -> has_char c d = false ->
  has_char c (or_default (Some x) d) = false.
Proof. intros Hx Hd. destruct x; [exact Hd | exact Hx]. Qed.

Lemma buildFEN_parse (pos : ContentScript.Position) (moveCount : nat) :
  grid_ok (ContentScript.boardGrid pos) ->
  has_char " " (ContentScript.turn pos) = false ->
  has_char " " (ContentScript.castling pos) = false ->
  has_char " " (ContentScript.enPassant pos) = false ->
  exists fen p,
    ContentScript.buildFEN pos moveCount = Some fen
    /\ fenToState fen = Some p
    /\ board p = board_of_grid (ContentScript.boardGrid pos)
    /\ whiteToMove p = String.eqb (ContentScript.turn pos) "w"
    /\ (cK (castling p) = has_char "K" (ContentScript.castling pos)
        /\ cQ (castling p) = has_char "Q" (ContentScript.castling pos)
        /\ ck (castling p) = has_char "k" (ContentScript.castling pos)
        /\ cq (castling p) = has_char "q" (ContentScript.castling pos))
    /\ enPassant p
       = (let ep := or_default (Some (ContentScript.enPassant pos)) "-" in
          if String.eqb ep "-" then Num (-1) else squareToIndex ep)
    /\ halfmove p = Num 0
    /\ fullmove p = Num (Z.max 1 ((Z.of_nat moveCount + 1) / 2)).
Proof.
  intros Hg Ht Hc He.
  pose proof (board_of_grid_shape _ Hg) as Hs.
  unfold ContentScript.buildFEN.
  rewrite (grid_ranks_fen_ranks _ 8 (proj1 Hg) 7 EmptyString eq_refl ltac:(lia)).
  set (b := board_of_grid (ContentScript.boardGrid pos)) in *.
  set (full := Z.max 1 ((Z.of_nat moveCount + 1) / 2)).
  set (ep := or_default (Some (ContentScript.enPassant pos)) "-").
  assert (Hsplit :
    split " " (fen_ranks b 8 7 EmptyString +:+ " " +:+ ContentScript.turn pos +:+ " "
               +:+ ContentScript.castling pos +:+ " " +:+ ep +:+ " " +:+ "0" +:+ " "
               +:+ toString (Num full))
    = [fen_ranks b 8 7 EmptyString; ContentScript.turn pos; ContentScript.castling pos;
       ep; "0"; toString (Num full)]%string).
  { rewrite !append_cons, !append_nil_l.
    rewrite split_app by now apply board_part_no_space.
    rewrite split_app by exact Ht.
    rewrite split_app by exact Hc.
    rewrite split_app by (now apply or_default_no_char).
    change ("0" +:+ String " " (toString (Num full)))%string
      with (String "0" (String " " (toString (Num full)))).
    change (String "0" (String " " (toString (Num full))))
      with ("0" +:+ String " " (toString (Num full)))%string.
    rewrite split_app by reflexivity.
    rewrite split_no_sep by now apply toString_no_char.
    reflexivity. }
  eexists _, _. split; [reflexivity|].
  split.
  { unfold fenToState. rewrite Hsplit. cbn [lookup list_lookup].
    rewrite (board_part_parse b Hs). reflexivity. }
  cbn [board whiteToMove castling enPassant halfmove fullmove].
  split; [reflexivity|]. split; [reflexivity|].
  split.
  { destruct (String.eqb (ContentScript.castling pos) "") eqn:E1; cbn [negb andb].
    { apply String.eqb_eq in E1. rewrite E1. cbn. tauto. }
    destruct (String.eqb (ContentScript.castling pos) "-") eqn:E2; cbn [negb andb].
    { apply String.eqb_eq in E2. rewrite E2. cbn. tauto. }
    exact (parse_castling_letters _
             {| cK := false; cQ := false; ck := false; cq := false |}). }
  split; [reflexivity|].
  split; [reflexivity|].
  now rewrite or_default_toString, parseInt_toString.
Qed.

(** X28.  The text the content script builds is a text the engine reads
    back: for a grid with its eight rows, whose piece codes are neither
    digits, white space nor slashes, and a turn, castling and en-passant
    text without blanks, [buildFEN] returns a text that [fenToState]
    accepts; the parsed board holds on each square what the grid holds,
    White is to move exactly when the turn is the text w, the castling
    flags are the letters of the castling text, the halfmove clock is 0
    and the fullmove number is the number of moves of the page's list
    halved and rounded up, but at least 1. *)
Theorem buildFEN_is_read_back (pos : ContentScript.Position) (moveCount : nat) :
  grid_ok (ContentScript.boardGrid pos) ->
  has_char " " (ContentScript.turn pos) = false ->
  has_char " " (ContentScript.castling pos) = false ->
  has_char " " (ContentScript.enPassant pos) = false ->
  exists fen p,
    ContentScript.buildFEN pos moveCount = Some fen
    /\ fenToState fen = Some p
    /\ board p = board_of_grid (ContentScript.boardGrid pos)
    /\ whiteToMove p = String.eqb (ContentScript.turn pos) "w"
    /\ (cK (castling p) = has_char "K" (ContentScript.castling pos)
        /\ cQ (castling p) = has_char "Q" (ContentScript.castling pos)
        /\ ck (castling p) = has_char "k" (ContentScript.castling pos)
        /\ cq (castling p) = has_char "q" (ContentScript.castling pos))
    /\ enPassant p
       = (let ep := or_default (Some (ContentScript.enPassant pos)) "-" in
          if String.eqb ep "-" then Num (-1) else squareToIndex ep)
    /\ halfmove p = Num 0
    /\ fullmove p = Num (Z.max 1 ((Z.of_nat moveCount + 1) / 2)).
Proof. exact (buildFEN_parse pos moveCount). Qed.

Lemma grid_check_sound (g : Grid) : grid_check g = true -> grid_ok g.
Proof.
  unfold grid_check, grid_ok. intros H. apply andb_true_iff in H as [Hl Hc].
  apply Z.leb_le in Hl. split; [lia|].
  intros r f c Hat. unfold grid_at in Hat.
  match type of Hat with
  | match ?x with Some _ => _ | None => _ end = _ => destruct x as [row|] eqn:Er
  end; [|discriminate Hat].
  unfold grid_cell in Hat.
  destruct (row !! Z.to_nat f) as [[x|]|] eqn:Ef; try discriminate Hat.
  injection Hat as ->.
  rewrite forallb_forall in Hc.
  pose proof (Hc row) as Hrow.
  rewrite forallb_forall in Hrow.
  assert (Hin : In row g).
  { apply list_elem_of_In. eapply list_elem_of_lookup_2. exact Er. }
  specialize (Hrow Hin (Some c)).
  assert (Hin2 : In (Some c) row).
  { apply list_elem_of_In. eapply list_elem_of_lookup_2. exact Ef. }
  specialize (Hrow Hin2). cbn in Hrow.
  apply andb_true_iff in Hrow as [H1 H2]. apply negb_true_iff in H2. auto.
Qed.

Lemma buildFEN_is_read_back_witness :
  exists fen p,
    ContentScript.buildFEN start_position 0 = Some fen
    /\ fenToState fen = Some p
    /\ board p = board_of_grid (ContentScript.boardGrid start_position)
    /\ whiteToMove p = String.eqb (ContentScript.turn start_position) "w"
    /\ (cK (castling p) = has_char "K" (ContentScript.castling start_position)
        /\ cQ (castling p) = has_char "Q" (ContentScript.castling start_position)
        /\ ck (castling p) = has_char "k" (ContentScript.castling start_position)
        /\ cq (castling p) = has_char "q" (ContentScript.castling start_position))
    /\ enPassant p
       = (let ep := or_default (Some (ContentScript.enPassant start_position)) "-" in
          if String.eqb ep "-" then Num (-1) else squareToIndex ep)
    /\ halfmove p = Num 0
    /\ fullmove p = Num (Z.max 1 ((Z.of_nat 0 + 1) / 2)).
Proof.
  apply (buildFEN_is_read_back start_position 0).
  - apply grid_check_sound. vm_compute; reflexivity.
  - vm_compute; reflexivity.
  - vm_compute; reflexivity.
  - vm_compute; reflexivity.
Defined.

Lemma slot_is_grid (g : Grid) (r f : Z) (c : ascii) :
  0 <= r < 8 -> 0 <= f < 8 ->
  slot_is (board_of_grid g) (r * 8 + f) c = grid_is g r f c.
Proof.
  intros Hr Hf. unfold grid_is. rewrite <- (board_of_grid_piece g r f Hr Hf).
  unfold slot_is, bpiece. now destruct (bget _ _) as [[x|]|].
Qed.

Lemma detectCastling_letters (g : Grid) :
  has_char " " (ContentScript.detectCastling g) = false
  /\ has_char "K" (ContentScript.detectCastling g)
     = grid_is g 0 4 "K" && grid_is g 0 7 "R"
  /\ has_char "Q" (ContentScript.detectCastling g)
     = grid_is g 0 4 "K" && grid_is g 0 0 "R"
  /\ has_char "k" (ContentScript.detectCastling g)
     = grid_is g 7 4 "k" && grid_is g 7 7 "r"
  /\ has_char "q" (ContentScript.detectCastling g)
     = grid_is g 7 4 "k" && grid_is g 7 0 "r".
Proof.
  unfold ContentScript.detectCastling.
  destruct (grid_is g 0 4 "K"), (grid_is g 0 7 "R"), (grid_is g 0 0 "R"),
    (grid_is g 7 4 "k"), (grid_is g 7 7 "r"), (grid_is g 7 0 "r");
    vm_compute; repeat split; reflexivity.
Qed.

(** X29.  With the castling text taken from the grid, the rights of the
    state the engine parses are read off the parsed board: White may
    castle king side exactly when K stands on e1 and R on h1, queen side
    when K stands on e1 and R on a1, and likewise for Black with k on e8
    and r on h8 or a8. *)
Theorem detected_castling_matches_board (pos : ContentScript.Position)
    (moveCount : nat) :
  grid_ok (ContentScript.boardGrid pos) ->
  has_char " " (ContentScript.turn pos) = false ->
  ContentScript.castling pos = ContentScript.detectCastling (ContentScript.boardGrid pos) ->
  has_char " " (ContentScript.enPassant pos) = false ->
  exists fen p,
    ContentScript.buildFEN pos moveCount = Some fen
    /\ fenToState fen = Some p
    /\ cK (castling p) = slot_is (board p) e1 "K" && slot_is (board p) h1 "R"
    /\ cQ (castling p) = slot_is (board p) e1 "K" && slot_is (board p) a1 "R"
    /\ ck (castling p) = slot_is (board p) e8 "k" && slot_is (board p) h8 "r"
    /\ cq (castling p) = slot_is (board p) e8 "k" && slot_is (board p) a8 "r".
Proof.
  intros Hg Ht Hc He.
  destruct (detectCastling_letters (ContentScript.boardGrid pos))
    as (Hsp & HK & HQ & Hk & Hq).
  destruct (buildFEN_parse pos moveCount Hg Ht ltac:(now rewrite Hc) He)
    as (fen & p & Hb & Hp & Hboard & _ & (CK & CQ & Ck & Cq) & _).
  exists fen, p. split; [exact Hb|]. split; [exact Hp|].
  rewrite Hboard, CK, CQ, Ck, Cq, Hc, HK, HQ, Hk, Hq.
  change e1 with (0 * 8 + 4). change h1 with (0 * 8 + 7). change a1 with (0 * 8 + 0).
  change e8 with (7 * 8 + 4). change h8 with (7 * 8 + 7). change a8 with (7 * 8 + 0).
  rewrite !slot_is_grid by lia. tauto.
Qed.

Lemma detected_castling_matches_board_witness :
  exists fen p,
    ContentScript.buildFEN start_position 0 = Some fen
    /\ fenToState fen = Some p
    /\ cK (castling p) = slot_is (board p) e1 "K" && slot_is (board p) h1 "R"
    /\ cQ (castling p) = slot_is (board p) e1 "K" && slot_is (board p) a1 "R"
    /\ ck (castling p) = slot_is (board p) e8 "k" && slot_is (board p) h8 "r"
    /\ cq (castling p) = slot_is (board p) e8 "k" && slot_is (board p) a8 "r".
Proof.
  apply (detected_castling_matches_board start_position 0).
  - apply grid_check_sound. vm_compute; reflexivity.
  - vm_compute; reflexivity.
  - reflexivity.
  - vm_compute; reflexivity.
Defined.

(** ** A search of depth 1 *)

Lemma max_loop_depth1 (k : nat) (p : State) :
  forall rest seen alpha bs bm,
    (forall m, In m rest -> make_then_undo p m = p) ->
    alpha <> PInf ->
    best_so_far true p seen bs bm ->
    exists r,
      max_loop (fun s a b => search (S k) s 0 a b) rest p alpha PInf bs bm = Some (r, p)
      /\ best_so_far true p (seen ++ rest) (score r) (move r).
Proof.
  induction rest as [|mv rest IH]; intros seen alpha bs bm Hr Ha Hb; cbn [max_loop].
  - eexists. split; [reflexivity|]. now rewrite app_nil_r.
  - pose proof (Hr mv ltac:(now left)) as Hmv. unfold make_then_undo in Hmv.
    assert (He : eval_after p mv = evaluate (fst (makeMove p mv))) by reflexivity.
    destruct (makeMove p mv) as [s1 undo]. cbn [fst] in He.
    cbn [search Z.eqb score]. rewrite Hmv, <- He.
    remember (eval_after p mv) as e eqn:Ee.
    assert (Ha' : ext_max alpha (Fin e) <> PInf).
    { unfold ext_max. destruct alpha as [|a|]; cbn [ext_ltb];
        [discriminate | destruct (a <? e); discriminate | contradiction]. }
    assert (Hcut : ext_leb PInf (ext_max alpha (Fin e)) = false).
    { destruct (ext_max alpha (Fin e)); [reflexivity | reflexivity | contradiction]. }
    rewrite Hcut.
    replace (seen ++ mv :: rest) with ((seen ++ [mv]) ++ rest)
      by (now rewrite <- app_assoc).
    apply IH; [intros m Hm; apply Hr; now right | exact Ha' |].
    right. destruct Hb as [(-> & -> & ->) | (v & m & -> & -> & Hin & Hv & Hall)].
    + exists e, mv. cbn [ext_ltb app]. split; [reflexivity|]. split; [reflexivity|].
      split; [now left|]. split; [exact Ee|]. intros m' [<- | []]. rewrite <- Ee. lia.
    + cbn [ext_ltb]. destruct (Z.ltb_spec v e).
      * exists e, mv. split; [reflexivity|]. split; [reflexivity|].
        split; [apply in_or_app; right; now left|]. split; [exact Ee|].
        intros m' Hm'. apply in_app_or in Hm' as [Hm' | [<- | []]].
        -- specialize (Hall m' Hm'). cbv beta iota in Hall. lia.
        -- rewrite <- Ee. lia.
      * exists v, m. split; [reflexivity|]. split; [reflexivity|].
        split; [apply in_or_app; now left|]. split; [exact Hv|].
        intros m' Hm'. apply in_app_or in Hm' as [Hm' | [<- | []]].
        -- exact (Hall m' Hm').
        -- rewrite <- Ee. lia.
Qed.

Lemma min_loop_depth1 (k : nat) (p : State) :
  forall rest seen beta bs bm,
    (forall m, In m rest -> make_then_undo p m = p) ->
    beta <> MInf ->
    best_so_far false p seen bs bm ->
    exists r,
      min_loop (fun s a b => search (S k) s 0 a b) rest p MInf beta bs bm = Some (r, p)
      /\ best_so_far false p (seen ++ rest) (score r) (move r).
Proof.
  induction rest as [|mv rest IH]; intros seen beta bs bm Hr Ha Hb; cbn [min_loop].
  - eexists. split; [reflexivity|]. now rewrite app_nil_r.
  - pose proof (Hr mv ltac:(now left)) as Hmv. unfold make_then_undo in Hmv.
    assert (He : eval_after p mv = evaluate (fst (makeMove p mv))) by reflexivity.
    destruct (makeMove p mv) as [s1 undo]. cbn [fst] in He.
    cbn [search Z.eqb score]. rewrite Hmv, <- He.
    remember (eval_after p mv) as e eqn:Ee.
    assert (Ha' : ext_min beta (Fin e) <> MInf).
    { unfold ext_min. destruct beta as [|a|]; cbn [ext_ltb];
        [contradiction | destruct (e <? a); discriminate | discriminate]. }
    assert (Hcut : ext_leb (ext_min beta (Fin e)) MInf = false).
    { destruct (ext_min beta (Fin e)); [contradiction | reflexivity | reflexivity]. }
    rewrite Hcut.
    replace (seen ++ mv :: rest) with ((seen ++ [mv]) ++ rest)
      by (now rewrite <- app_assoc).
    apply IH; [intros m Hm; apply Hr; now right | exact Ha' |].
    right. destruct Hb as [(-> & -> & ->) | (v & m & -> & -> & Hin & Hv & Hall)].
    + exists e, mv. cbn [ext_ltb app]. split; [reflexivity|]. split; [reflexivity|].
      split; [now left|]. split; [exact Ee|]. intros m' [<- | []]. rewrite <- Ee. lia.
    + cbn [ext_ltb]. destruct (Z.ltb_spec e v).
      * exists e, mv. split; [reflexivity|]. split; [reflexivity|].
        split; [apply in_or_app; right; now left|]. split; [exact Ee|].
        intros m' Hm'. apply in_app_or in Hm' as [Hm' | [<- | []]].
        -- specialize (Hall m' Hm'). cbv beta iota in Hall. lia.
        -- rewrite <- Ee. lia.
      * exists v, m. split; [reflexivity|]. split; [reflexivity|].
        split; [apply in_or_app; now left|]. split; [exact Hv|].
        intros m' Hm'. apply in_app_or in Hm' as [Hm' | [<- | []]].
        -- exact (Hall m' Hm').
        -- rewrite <- Ee. lia.
Qed.

(** X30.  A search of depth 1 over the full window picks the move with
    the best static evaluation.  When make and unmake restore every
    candidate of the position and [generateMoves] returns moves, [search]
    returns one of them together with the evaluation of the position it
    leads to, no returned move leads to a position that [evaluate] scores
    higher (White to move) or lower (Black to move), and the position is
    left as it was. *)
Theorem search_depth1_picks_best_evaluation (k : nat) (p : State) :
  Forall (fun m => make_then_undo p m = p) (candidateMoves p) ->
  fst (generateMoves p) <> [] ->
  exists v m,
    search (S (S k)) p 1 MInf PInf = Some ({| score := Fin v; move := Some m |}, p)
    /\ In m (fst (generateMoves p))
    /\ v = eval_after p m
    /\ forall m', In m' (fst (generateMoves p)) ->
         if whiteToMove p then eval_after p m' <= v else v <= eval_after p m'.
Proof.
  intros Hall Hne.
  pose proof (proj1 (List.Forall_forall _ _) Hall) as Hres.
  cbn [search]. change (1 =? 0) with false. cbv iota. change (1 - 1) with 0.
  rewrite (generateMoves_tests_own_colour p Hall) in *. cbn [fst] in *.
  set (moves := List.filter _ (candidateMoves p)) in *.
  assert (Hsub : forall m, In m moves -> make_then_undo p m = p).
  { intros m Hm. apply Hres. unfold moves in Hm. now apply filter_In in Hm as [Hm _]. }
  clearbody moves.
  destruct moves as [|mv rest]; [contradiction|].
  assert (Hfinish : forall white r,
            best_so_far white p ([] ++ mv :: rest) (score r) (move r) ->
            exists v m, r = {| score := Fin v; move := Some m |}
              /\ In m (mv :: rest) /\ v = eval_after p m
              /\ forall m', In m' (mv :: rest) ->
                   if white then eval_after p m' <= v else v <= eval_after p m').
  { intros white [sc mo] Hb. cbn [app score move] in Hb.
    destruct Hb as [(E & _) | (v & m & -> & -> & Hin & Hv & Hb)]; [discriminate E|].
    exists v, m. auto. }
  destruct (whiteToMove p).
  - destruct (max_loop_depth1 k p (mv :: rest) [] MInf MInf None Hsub
                ltac:(discriminate) ltac:(left; auto)) as (r & Hr & Hb).
    destruct (Hfinish true r Hb) as (v & m & -> & H1 & H2 & H3).
    exists v, m. auto.
  - destruct (min_loop_depth1 k p (mv :: rest) [] PInf PInf None Hsub
                ltac:(discriminate) ltac:(left; auto)) as (r & Hr & Hb).
    destruct (Hfinish false r Hb) as (v & m & -> & H1 & H2 & H3).
    exists v, m. auto.
Qed.

Lemma search_depth1_picks_best_evaluation_witness :
  exists v m,
    search 2 (position_of stalemate_fen) 1 MInf PInf
    = Some ({| score := Fin v; move := Some m |}, position_of stalemate_fen)
    /\ In m (fst (generateMoves (position_of stalemate_fen)))
    /\ v = eval_after (position_of stalemate_fen) m
    /\ forall m', In m' (fst (generateMoves (position_of stalemate_fen))) ->
         if whiteToMove (position_of stalemate_fen)
         then eval_after (position_of stalemate_fen) m' <= v
         else v <= eval_after (position_of stalemate_fen) m'.
Proof.
  apply (search_depth1_picks_best_evaluation 0 (position_of stalemate_fen)).
  - exact stalemate_candidates_restored.
  - vm_compute; discriminate.
Defined.
